(** * Configuration state and compliance engine

    A shallow embedding of
    [network_automation_agents/tools/configuration.py] (with the
    [ToolOutput] envelope of [models/tool_io.py]) and of the part of
    Python's [difflib] that [detect_drift] runs, followed by the
    properties of snapshotting, drift detection and compliance audits.

    Conventions.
    - A Python [str] is a [string]; a character stands for the code
      point of the same number.
    - [dict]s are [gmap]s, lists are [list]s.
    - A call that may raise returns an [outcome]; calls that touch the
      file system or the repository thread a world state and keep the
      state reached when they raise.
    - The [re] module, the file system and the Git repository are
      used through interfaces ([ReEngine], [Backend]); every statement
      about the tools holds for every implementation of them, and the
      statements about successive commits for every implementation
      that keeps the laws of [WorkingRepository].  Two implementations
      ([MiniRe], [GitModel]) make the tools runnable on concrete
      inputs. *)

From stdpp Require Import gmap strings list sorting pretty.
From Stdlib Require Import Ascii Lia.

Open Scope string_scope.
Open Scope list_scope.
Open Scope nat_scope.

(* ================================================================= *)
(** ** Python values, exceptions and the [ToolOutput] envelope *)

(** The exception classes the module can meet. *)
Inductive exn : Type :=
  | GitCommandError (msg : string)
  | InvalidGitRepositoryError (msg : string)
  | NoSuchPathError (msg : string)
  | OSError (msg : string)
  | ValueError (msg : string)
  | TypeError (msg : string)
  | ReError (msg : string)
  | OtherException (msg : string).

Inductive outcome (A : Type) : Type :=
  | Returned (a : A)
  | Raised (e : exn).
Arguments Returned {A} a.
Arguments Raised {A} e.

(** [ConfigBackupResult] *)
Record ConfigBackupResult : Type := {
  cbr_device : string;
  cbr_path : string;
  cbr_commit_hash : option string
}.

(** [ConfigDriftOutput] *)
Record ConfigDriftOutput : Type := {
  device : string;
  is_drifted : bool;
  diff : option string
}.

(** [ComplianceRule] *)
Record ComplianceRule : Type := {
  rule_id : string;
  description : string;
  pattern : string;
  mode : string
}.

(** [ComplianceViolation] *)
Record ComplianceViolation : Type := {
  v_rule_id : string;
  rule_description : string;
  violating_line : option string;
  violation_type : string
}.

(** [ComplianceReport] *)
Record ComplianceReport : Type := {
  policy_name : string;
  is_compliant : bool;
  violations : list ComplianceViolation
}.

(** A value of type [Any]: what a fetcher hands over, or the payload of
    a [ToolOutput].  [PyObject] is any value that is neither [None] nor
    a [str] nor one of the module's result models; it is known by a
    name only. *)
Inductive Any : Type :=
  | PyNone
  | PyStr (s : string)
  | PyObject (o : string)
  | PyBackupResult (r : ConfigBackupResult)
  | PyDriftOutput (d : ConfigDriftOutput)
  | PyReport (r : ComplianceReport).

(** [ToolError] and [ToolOutput] of [models/tool_io.py]. *)
Record ToolError : Type := {
  message : string;
  code : option string;
  details : option (gmap string Any)
}.

Record ToolOutput : Type := {
  success : bool;
  data : Any;
  error : option ToolError
}.

Module ToolOutput_.
(** [ToolOutput.ok(data)] *)
Definition ok (d : Any) : ToolOutput :=
  {| success := true; data := d; error := None |}.

(** [ToolOutput.fail(message, code=None, details=None)] *)
Definition fail (msg : string) (c : option string)
    (det : option (gmap string Any)) : ToolOutput :=
  {| success := false; data := PyNone;
     error := Some {| message := msg; code := c; details := det |} |}.
End ToolOutput_.

(** What an injected fetcher or loader returns: a [ToolOutput], or a
    bare value ([isinstance(fetched, ToolOutput)] tells them apart). *)
Inductive Fetched : Type :=
  | FetchedOutput (t : ToolOutput)
  | FetchedValue (v : Any).

(* ================================================================= *)
(** ** String helpers: [startswith], [join], [splitlines] *)

(** [line.startswith(p)] *)
Definition startswith (line p : string) : bool := String.prefix p line.

(** [line.startswith((p1, p2, ...))] *)
Definition startswith_any (line : string) (ps : list string) : bool :=
  existsb (startswith line) ps.

(** [sep.join(lines)] *)
Fixpoint join (sep : string) (lines : list string) : string :=
  match lines with
  | [] => ""
  | [l] => l
  | l :: rest => l +:+ sep +:+ join sep rest
  end.

(** The line boundaries of [str.splitlines] among the code points below
    256: LF, VT, FF, CR, FS, GS, RS and NEL; CR LF counts once. *)
Definition is_line_boundary (c : ascii) : bool :=
  let n := nat_of_ascii c in
  (n =? 10)%nat || (n =? 11)%nat || (n =? 12)%nat || (n =? 13)%nat ||
  (n =? 28)%nat || (n =? 29)%nat || (n =? 30)%nat || (n =? 133)%nat.

Fixpoint splitlines_from (line : string) (s : string) : list string :=
  match s with
  | EmptyString => if bool_decide (line = "") then [] else [line]
  | String c rest =>
      if is_line_boundary c then
        match rest with
        | String c2 rest2 =>
            if ((nat_of_ascii c =? 13)%nat && (nat_of_ascii c2 =? 10)%nat)%bool
            then line :: splitlines_from "" rest2
            else line :: splitlines_from "" rest
        | EmptyString => [line]
        end
      else splitlines_from (line +:+ String c "") rest
  end.

(** [s.splitlines()] *)
Definition splitlines (s : string) : list string := splitlines_from "" s.

(* ================================================================= *)
(** ** [difflib]: [SequenceMatcher] and [unified_diff]

    [detect_drift] calls [difflib.unified_diff(baseline_lines,
    running_lines, fromfile="baseline", tofile="running", lineterm="")].
    The definitions below follow [Lib/difflib.py] for that call:
    [SequenceMatcher(None, a, b)] has no junk predicate and has
    [autojunk] on.  Indices are natural numbers; where Python relies on
    a negative number ([j - 1] for [j = 0] is a key no dictionary
    holds) the case is written out. *)

Module Difflib.

(** [Match(a, b, size)] *)
Definition Match : Type := (nat * nat * nat)%type.

Inductive tag : Type := replace | delete | insert | equal.

#[global] Instance tag_eq_dec : EqDecision tag.
Proof. solve_decision. Defined.

(** An opcode [(tag, i1, i2, j1, j2)]. *)
Definition opcode : Type := (tag * nat * nat * nat * nat)%type.

(** The first loop of [__chain_b]: [b2j.setdefault(elt, []).append(i)]
    for [i, elt] in [enumerate(b)]. *)
Fixpoint chain_from (i : nat) (b : list string)
    (b2j : gmap string (list nat)) : gmap string (list nat) :=
  match b with
  | [] => b2j
  | elt :: rest =>
      chain_from (S i) rest (<[elt := default [] (b2j !! elt) ++ [i]]> b2j)
  end.

(** [__chain_b]: [isjunk] is [None], so [bjunk] stays empty; with
    [autojunk] and [n >= 200] the elements with more than
    [n // 100 + 1] occurrences are deleted from [b2j]. *)
Definition chain_b (b : list string) : gmap string (list nat) :=
  let b2j := chain_from 0 b ∅ in
  let n := length b in
  if (200 <=? n)%nat then
    let ntest := (n / 100 + 1)%nat in
    filter (λ kv : string * list nat, (length kv.2 ≤ ntest)%nat) b2j
  else b2j.

(** [bjunk.__contains__] *)
Definition isbjunk (elt : string) : bool := false.

Section Matcher.
Variables a b : list string.

(** [a[i] == b[j]] for indices inside both lists. *)
Definition same_at (i j : nat) : bool :=
  match a !! i, b !! j with
  | Some x, Some y => bool_decide (x = y)
  | _, _ => false
  end.

(** [junk(b[j])], false outside the list. *)
Definition junk_at (junk : string → bool) (j : nat) : bool :=
  match b !! j with Some y => junk y | None => false end.

(** [j2len.get(j - 1, 0)] *)
Definition j2lenget (j2len : gmap nat nat) (j : nat) : nat :=
  match j with
  | O => 0
  | S j' => default 0 (j2len !! j')
  end.

(** The loop [for j in b2j.get(a[i], nothing)] of
    [find_longest_match], with its [continue] and [break]. *)
Fixpoint scan_row (js : list nat) (i blo bhi : nat)
    (j2len newj2len : gmap nat nat) (best : Match)
    : gmap nat nat * Match :=
  match js with
  | [] => (newj2len, best)
  | j :: js' =>
      if (j <? blo)%nat then scan_row js' i blo bhi j2len newj2len best
      else if (bhi <=? j)%nat then (newj2len, best)
      else
        let k := (j2lenget j2len j + 1)%nat in
        let '(_, _, bestsize) := best in
        scan_row js' i blo bhi j2len (<[j := k]> newj2len)
          (if (bestsize <? k)%nat then ((i + 1 - k)%nat, (j + 1 - k)%nat, k)
           else best)
  end.

(** The loop [for i in range(alo, ahi)]: [count] rows from [i]. *)
Fixpoint scan_rows (b2j : gmap string (list nat)) (count i blo bhi : nat)
    (j2len : gmap nat nat) (best : Match) : Match :=
  match count with
  | O => best
  | S count' =>
      let js := match a !! i with
                | Some elt => default [] (b2j !! elt)
                | None => []
                end in
      let '(newj2len, best') := scan_row js i blo bhi j2len ∅ best in
      scan_rows b2j count' (S i) blo bhi newj2len best'
  end.

(** [while besti > alo and bestj > blo and junk(b[bestj-1]) and
    a[besti-1] == b[bestj-1]]: at most [besti - alo] rounds. *)
Fixpoint extend_left (junk : string → bool) (rounds alo blo : nat)
    (m : Match) : Match :=
  let '(besti, bestj, bestsize) := m in
  match rounds with
  | O => m
  | S rounds' =>
      if ((alo <? besti)%nat && (blo <? bestj)%nat &&
          junk_at junk (bestj - 1) && same_at (besti - 1) (bestj - 1))%bool
      then extend_left junk rounds' alo blo
             ((besti - 1)%nat, (bestj - 1)%nat, (bestsize + 1)%nat)
      else m
  end.

(** [while besti+bestsize < ahi and bestj+bestsize < bhi and
    junk(b[bestj+bestsize]) and a[besti+bestsize] ==
    b[bestj+bestsize]]: at most [ahi - (besti + bestsize)] rounds. *)
Fixpoint extend_right (junk : string → bool) (rounds ahi bhi : nat)
    (m : Match) : Match :=
  let '(besti, bestj, bestsize) := m in
  match rounds with
  | O => m
  | S rounds' =>
      if ((besti + bestsize <? ahi)%nat && (bestj + bestsize <? bhi)%nat &&
          junk_at junk (bestj + bestsize) &&
          same_at (besti + bestsize) (bestj + bestsize))%bool
      then extend_right junk rounds' ahi bhi
             (besti, bestj, (bestsize + 1)%nat)
      else m
  end.

Definition m_i (m : Match) : nat := m.1.1.
Definition m_size (m : Match) : nat := m.2.

(** [find_longest_match(alo, ahi, blo, bhi)] *)
Definition find_longest_match (b2j : gmap string (list nat))
    (alo ahi blo bhi : nat) : Match :=
  let m0 := scan_rows b2j (ahi - alo) alo blo bhi ∅ (alo, blo, 0%nat) in
  let notjunk := λ x, negb (isbjunk x) in
  let m1 := extend_left notjunk (m_i m0 - alo) alo blo m0 in
  let m2 := extend_right notjunk (ahi - (m_i m1 + m_size m1)) ahi bhi m1 in
  let m3 := extend_left isbjunk (m_i m2 - alo) alo blo m2 in
  extend_right isbjunk (ahi - (m_i m3 + m_size m3)) ahi bhi m3.

(** The loop [while queue] of [get_matching_blocks]; the head of
    [queue] is the entry [queue.pop()] takes.  The loop runs for at
    most [rounds] rounds; [get_matching_blocks] passes enough of them
    for the queue to run empty (lemma [get_matching_blocks_rounds]). *)
Fixpoint match_queue (b2j : gmap string (list nat)) (rounds : nat)
    (queue : list (nat * nat * nat * nat)) (matching_blocks : list Match)
    : list Match :=
  match rounds, queue with
  | S rounds', (alo, ahi, blo, bhi) :: queue' =>
      let x := find_longest_match b2j alo ahi blo bhi in
      let '(i, j, k) := x in
      if (k =? 0)%nat then match_queue b2j rounds' queue' matching_blocks
      else
        let queue1 :=
          if ((alo <? i)%nat && (blo <? j)%nat)%bool
          then (alo, i, blo, j) :: queue' else queue' in
        let queue2 :=
          if ((i + k <? ahi)%nat && (j + k <? bhi)%nat)%bool
          then ((i + k)%nat, ahi, (j + k)%nat, bhi) :: queue1 else queue1 in
        match_queue b2j rounds' queue2 (matching_blocks ++ [x])
  | _, _ => matching_blocks
  end.

End Matcher.

(** The order of [matching_blocks.sort()] on triples. *)
Definition match_le (x y : Match) : Prop :=
  let '(i1, j1, k1) := x in
  let '(i2, j2, k2) := y in
  i1 < i2 ∨ (i1 = i2 ∧ (j1 < j2 ∨ (j1 = j2 ∧ k1 ≤ k2))).

#[global] Instance match_le_dec x y : Decision (match_le x y).
Proof. destruct x as [[??]?], y as [[??]?]; simpl; apply _. Defined.

(** The loop that collapses adjacent blocks. *)
Fixpoint collapse (blocks : list Match) (cur : Match)
    (non_adjacent : list Match) : list Match :=
  let '(i1, j1, k1) := cur in
  match blocks with
  | [] => if (k1 =? 0)%nat then non_adjacent else non_adjacent ++ [cur]
  | (i2, j2, k2) :: rest =>
      if ((i1 + k1 =? i2)%nat && (j1 + k1 =? j2)%nat)%bool
      then collapse rest (i1, j1, (k1 + k2)%nat) non_adjacent
      else collapse rest (i2, j2, k2)
             (if (k1 =? 0)%nat then non_adjacent else non_adjacent ++ [cur])
  end.

(** [get_matching_blocks()] *)
Definition get_matching_blocks (a b : list string) : list Match :=
  let la := length a in
  let lb := length b in
  let blocks :=
    match_queue a b (chain_b b) (2 * (la + lb) + 1) [(0, la, 0, lb)]%nat [] in
  collapse (merge_sort match_le blocks) (0, 0, 0)%nat [] ++ [(la, lb, 0%nat)].

(** The loop of [get_opcodes]. *)
Fixpoint opcodes_from (blocks : list Match) (i j : nat)
    (answer : list opcode) : list opcode :=
  match blocks with
  | [] => answer
  | (ai, bj, size) :: rest =>
      let answer1 :=
        if ((i <? ai)%nat && (j <? bj)%nat)%bool
        then answer ++ [(replace, i, ai, j, bj)]
        else if (i <? ai)%nat then answer ++ [(delete, i, ai, j, bj)]
        else if (j <? bj)%nat then answer ++ [(insert, i, ai, j, bj)]
        else answer in
      let i' := (ai + size)%nat in
      let j' := (bj + size)%nat in
      opcodes_from rest i' j'
        (if (size =? 0)%nat then answer1
         else answer1 ++ [(equal, ai, i', bj, j')])
  end.

(** [get_opcodes()] *)
Definition get_opcodes (a b : list string) : list opcode :=
  opcodes_from (get_matching_blocks a b) 0 0 [].

(** [codes[0] = tag, max(i1, i2-n), i2, max(j1, j2-n), j2] when the
    first opcode is ['equal']. *)
Definition trim_first (n : nat) (codes : list opcode) : list opcode :=
  match codes with
  | (equal, i1, i2, j1, j2) :: rest =>
      (equal, i1 `max` (i2 - n), i2, j1 `max` (j2 - n), j2) :: rest
  | _ => codes
  end.

(** [codes[-1] = tag, i1, min(i2, i1+n), j1, min(j2, j1+n)] when the
    last opcode is ['equal']. *)
Fixpoint trim_last (n : nat) (codes : list opcode) : list opcode :=
  match codes with
  | [] => []
  | [(equal, i1, i2, j1, j2)] =>
      [(equal, i1, i2 `min` (i1 + n), j1, j2 `min` (j1 + n))]
  | c :: rest => c :: trim_last n rest
  end.

(** The grouping loop of [get_grouped_opcodes]: [group] is the group
    being built, the result lists the groups yielded. *)
Fixpoint group_loop (n : nat) (codes : list opcode) (group : list opcode)
    : list (list opcode) :=
  match codes with
  | [] =>
      match group with
      | [] => []
      | [(equal, _, _, _, _)] => []
      | _ => [group]
      end
  | (t, i1, i2, j1, j2) :: rest =>
      if (bool_decide (t = equal) && (n + n <? i2 - i1)%nat)%bool then
        (group ++ [(t, i1, i2 `min` (i1 + n), j1, j2 `min` (j1 + n))]) ::
        group_loop n rest [(t, i1 `max` (i2 - n), i2, j1 `max` (j2 - n), j2)]
      else group_loop n rest (group ++ [(t, i1, i2, j1, j2)])
  end.

(** [get_grouped_opcodes(n)] *)
Definition get_grouped_opcodes (a b : list string) (n : nat)
    : list (list opcode) :=
  let codes := get_opcodes a b in
  let codes := match codes with
               | [] => [(equal, 0, 1, 0, 1)%nat]
               | _ => codes
               end in
  group_loop n (trim_last n (trim_first n codes)) [].

(** [_format_range_unified(start, stop)] *)
Definition _format_range_unified (start stop : nat) : string :=
  let beginning := (start + 1)%nat in
  let length := (stop - start)%nat in
  if (length =? 1)%nat then pretty beginning
  else
    let beginning := if (length =? 0)%nat then (beginning - 1)%nat
                     else beginning in
    pretty beginning +:+ "," +:+ pretty length.

(** [seq[i1:i2]] *)
Definition slice (seq : list string) (i1 i2 : nat) : list string :=
  take (i2 - i1) (drop i1 seq).

(** The lines one opcode of a group yields. *)
Definition opcode_lines (a b : list string) (c : opcode) : list string :=
  let '(t, i1, i2, j1, j2) := c in
  match t with
  | equal => (λ line, " " +:+ line) <$> slice a i1 i2
  | replace =>
      ((λ line, "-" +:+ line) <$> slice a i1 i2) ++
      ((λ line, "+" +:+ line) <$> slice b j1 j2)
  | delete => (λ line, "-" +:+ line) <$> slice a i1 i2
  | insert => (λ line, "+" +:+ line) <$> slice b j1 j2
  end.

(** The lines of one group: the [@@] marker and the group's lines. *)
Definition group_lines (a b : list string) (lineterm : string)
    (group : list opcode) : list string :=
  match group, last group with
  | (_, f1, _, f3, _) :: _, Some (_, _, l2, _, l4) =>
      ("@@ -" +:+ _format_range_unified f1 l2 +:+ " +" +:+
       _format_range_unified f3 l4 +:+ " @@" +:+ lineterm) ::
      concat (opcode_lines a b <$> group)
  | _, _ => []
  end.

(** [unified_diff(a, b, fromfile, tofile, n=3, lineterm)] with the
    file dates left empty: the two header lines come before the first
    group, and there is no line at all without a group. *)
Definition unified_diff (a b : list string) (fromfile tofile : string)
    (n : nat) (lineterm : string) : list string :=
  match get_grouped_opcodes a b n with
  | [] => []
  | groups =>
      ("--- " +:+ fromfile +:+ lineterm) ::
      ("+++ " +:+ tofile +:+ lineterm) ::
      concat (group_lines a b lineterm <$> groups)
  end.

End Difflib.

(* ================================================================= *)
(** ** What the module takes from outside *)

(** The [re] module: [re.compile(pattern, flags)] (raising [re.error]
    on a malformed pattern), [pattern.search(line)] and
    [pattern.finditer(text)], whose match objects are read through
    [group(0)] only. *)
Inductive RegexFlag : Type := MULTILINE.

#[global] Instance RegexFlag_eq_dec : EqDecision RegexFlag.
Proof. solve_decision. Defined.

Record ReMatch : Type := {
  m_start : nat;
  m_end : nat;
  group0 : string
}.

Class ReEngine : Type := {
  Pattern : Type;
  re_compile : string → list RegexFlag → outcome Pattern;
  re_search : Pattern → string → option ReMatch;
  re_finditer : Pattern → string → list ReMatch
}.

(** Builtins whose result depends on values the model keeps opaque:
    [json.dumps(v, indent=2, sort_keys=True)] and [str(v)] for a value
    that is not a [str]. *)
Class Builtins : Type := {
  json_dumps : Any → outcome string;
  object_str : Any → string
}.

(** [commit.hexsha] is all the module reads of a commit. *)
Record Commit : Type := { hexsha : string }.

(** The file system, the clock and GitPython.  Each operation takes the
    world and returns what the call returned or raised together with
    the world it left behind.  [is_dirty] takes its keyword arguments
    [index], [working_tree] and [untracked_files] in this order. *)
Class Backend : Type := {
  World : Type;
  Repo : Type;
  gitpython_installed : bool;
  Repo_open : string → World → outcome Repo * World;
  active_branch_name : Repo → World → outcome string * World;
  git_checkout : Repo → string → World → outcome () * World;
  working_tree_dir : Repo → option string;
  mkdir : string → World → outcome () * World;
  write_text : string → string → World → outcome () * World;
  index_add : Repo → list string → World → outcome () * World;
  is_dirty : Repo → bool → bool → bool → World → outcome bool * World;
  index_commit : Repo → string → World → outcome Commit * World;
  utcnow_isoformat : World → string
}.

(** Computations over the world that may raise. *)
Definition M `{Backend} (A : Type) : Type := World → outcome A * World.

Definition ret `{Backend} {A : Type} (x : A) : M A := λ w, (Returned x, w).

Definition raise `{Backend} {A : Type} (e : exn) : M A := λ w, (Raised e, w).

(** A call that does not touch the world. *)
Definition lift `{Backend} {A : Type} (o : outcome A) : M A :=
  match o with Returned x => ret x | Raised e => raise e end.

Definition bind `{Backend} {A B : Type} (m : M A) (k : A → M B) : M B :=
  λ w, match m w with
       | (Returned x, w') => k x w'
       | (Raised e, w') => (Raised e, w')
       end.

(** [try: body except cls as exc: handler], for the exceptions [catches]
    accepts. *)
Definition try_except `{Backend} {A : Type} (body : M A)
    (catches : exn → bool) (handler : exn → M A) : M A :=
  λ w, match body w with
       | (Raised e, w') => if catches e then handler e w' else (Raised e, w')
       | r => r
       end.

Notation "x <- m ;; k" := (bind m (λ x, k))
  (at level 100, m at next level, right associativity).

Definition is_GitCommandError (e : exn) : bool :=
  match e with GitCommandError _ => true | _ => false end.

Definition is_repo_missing (e : exn) : bool :=
  match e with
  | InvalidGitRepositoryError _ | NoSuchPathError _ => true
  | _ => false
  end.

(** [str(v)] *)
Definition str `{Builtins} (v : Any) : string :=
  match v with
  | PyStr s => s
  | PyNone => "None"
  | _ => object_str v
  end.

(** *** Paths

    [pathlib.PurePosixPath]: [Path(s)] keeps the root of [s] and its
    components, [p / q] appends the components of [q] unless [q] has a
    root of its own, and [relative_to] compares roots and components.
    The tools pass paths on as values; here a path travels as its
    [str], which [Path] reads back to the same path (lemma
    [Path_path_str]). *)

(** [s.split("/")] *)
Fixpoint split_from (cur s : string) : list string :=
  match s with
  | EmptyString => [cur]
  | String c rest =>
      if bool_decide (c = "/"%char) then cur :: split_from "" rest
      else split_from (cur +:+ String c "") rest
  end.

Definition split_slash (s : string) : list string := split_from "" s.

(** A [pathlib.PurePosixPath]: its root ([""], ["/"] or ["//"]) and its
    parts after the root. *)
Record PurePath : Type := {
  p_root : string;
  p_parts : list string
}.

(** The root [pathlib] reads off a string: exactly two leading
    slashes are kept, any other number of them is one. *)
Definition path_root (s : string) : string :=
  if startswith s "///" then "/"
  else if startswith s "//" then "//"
  else if startswith s "/" then "/"
  else "".

(** The parts: the components between slashes, without the empty
    ones and without [.]. *)
Definition path_parts (s : string) : list string :=
  filter (λ x, x ≠ "" ∧ x ≠ ".") (split_slash s).

(** [Path(s)] *)
Definition Path (s : string) : PurePath :=
  {| p_root := path_root s; p_parts := path_parts s |}.

(** [p / q]: a [q] with a root replaces [p]. *)
Definition joinpath (p : PurePath) (q : string) : PurePath :=
  if bool_decide (path_root q = "") then
    {| p_root := p_root p; p_parts := p_parts p ++ path_parts q |}
  else Path q.

(** [str(p)] *)
Definition path_str (p : PurePath) : string :=
  match p_parts p with
  | [] => if bool_decide (p_root p = "") then "." else p_root p
  | parts => p_root p +:+ join "/" parts
  end.

(** [str(Path(p) / q)] *)
Definition path_join (p q : string) : string := path_str (joinpath (Path p) q).

(** [str(Path(path).relative_to(base))]: the rest of [path] below
    [base], a [ValueError] when the roots differ or the parts of [base]
    do not begin those of [path]. *)
Definition relative_to (path base : string) : outcome string :=
  let p := Path path in
  let o := Path base in
  if bool_decide (p_root p = p_root o) &&
     bool_decide (take (length (p_parts o)) (p_parts p) = p_parts o)
  then Returned (path_str {| p_root := "";
                             p_parts := drop (length (p_parts o)) (p_parts p) |})
  else Raised (ValueError "not in the subpath").

(* ================================================================= *)
(** ** [VersionControlTool] *)

Section VersionControl.
Context `{Backend}.

Record VersionControlTool : Type := {
  _repo_path : string;
  _branch : option string;
  _repo : option Repo
}.

(** The truth value of [self._branch]. *)
Definition branch_set (branch : option string) : option string :=
  match branch with
  | Some "" | None => None
  | Some br => Some br
  end.

(** [_try_load_repo] *)
Definition _try_load_repo (repo_path : string) (branch : option string)
    : M (option Repo) :=
  if negb gitpython_installed then ret None
  else
    try_except
      (repo <- Repo_open repo_path ;;
       match branch_set branch with
       | None => ret (Some repo)
       | Some br =>
           name <- active_branch_name repo ;;
           if bool_decide (name ≠ br) then
             _ <- try_except (git_checkout repo br) is_GitCommandError
                    (λ _, ret ()) ;;
             ret (Some repo)
           else ret (Some repo)
       end)
      is_repo_missing (λ _, ret None).

(** [VersionControlTool(repo_path, branch)] *)
Definition VersionControlTool_init (repo_path : string)
    (branch : option string) : M VersionControlTool :=
  let path := path_str (Path repo_path) in
  repo <- _try_load_repo path branch ;;
  ret {| _repo_path := path; _branch := branch; _repo := repo |}.

(** The staging and commit steps inside [try:] in [commit_config]. *)
Definition stage_and_commit (repo : Repo) (rel_path commit_message : string)
    : M (option string) :=
  _ <- index_add repo [rel_path] ;;
  dirty <- is_dirty repo true false true ;;
  if dirty : bool then
    commit <- index_commit repo commit_message ;;
    ret (Some (hexsha commit))
  else ret None.

(** [config_dir / f"{device}.cfg"] with [config_dir = repo_path / "configs"] *)
Definition snapshot_path (repo_path device : string) : string :=
  path_join (path_join repo_path "configs") (device +:+ ".cfg").

(** [str(file_path.relative_to(wt)) if wt else str(file_path)] for
    [wt = repo.working_tree_dir] *)
Definition rel_path_of (repo : Repo) (file_path : string) : outcome string :=
  match working_tree_dir repo with
  | None | Some "" => Returned file_path
  | Some wt => relative_to file_path wt
  end.

(** [commit_config(device, config_content, commit_message)] *)
Definition commit_config (self : VersionControlTool)
    (device config_content commit_message : string) : M ToolOutput :=
  let config_dir := path_join (_repo_path self) "configs" in
  _ <- mkdir config_dir ;;
  let file_path := path_join config_dir (device +:+ ".cfg") in
  _ <- write_text file_path config_content ;;
  commit_hash <-
    match _repo self with
    | None => ret None
    | Some repo =>
        rel_path <- lift (rel_path_of repo file_path) ;;
        try_except (stage_and_commit repo rel_path commit_message)
          is_GitCommandError (λ _, ret None)
    end ;;
  ret (ToolOutput_.ok
         (PyBackupResult {| cbr_device := device; cbr_path := file_path;
                            cbr_commit_hash := commit_hash |})).

End VersionControl.

(* ================================================================= *)
(** ** A working repository

    What the statements about successive commits take for granted of
    the file system and of GitPython, for one repository, one snapshot
    file [file_path] in the directory [config_dir], and the path
    [rel_path] of that file below the working tree.  The observations
    are the staged content ([repo.index]), the tree of [HEAD] (empty
    before the first commit), [repo.untracked_files] as a set (files
    of the working tree that the index does not hold and that no
    ignore rule excludes) and the content of the snapshot file.  In a
    world that is [working], [mkdir] makes the directory ([prepared]),
    [write_text] writes the file, [index.add] stages what the file
    holds, [is_dirty(index=True, working_tree=False,
    untracked_files=True)] tells whether the index differs from [HEAD]
    or an untracked file exists, and [index.commit] makes the index
    the tree of [HEAD]; none of them raises. *)
Class WorkingRepository `{Backend} (repo : Repo)
    (config_dir file_path rel_path : string) : Type := {
  working : World → Prop;
  prepared : World → Prop;
  staged : World → gmap string string;
  committed : World → gmap string string;
  untracked_files : World → gset string;
  snapshot : World → option string;
  mkdir_works w :
    working w →
    ∃ w', mkdir config_dir w = (Returned (), w') ∧ prepared w' ∧
          staged w' = staged w ∧ committed w' = committed w ∧
          untracked_files w' = untracked_files w;
  write_works w content :
    prepared w →
    ∃ w', write_text file_path content w = (Returned (), w') ∧ working w' ∧
          snapshot w' = Some content ∧
          staged w' = staged w ∧ committed w' = committed w ∧
          (is_Some (staged w !! rel_path) →
           untracked_files w' = untracked_files w);
  add_works w content :
    working w → snapshot w = Some content →
    ∃ w', index_add repo [rel_path] w = (Returned (), w') ∧ working w' ∧
          snapshot w' = Some content ∧
          staged w' = <[rel_path := content]> (staged w) ∧
          committed w' = committed w ∧
          untracked_files w' = untracked_files w ∖ {[ rel_path ]};
  is_dirty_works w :
    working w →
    is_dirty repo true false true w
    = (Returned (bool_decide (staged w ≠ committed w) ||
                 bool_decide (untracked_files w ≠ ∅)), w);
  commit_works w message :
    working w →
    ∃ c w', index_commit repo message w = (Returned c, w') ∧ working w' ∧
            snapshot w' = snapshot w ∧
            staged w' = staged w ∧ committed w' = staged w ∧
            untracked_files w' = untracked_files w;
  untracked_not_staged w r :
    working w → r ∈ untracked_files w → staged w !! r = None
}.

(* ================================================================= *)
(** ** [ConfigBackupTool] *)

Section ConfigBackup.
Context `{Backend} `{Builtins}.

Record ConfigBackupTool : Type := {
  _config_fetcher : string → outcome Fetched;
  _version_control : VersionControlTool;
  _serializer : option (Any → outcome string)
}.

(** [backup_config(device)].  The first component of the inner sum is
    an early [return]. *)
Definition backup_config (self : ConfigBackupTool) (device : string)
    : M ToolOutput :=
  fetched <- lift (_config_fetcher self device) ;;
  let config_content :=
    match fetched with
    | FetchedOutput t => if negb (success t) then inl t else inr (data t)
    | FetchedValue v => inr v
    end in
  match config_content with
  | inl t => ret t
  | inr PyNone =>
      ret (ToolOutput_.fail "No configuration content returned" None
             (Some {[ "device" := PyStr device ]}))
  | inr content =>
      text <-
        match content with
        | PyStr s => ret s
        | _ =>
            match _serializer self with
            | None => lift (json_dumps content)
            | Some serializer => lift (serializer content)
            end
        end ;;
      now <- (λ w, (Returned (utcnow_isoformat w), w)) ;;
      let commit_message :=
        "AUTOBACKUP: Configuration backup for " +:+ device +:+ " @ " +:+
        now +:+ "Z" in
      commit_config (_version_control self) device text commit_message
  end.

End ConfigBackup.

(* ================================================================= *)
(** ** [ConfigDriftDetectionTool] *)

Section ConfigDrift.
Context `{ReEngine} `{Builtins}.

Record ConfigDriftDetectionTool : Type := {
  _running_fetcher : string → outcome Fetched;
  _baseline_loader : string → outcome Fetched;
  _ignore_patterns : list Pattern
}.

(** [[re.compile(pat) for pat in ignore_patterns or []]] *)
Fixpoint compile_all (pats : list string) : outcome (list Pattern) :=
  match pats with
  | [] => Returned []
  | pat :: rest =>
      match re_compile pat [] with
      | Raised e => Raised e
      | Returned p =>
          match compile_all rest with
          | Raised e => Raised e
          | Returned ps => Returned (p :: ps)
          end
      end
  end.

(** [ConfigDriftDetectionTool(running_config_fetcher, baseline_loader,
    ignore_patterns)] *)
Definition ConfigDriftDetectionTool_init
    (running_config_fetcher baseline_loader : string → outcome Fetched)
    (ignore_patterns : option (list string))
    : outcome ConfigDriftDetectionTool :=
  match compile_all (default [] ignore_patterns) with
  | Raised e => Raised e
  | Returned ps =>
      Returned {| _running_fetcher := running_config_fetcher;
                  _baseline_loader := baseline_loader;
                  _ignore_patterns := ps |}
  end.

(** [_resolve(value, label)] *)
Definition _resolve (value : Fetched) (label : string) : ToolOutput :=
  match value with
  | FetchedOutput t => t
  | FetchedValue PyNone =>
      ToolOutput_.fail (label +:+ " not available") None None
  | FetchedValue v => ToolOutput_.ok v
  end.

(** [any(pattern.search(line) for pattern in self._ignore_patterns)] *)
Definition ignored (self : ConfigDriftDetectionTool) (line : string) : bool :=
  existsb (λ p, bool_decide (is_Some (re_search p line)))
    (_ignore_patterns self).

(** The loop of [_filter_lines]. *)
Fixpoint filter_loop (self : ConfigDriftDetectionTool) (lines : list string)
    (filtered : list string) : list string :=
  match lines with
  | [] => filtered
  | line :: rest =>
      if ignored self line then filter_loop self rest filtered
      else filter_loop self rest (filtered ++ [line])
  end.

(** [_filter_lines(lines)] *)
Definition _filter_lines (self : ConfigDriftDetectionTool)
    (lines : list string) : list string :=
  match _ignore_patterns self with
  | [] => lines
  | _ => filter_loop self lines []
  end.

(** [line.startswith(('+', '-')) and not line.startswith(('+++', '---'))] *)
Definition counts_as_change (line : string) : bool :=
  startswith_any line ["+"; "-"] && negb (startswith_any line ["+++"; "---"]).

(** [detect_drift(device)] *)
Definition detect_drift (self : ConfigDriftDetectionTool) (device : string)
    : outcome ToolOutput :=
  match _running_fetcher self device with
  | Raised e => Raised e
  | Returned fetched_running =>
      let running := _resolve fetched_running "running_config" in
      if negb (success running) then Returned running
      else
        match _baseline_loader self device with
        | Raised e => Raised e
        | Returned fetched_baseline =>
            let baseline := _resolve fetched_baseline "baseline_config" in
            if negb (success baseline) then Returned baseline
            else
              let running_lines :=
                _filter_lines self (splitlines (str (data running))) in
              let baseline_lines :=
                _filter_lines self (splitlines (str (data baseline))) in
              let diff_lines :=
                Difflib.unified_diff baseline_lines running_lines
                  "baseline" "running" 3 "" in
              let is_drifted := existsb counts_as_change diff_lines in
              Returned
                (ToolOutput_.ok
                   (PyDriftOutput
                      {| device := device;
                         is_drifted := is_drifted;
                         diff := if is_drifted
                                 then Some (join (String (ascii_of_nat 10) "")
                                              diff_lines)
                                 else None |}))
        end
  end.

End ConfigDrift.

(* ================================================================= *)
(** ** [ComplianceAuditTool] *)

Section ComplianceAudit.
Context `{ReEngine}.

Record ComplianceAuditTool : Type := {
  _policy_rules : gmap string (list ComplianceRule);
  _rule_loader : option (string → outcome (list ComplianceRule))
}.

(** [ComplianceAuditTool(policy_rules, rule_loader)] *)
Definition ComplianceAuditTool_init
    (policy_rules : option (gmap string (list ComplianceRule)))
    (rule_loader : option (string → outcome (list ComplianceRule)))
    : ComplianceAuditTool :=
  {| _policy_rules := default ∅ policy_rules; _rule_loader := rule_loader |}.

Definition missing_required (rule : ComplianceRule) : ComplianceViolation :=
  {| v_rule_id := rule_id rule;
     rule_description := description rule;
     violating_line := None;
     violation_type := "missing_required" |}.

Definition found_forbidden (rule : ComplianceRule) (m : ReMatch)
    : ComplianceViolation :=
  {| v_rule_id := rule_id rule;
     rule_description := description rule;
     violating_line := Some (group0 m);
     violation_type := "found_forbidden" |}.

(** The [if]/[elif] of the loop body: what one rule appends, given
    [matches = list(pattern.finditer(config_content))]. *)
Definition rule_violations (rule : ComplianceRule) (matches : list ReMatch)
    : list ComplianceViolation :=
  if bool_decide (mode rule = "required") && bool_decide (matches = [])
  then [missing_required rule]
  else if bool_decide (mode rule = "forbidden") && bool_decide (matches ≠ [])
  then found_forbidden rule <$> matches
  else [].

(** The loop [for rule in rules] over the accumulator [violations]. *)
Fixpoint audit_loop (config_content : string) (rules : list ComplianceRule)
    (violations : list ComplianceViolation)
    : outcome (list ComplianceViolation) :=
  match rules with
  | [] => Returned violations
  | rule :: rest =>
      match re_compile (pattern rule) [MULTILINE] with
      | Raised e => Raised e
      | Returned pat =>
          let matches := re_finditer pat config_content in
          audit_loop config_content rest
            (violations ++ rule_violations rule matches)
      end
  end.

(** Rule resolution: the registered rules, else the loader's, then
    the extra rules.  [inl] is the early [return] after a loader
    failure. *)
Definition resolve_rules (self : ComplianceAuditTool) (policy_name : string)
    (extra_rules : option (list ComplianceRule))
    : ToolOutput + list ComplianceRule :=
  let rules := default [] (_policy_rules self !! policy_name) in
  let loaded :=
    match rules, _rule_loader self with
    | [], Some rule_loader =>
        match rule_loader policy_name with
        | Returned more => inr (rules ++ more)
        | Raised _ =>
            inl (ToolOutput_.fail "Failed to load compliance rules" None
                   (Some {[ "policy" := PyStr policy_name ]}))
        end
    | _, _ => inr rules
    end in
  match loaded with
  | inl t => inl t
  | inr rules =>
      match extra_rules with
      | Some (r :: more) => inr (rules ++ r :: more)
      | _ => inr rules
      end
  end.

(** [audit_config(config_content, policy_name, extra_rules)] *)
Definition audit_config (self : ComplianceAuditTool)
    (config_content policy_name : string)
    (extra_rules : option (list ComplianceRule)) : outcome ToolOutput :=
  match resolve_rules self policy_name extra_rules with
  | inl t => Returned t
  | inr [] =>
      Returned (ToolOutput_.fail "No compliance rules defined" None
                  (Some {[ "policy" := PyStr policy_name ]}))
  | inr rules =>
      match audit_loop config_content rules [] with
      | Raised e => Raised e
      | Returned violations =>
          Returned
            (ToolOutput_.ok
               (PyReport {| policy_name := policy_name;
                            is_compliant := bool_decide (violations = []);
                            violations := violations |}))
      end
  end.

End ComplianceAudit.

(* ================================================================= *)
(** ** A regular-expression engine for a fragment of the pattern language

    [MiniRe] implements [ReEngine] for patterns made of literal
    characters, [.], [^] and [$].  Any other metacharacter is outside
    the fragment and is refused at compile time.  In the fragment a
    match at a position has one possible length, so scanning from left
    to right and resuming after each match yields the non-overlapping
    matches in the order [finditer] gives them; after an empty match
    the scan moves on by one character. *)

Module MiniRe.

Inductive atom : Type :=
  | Lit (c : ascii)
  | AnyChar
  | Bol
  | Eol.

Record compiled : Type := { atoms : list atom; multiline : bool }.

Definition newline : ascii := ascii_of_nat 10.

Definition is_meta (c : ascii) : bool :=
  existsb (λ m, bool_decide (c = m))
    (String.list_ascii_of_string "*+?()[]{}|\").

Fixpoint parse (pat : string) : option (list atom) :=
  match pat with
  | EmptyString => Some []
  | String c rest =>
      if is_meta c then None
      else
        let a := if bool_decide (c = "^"%char) then Bol
                 else if bool_decide (c = "$"%char) then Eol
                 else if bool_decide (c = "."%char) then AnyChar
                 else Lit c in
        (a ::.) <$> parse rest
  end.

Definition compile (pat : string) (flags : list RegexFlag)
    : outcome compiled :=
  match parse pat with
  | Some ats =>
      Returned {| atoms := ats;
                  multiline := bool_decide (MULTILINE ∈ flags) |}
  | None => Raised (ReError "pattern outside the fragment")
  end.

(** [^]: at the start of the text; in multi-line mode also right
    after a newline.  [prev] is the character before the position. *)
Definition at_bol (ml : bool) (prev : option ascii) : bool :=
  match prev with
  | None => true
  | Some c => ml && bool_decide (c = newline)
  end.

(** [$]: at the end of the text or before a newline that ends it; in
    multi-line mode before any newline. *)
Definition at_eol (ml : bool) (text : string) : bool :=
  match text with
  | EmptyString => true
  | String c rest =>
      bool_decide (c = newline) && (ml || bool_decide (rest = ""))
  end.

(** The text matched by [ats] at the position whose previous
    character is [prev] and whose rest is [text]. *)
Fixpoint match_here (ml : bool) (ats : list atom) (prev : option ascii)
    (text : string) : option string :=
  match ats with
  | [] => Some ""
  | Bol :: ats' =>
      if at_bol ml prev then match_here ml ats' prev text else None
  | Eol :: ats' =>
      if at_eol ml text then match_here ml ats' prev text else None
  | Lit c :: ats' =>
      match text with
      | String c' text' =>
          if bool_decide (c = c')
          then String c' <$> match_here ml ats' (Some c') text'
          else None
      | EmptyString => None
      end
  | AnyChar :: ats' =>
      match text with
      | String c' text' =>
          if bool_decide (c' = newline) then None
          else String c' <$> match_here ml ats' (Some c') text'
      | EmptyString => None
      end
  end.

Definition match_at (p : compiled) (pos : nat) (prev : option ascii)
    (text : string) : option ReMatch :=
  (λ g, {| m_start := pos; m_end := pos + String.length g; group0 := g |})
    <$> match_here (multiline p) (atoms p) prev text.

(** The scan of [finditer] from position [pos]; [skip] characters are
    still covered by the previous match. *)
Fixpoint scan (p : compiled) (pos skip : nat) (prev : option ascii)
    (text : string) : list ReMatch :=
  match text with
  | EmptyString =>
      match skip, match_at p pos prev text with
      | O, Some m => [m]
      | _, _ => []
      end
  | String c rest =>
      match skip, match_at p pos prev text with
      | O, Some m =>
          m :: scan p (S pos) (String.length (group0 m) - 1) (Some c) rest
      | _, _ => scan p (S pos) (skip - 1) (Some c) rest
      end
  end.

Definition finditer (p : compiled) (text : string) : list ReMatch :=
  scan p 0 0 None text.

Definition search (p : compiled) (text : string) : option ReMatch :=
  head (finditer p text).

#[global] Instance engine : ReEngine := {
  Pattern := compiled;
  re_compile := compile;
  re_search := search;
  re_finditer := finditer
}.

End MiniRe.

(* ================================================================= *)
(** ** A model of the file system and of one Git repository

    [GitModel] implements [Backend] for a process whose working
    directory is [/], on a POSIX file system without symbolic links
    and without permissions.  The world holds the regular files and
    the directories by absolute path, the repository found at
    [repo_root] (its index, its commits, newest first, its branches,
    and the paths its ignore rules exclude), the clock, and three
    switches: a full disk, a [git] that fails, and an index that is
    locked.  A commit's [hexsha] is a name made from its position in
    the history.  [Repo(path)] follows GitPython's [expand_path] with
    no environment variables set; a repository value is the absolute
    path of its working tree. *)

Module GitModel.

Record commit_object : Type := {
  c_hexsha : string;
  c_message : string;
  c_tree : gmap string string
}.

Record world : Type := {
  files : gmap string string;
  dirs : gset string;
  repo_root : option string;
  ignored : gset string;
  git_index : gmap string string;
  history : list commit_object;
  active_branch : string;
  branches : list string;
  clock : string;
  disk_full : bool;
  git_broken : bool;
  index_locked : bool
}.

Definition set_files (f : gmap string string → gmap string string)
    (w : world) : world :=
  {| files := f (files w); dirs := dirs w; repo_root := repo_root w;
     ignored := ignored w;
     git_index := git_index w; history := history w;
     active_branch := active_branch w; branches := branches w;
     clock := clock w; disk_full := disk_full w;
     git_broken := git_broken w; index_locked := index_locked w |}.

Definition set_dirs (f : gset string → gset string) (w : world) : world :=
  {| files := files w; dirs := f (dirs w); repo_root := repo_root w;
     ignored := ignored w;
     git_index := git_index w; history := history w;
     active_branch := active_branch w; branches := branches w;
     clock := clock w; disk_full := disk_full w;
     git_broken := git_broken w; index_locked := index_locked w |}.

Definition set_index (f : gmap string string → gmap string string)
    (w : world) : world :=
  {| files := files w; dirs := dirs w; repo_root := repo_root w;
     ignored := ignored w;
     git_index := f (git_index w); history := history w;
     active_branch := active_branch w; branches := branches w;
     clock := clock w; disk_full := disk_full w;
     git_broken := git_broken w; index_locked := index_locked w |}.

Definition push_commit (c : commit_object) (w : world) : world :=
  {| files := files w; dirs := dirs w; repo_root := repo_root w;
     ignored := ignored w;
     git_index := git_index w; history := c :: history w;
     active_branch := active_branch w; branches := branches w;
     clock := clock w; disk_full := disk_full w;
     git_broken := git_broken w; index_locked := index_locked w |}.

Definition set_branch (br : string) (w : world) : world :=
  {| files := files w; dirs := dirs w; repo_root := repo_root w;
     ignored := ignored w;
     git_index := git_index w; history := history w;
     active_branch := br; branches := branches w;
     clock := clock w; disk_full := disk_full w;
     git_broken := git_broken w; index_locked := index_locked w |}.

(** *** The file system *)

(** The errors of the system calls, and their messages. *)
Inductive errno : Type := ENOENT | EEXIST | ENOTDIR | EISDIR | ENOSPC.

Definition strerror (e : errno) : string :=
  match e with
  | ENOENT => "No such file or directory"
  | EEXIST => "File exists"
  | ENOTDIR => "Not a directory"
  | EISDIR => "Is a directory"
  | ENOSPC => "No space left on device"
  end.

(** The absolute path of a place; a place is the list of the names
    that lead to it from [/], the last one first. *)
Definition key (place : list string) : string :=
  "/" +:+ join "/" (reverse place).

Definition is_dir (w : world) (place : list string) : bool :=
  bool_decide (place = []) || bool_decide (key place ∈ dirs w).

Definition is_file (w : world) (place : list string) : bool :=
  bool_decide (is_Some (files w !! key place)).

(** Path resolution: from the directory [cur], [..] leads to the
    parent and a name into the directory of that name, which has to
    exist. *)
Fixpoint walk (w : world) (cur : list string) (names : list string)
    : errno + list string :=
  match names with
  | [] => inr cur
  | name :: rest =>
      let next := if bool_decide (name = "..") then tail cur
                  else name :: cur in
      if is_dir w next then walk w next rest
      else if is_file w next then inl ENOTDIR
      else inl ENOENT
  end.

(** A path with a NUL character is refused before any system call. *)
Fixpoint has_nul (s : string) : bool :=
  match s with
  | EmptyString => false
  | String c rest => bool_decide (c = Ascii.zero) || has_nul rest
  end.

(** [os.mkdir(path)] for the path with the parts [parts]. *)
Definition os_mkdir (parts : list string) (w : world) : option errno * world :=
  match reverse parts with
  | [] => (Some EEXIST, w)
  | name :: rinit =>
      match walk w [] (reverse rinit) with
      | inl e => (Some e, w)
      | inr cur =>
          if bool_decide (name = "..") then (Some EEXIST, w)
          else if is_dir w (name :: cur) || is_file w (name :: cur)
          then (Some EEXIST, w)
          else if disk_full w then (Some ENOSPC, w)
          else (None, set_dirs (union {[ key (name :: cur) ]}) w)
      end
  end.

(** [Path.is_dir()] *)
Definition path_is_dir (w : world) (parts : list string) : bool :=
  match walk w [] parts with inr _ => true | inl _ => false end.

(** [Path.mkdir(parents=True, exist_ok=True)] for the path whose parts
    are [rparts], the last one first: when [os.mkdir] finds no parent
    the parent is made first; any other error is let through unless
    the path is a directory. *)
Fixpoint mkdir_p (rparts : list string) (w : world) : option errno * world :=
  match os_mkdir (reverse rparts) w with
  | (None, w') => (None, w')
  | (Some ENOENT, _) =>
      match rparts with
      | [] => (Some ENOENT, w)
      | _ :: rparent =>
          match mkdir_p rparent w with
          | (Some e, w') => (Some e, w')
          | (None, w') =>
              match os_mkdir (reverse rparts) w' with
              | (None, w'') => (None, w'')
              | (Some ENOENT, _) => (Some ENOENT, w')
              | (Some e, _) =>
                  if path_is_dir w' (reverse rparts) then (None, w')
                  else (Some e, w')
              end
          end
      end
  | (Some e, _) =>
      if path_is_dir w (reverse rparts) then (None, w) else (Some e, w)
  end.

(** [path.mkdir(parents=True, exist_ok=True)] *)
Definition make_dirs (path : string) (w : world) : outcome () * world :=
  if has_nul path then (Raised (ValueError "embedded null byte"), w)
  else
    match mkdir_p (reverse (path_parts path)) w with
    | (None, w') => (Returned (), w')
    | (Some e, w') => (Raised (OSError (strerror e)), w')
    end.

(** The place a path names, when the directories on the way exist and
    the path does not end in [..]. *)
Definition place_of (w : world) (path : string) : errno + list string :=
  match reverse (path_parts path) with
  | [] => inl EISDIR
  | name :: rinit =>
      match walk w [] (reverse rinit) with
      | inl e => inl e
      | inr cur =>
          if bool_decide (name = "..") then inl EISDIR
          else inr (name :: cur)
      end
  end.

(** [path.write_text(content, encoding="utf-8")] *)
Definition write (path content : string) (w : world)
    : outcome () * world :=
  if has_nul path then (Raised (ValueError "embedded null byte"), w)
  else
    match place_of w path with
    | inl e => (Raised (OSError (strerror e)), w)
    | inr place =>
        if is_dir w place then (Raised (OSError (strerror EISDIR)), w)
        else if disk_full w then (Raised (OSError (strerror ENOSPC)), w)
        else (Returned (), set_files (insert (key place) content) w)
    end.

(** The content of the regular file a path names. *)
Definition read (w : world) (path : string) : option string :=
  match place_of w path with
  | inr place => files w !! key place
  | inl _ => None
  end.

(** *** The repository *)

(** [os.path.normpath] *)
Fixpoint norm_comps (rooted : bool) (comps new_comps : list string)
    : list string :=
  match comps with
  | [] => new_comps
  | comp :: rest =>
      if bool_decide (comp = "") || bool_decide (comp = ".")
      then norm_comps rooted rest new_comps
      else if negb (bool_decide (comp = "..")) ||
              (negb rooted && bool_decide (new_comps = [])) ||
              bool_decide (last new_comps = Some "..")
      then norm_comps rooted rest (new_comps ++ [comp])
      else norm_comps rooted rest (removelast new_comps)
  end.

Definition normpath (path : string) : string :=
  let root := path_root path in
  let comps := norm_comps (negb (bool_decide (root = ""))) (split_slash path) [] in
  let s := root +:+ join "/" comps in
  if bool_decide (s = "") then "." else s.

(** [os.path.abspath] for a process whose working directory is [/]. *)
Definition abspath (path : string) : string :=
  normpath (if startswith path "/" then path else "/" +:+ path).

(** [os.path.expanduser] where the user's home directory is [/root]
    and no other user is known. *)
Definition expanduser (path : string) : string :=
  match path with
  | String c EmptyString =>
      if bool_decide (c = "~"%char) then "/root" else path
  | String c (String c2 rest) =>
      if bool_decide (c = "~"%char) && bool_decide (c2 = "/"%char)
      then "/root/" +:+ rest else path
  | _ => path
  end.

(** GitPython's [expand_path]; with no environment variable set,
    [os.path.expandvars] changes nothing. *)
Definition expand_path (path : string) : string :=
  abspath (expanduser path).

(** The absolute path of the place [path] names, for a normalised
    absolute [path]. *)
Definition physical (path : string) : string :=
  "/" +:+ join "/" (path_parts path).

(** The tree of [HEAD]; empty before the first commit. *)
Definition head_tree (w : world) : gmap string string :=
  match history w with
  | c :: _ => c_tree c
  | [] => ∅
  end.

(** The path of [file] below [root], if it lies there. *)
Definition below (root file : string) : option string :=
  match relative_to file (physical root) with
  | Returned r => Some r
  | Raised _ => None
  end.

(** [repo.untracked_files]: the files of the working tree that the
    index does not hold and that no ignore rule excludes; the
    repository's own files under [.git] do not count. *)
Definition untracked (root : string) (w : world) : list string :=
  omap (λ kv : string * string,
          match below root kv.1 with
          | Some r => if bool_decide (git_index w !! r = None) &&
                         negb (bool_decide (r ∈ ignored w)) &&
                         negb (startswith r ".git/")
                      then Some r else None
          | None => None
          end)
       (map_to_list (files w)).

(** The tracked files whose working-tree content is not the staged
    one. *)
Definition modified (root : string) (w : world) : list string :=
  omap (λ kv : string * string,
          if bool_decide (read w (root +:+ "/" +:+ kv.1) = Some kv.2)
          then None else Some kv.1)
       (map_to_list (git_index w)).

(** [Repo(path)]: the path is expanded and has to exist; it is a
    repository when it is the working tree at [repo_root]. *)
Definition open_repo (path : string) (w : world) : outcome string * world :=
  let epath := expand_path path in
  if negb (path_is_dir w (path_parts epath) ||
           bool_decide (is_Some (read w epath)))
  then (Raised (NoSuchPathError epath), w)
  else if bool_decide (repo_root w = Some (physical epath))
  then (Returned epath, w)
  else (Raised (InvalidGitRepositoryError epath), w).

Definition checkout (root br : string) (w : world) : outcome () * world :=
  if git_broken w || negb (bool_decide (br ∈ branches w))
  then (Raised (GitCommandError "checkout"), w)
  else (Returned (), set_branch br w).

(** [index.add(paths)]: stages the working-tree content of each path,
    read below the working tree; the index file is written under a
    lock, and a lock that is taken makes the call raise [OSError]. *)
Fixpoint add (root : string) (paths : list string) (w : world)
    : outcome () * world :=
  match paths with
  | [] => (Returned (), w)
  | rel :: rest =>
      if git_broken w then (Raised (GitCommandError "add"), w)
      else
        match read w (root +:+ "/" +:+ rel) with
        | None => (Raised (OSError (strerror ENOENT)), w)
        | Some content =>
            if index_locked w
            then (Raised (OSError ("Lock at '" +:+ root +:+
                                 "/.git/index.lock' could not be obtained")), w)
            else add root rest (set_index (insert rel content) w)
        end
  end.

Definition dirty (root : string) (index working_tree untracked_files : bool)
    (w : world) : outcome bool * world :=
  if git_broken w then (Raised (GitCommandError "diff"), w)
  else
    (Returned
       ((index && bool_decide (git_index w ≠ head_tree w)) ||
        (working_tree && bool_decide (modified root w ≠ [])) ||
        (untracked_files && bool_decide (untracked root w ≠ []))), w).

(** [index.commit(message)]: a commit of the index as it stands, made
    whether or not the tree differs from its parent's. *)
Definition commit (root message : string) (w : world)
    : outcome Commit * world :=
  if git_broken w then (Raised (GitCommandError "commit"), w)
  else
    let c := {| c_hexsha := "c" +:+ pretty (S (length (history w)));
                c_message := message;
                c_tree := git_index w |} in
    (Returned {| hexsha := c_hexsha c |}, push_commit c w).

Definition backend (installed : bool) : Backend := {|
  World := world;
  Repo := string;
  gitpython_installed := installed;
  Repo_open := open_repo;
  active_branch_name := λ _ w, (Returned (active_branch w), w);
  git_checkout := checkout;
  working_tree_dir := Some;
  mkdir := make_dirs;
  write_text := write;
  index_add := add;
  is_dirty := dirty;
  index_commit := commit;
  utcnow_isoformat := clock
|}.

(** Builtins for the opaque values: [str] and [json.dumps] of one give
    its name. *)
Definition builtins : Builtins := {|
  json_dumps := λ v, match v with
                     | PyObject o => Returned o
                     | _ => Raised (TypeError "not JSON serializable")
                     end;
  object_str := λ v, match v with PyObject o => o | _ => "<object>" end
|}.

End GitModel.

(* ================================================================= *)
(** ** Vocabulary of the statements *)

Section AuditVocabulary.
Context `{ReEngine}.

(** [rule]'s pattern compiles in multi-line mode. *)
Definition compiles (rule : ComplianceRule) : Prop :=
  ∃ pat, re_compile (pattern rule) [MULTILINE] = Returned pat.

(** [seg] is what the loop body appends for [rule] on [text]. *)
Definition appended_for (text : string) (rule : ComplianceRule)
    (seg : list ComplianceViolation) : Prop :=
  ∃ pat, re_compile (pattern rule) [MULTILINE] = Returned pat ∧
         seg = rule_violations rule (re_finditer pat text).

End AuditVocabulary.

(** [fetched] delivers [v]: as a bare value, or as the data of a
    successful [ToolOutput]. *)
Definition delivers (fetched : Fetched) (v : Any) : Prop :=
  fetched = FetchedValue v ∨
  ∃ t, fetched = FetchedOutput t ∧ success t = true ∧ data t = v.

(** The result of a snapshot that was written and not versioned. *)
Definition unversioned (file_path device : string) : ToolOutput :=
  ToolOutput_.ok
    (PyBackupResult {| cbr_device := device; cbr_path := file_path;
                       cbr_commit_hash := None |}).

(** The snapshot of [device], relative to the repository root. *)
Definition snapshot_rel (device : string) : string :=
  path_join "configs" (device +:+ ".cfg").

(** The tool [VersionControlTool(root)] builds when it finds a
    repository at [root]: the repository's working tree is the
    expanded, absolute path. *)
Definition tool_at (installed : bool) (root : string)
    : @VersionControlTool (GitModel.backend installed) :=
  @Build_VersionControlTool (GitModel.backend installed)
    (path_str (Path root)) None (Some (GitModel.expand_path root)).

(** The commit hash a call returned, if it returned a backup result. *)
Definition returned_hash (r : outcome ToolOutput) : option (option string) :=
  match r with
  | Returned {| success := true; data := PyBackupResult b |} =>
      Some (cbr_commit_hash b)
  | _ => None
  end.

(** The rounds the queue loop of [get_matching_blocks] still needs at
    most: every entry costs a round, and a block found in an entry
    leaves less than the entry took. *)
Definition queue_weight (queue : list (nat * nat * nat * nat)) : nat :=
  sum_list ((λ e : nat * nat * nat * nat, 2 * (e.1.1.2 - e.1.1.1) + 1) <$> queue).

(** A match lies in the rows [alo .. hi) of [a]. *)
Definition inside (alo hi : nat) (m : Difflib.Match) : Prop :=
  alo ≤ Difflib.m_i m ∧ Difflib.m_i m + Difflib.m_size m ≤ hi.

(** No run stored in [j2len] reaches back before row [alo]. *)
Definition short_runs (alo i : nat) (j2len : gmap nat nat) : Prop :=
  ∀ j v, j2len !! j = Some v → v + alo ≤ i.

(** What the statements about [SequenceMatcher] on two copies of a
    sequence [l] speak of. *)
Section MatcherVocabulary.
Variable l : list string.

(** The positions of [x] in [rest], counted from [i0]. *)
Fixpoint indices_from (i0 : nat) (x : string) (rest : list string) : list nat :=
  match rest with
  | [] => []
  | e :: rest' =>
      if decide (e = x) then i0 :: indices_from (S i0) x rest'
      else indices_from (S i0) x rest'
  end.

(** The indices the inner loop visits in row [i]. *)
Definition row (i : nat) : list nat :=
  match l !! i with
  | Some elt => default [] (Difflib.chain_b l !! elt)
  | None => []
  end.

(** [run i j]: the length of the common run of unpopular elements
    that ends just before positions [i] and [j]; the value the
    inner loop stores for row [i - 1] at [j - 1]. *)
Fixpoint run (i j : nat) : nat :=
  match i, j with
  | S i', S j' => if bool_decide (j' ∈ row i') then S (run i' j') else 0
  | _, _ => 0
  end.

(** The dictionary a row leaves: [k] at every index it visits. *)
Definition row_result (j2len : gmap nat nat) (js : list nat)
    (newj2len : gmap nat nat) : gmap nat nat :=
  foldl (λ m j, <[j := Difflib.j2lenget j2len j + 1]> m) newj2len js.

(** What the loops hold before row [i]: [j2len] holds the runs
    that end before row [i], and the best match lies on the
    diagonal, ends at or before [i], and is as long as any run of
    the rows above. *)
Definition rows_done (i : nat) (j2len : gmap nat nat) (best : Difflib.Match)
    : Prop :=
  (∀ j, Difflib.j2lenget j2len j = run i j) ∧
  ∃ d bs, best = (d, d, bs) ∧ d + bs ≤ i ∧
          ∀ i' j, i' < i → run (S i') (S j) ≤ bs.

End MatcherVocabulary.

(** An audit of [text] over exactly [rules], registered under [name]. *)
Definition audit_over `{ReEngine} (rules : list ComplianceRule)
    (text name : string) : outcome ToolOutput :=
  audit_config
    (ComplianceAuditTool_init (Some {[ name := rules ]}) None) text name None.

(** [rule] is satisfied by [text]: its pattern compiles, a required
    pattern has a match and a forbidden one has none. *)
Definition satisfied `{ReEngine} (text : string) (rule : ComplianceRule)
    : Prop :=
  ∃ pat, re_compile (pattern rule) [MULTILINE] = Returned pat ∧
         (mode rule = "required" → re_finditer pat text ≠ []) ∧
         (mode rule = "forbidden" → re_finditer pat text = []).

(** The two failures [audit_config] returns. *)
Definition audit_failure (msg name : string) : ToolOutput :=
  ToolOutput_.fail msg None (Some {[ "policy" := PyStr name ]}).

(** The commit message [backup_config] generates at time [now]. *)
Definition backup_message (device now : string) : string :=
  "AUTOBACKUP: Configuration backup for " +:+ device +:+ " @ " +:+ now +:+ "Z".

(** A value [backup_config] has to serialize: neither [None] nor a
    [str]. *)
Definition structured (v : Any) : Prop :=
  v ≠ PyNone ∧ ∀ s, v ≠ PyStr s.

(** The result of a snapshot that was written and committed. *)
Definition versioned (file_path device commit_hash : string) : ToolOutput :=
  ToolOutput_.ok
    (PyBackupResult {| cbr_device := device; cbr_path := file_path;
                       cbr_commit_hash := Some commit_hash |}).

(** What the statements about [SequenceMatcher] on any two sequences
    speak of. *)
Section BlockVocabulary.
Variables a b : list string.

(** A block lies inside both sequences and pairs equal elements. *)
Definition true_match (m : Difflib.Match) : Prop :=
  let '(i, j, k) := m in
  i + k ≤ length a ∧ j + k ≤ length b ∧
  ∀ t, t < k → a !! (i + t) = b !! (j + t).

(** A block lies in the window [alo, ahi) x [blo, bhi). *)
Definition within (alo ahi blo bhi : nat) (m : Difflib.Match) : Prop :=
  let '(i, j, k) := m in
  alo ≤ i ∧ i + k ≤ ahi ∧ blo ≤ j ∧ j + k ≤ bhi.

(** The runs a row leaves in [j2len], for the rows before [i]: each
    is a run of equal elements that ends at row [i - 1] and at its
    key, and starts inside the window. *)
Definition true_runs (alo blo i : nat) (j2len : gmap nat nat) : Prop :=
  ∀ j v, j2len !! j = Some v →
    v + alo ≤ i ∧ v + blo ≤ S j ∧
    ∀ t, t < v → a !! (i - 1 - t) = b !! (j - t).

(** [b2j] lists, for an element, positions of [b] that hold it. *)
Definition rows_of_b (b2j : gmap string (list nat)) : Prop :=
  ∀ elt j, j ∈ default [] (b2j !! elt) → b !! j = Some elt.

(** A window of the queue lies inside the sequences. *)
Definition window_ok (e : nat * nat * nat * nat) : Prop :=
  let '(alo, ahi, blo, bhi) := e in
  alo ≤ ahi ∧ ahi ≤ length a ∧ blo ≤ bhi ∧ bhi ≤ length b.

(** [blocks] advance from [(i, j)]: each is a true match that starts
    at or after the end of the one before, in both sequences. *)
Fixpoint advance (i j : nat) (blocks : list Difflib.Match) : Prop :=
  match blocks with
  | [] => True
  | (ai, bj, size) :: rest =>
      i ≤ ai ∧ j ≤ bj ∧ true_match (ai, bj, size) ∧
      advance (ai + size) (bj + size) rest
  end.

(** An opcode that reports a change: it is not ['equal'] and takes a
    range that is not empty, of [a] when it deletes or replaces and of
    [b] when it inserts. *)
Definition changes (c : Difflib.opcode) : Prop :=
  let '(t, i1, i2, j1, j2) := c in
  match t with
  | Difflib.replace | Difflib.delete => i1 < i2 ∧ i2 ≤ length a
  | Difflib.insert => j1 < j2 ∧ j2 ≤ length b
  | Difflib.equal => False
  end.

End BlockVocabulary.

(** The window a block takes. *)
Definition window_of (m : Difflib.Match) : nat * nat * nat * nat :=
  let '(i, j, k) := m in (i, i + k, j, j + k).

(** Two windows, one wholly before the other in both sequences. *)
Definition apart (x y : nat * nat * nat * nat) : Prop :=
  let '(alo, ahi, blo, bhi) := x in
  let '(alo', ahi', blo', bhi') := y in
  (ahi ≤ alo' ∧ bhi ≤ blo') ∨ (ahi' ≤ alo ∧ bhi' ≤ blo).

Fixpoint all_apart (l : list (nat * nat * nat * nat)) : Prop :=
  match l with
  | [] => True
  | x :: rest => Forall (apart x) rest ∧ all_apart rest
  end.

Definition op_tag (c : Difflib.opcode) : Difflib.tag := c.1.1.1.1.

#[global] Instance changes_dec a b c : Decision (changes a b c).
Proof. destruct c as [[[[[] ?] ?] ?] ?]; simpl; apply _. Defined.

(** A line of text: it holds no line boundary. *)
Fixpoint plain_line (line : string) : bool :=
  match line with
  | EmptyString => true
  | String c rest => negb (is_line_boundary c) && plain_line rest
  end.

(** What [str.splitlines] takes as the end of a line: one boundary
    character, or CR LF. *)
Definition line_terminator (sep : string) : Prop :=
  sep = String (ascii_of_nat 13) (String (ascii_of_nat 10) "") ∨
  ∃ c, is_line_boundary c = true ∧ sep = String c "".

(** [lines], each followed by [sep]. *)
Fixpoint terminated (sep : string) (lines : list string) : string :=
  match lines with
  | [] => ""
  | line :: rest => line +:+ sep +:+ terminated sep rest
  end.

(** [text] writes [lines] with some line terminator, after the last
    line too, or between the lines only when the last line is not
    empty. *)
Definition writes (text : string) (lines : list string) : Prop :=
  ∃ sep, line_terminator sep ∧
         (text = terminated sep lines ∨
          (text = join sep lines ∧ last lines ≠ Some "")).



(* ================================================================= *)
(** ** Worked inputs

    Concrete tools and worlds over [MiniRe] and [GitModel], used to run
    the definitions. *)

Module Demo.

Definition nl : string := String (ascii_of_nat 10) "".

(** A fetcher or loader that hands over [lines] as one text. *)
Definition gives (lines : list string) : string → outcome Fetched :=
  λ _, Returned (FetchedValue (PyStr (join nl lines))).

(** [ConfigDriftDetectionTool(gives running, gives baseline, ignore)]
    over [MiniRe]; without ignore patterns if one does not compile. *)
Definition drift_tool (running baseline ignore : list string)
    : @ConfigDriftDetectionTool MiniRe.engine :=
  match @ConfigDriftDetectionTool_init MiniRe.engine
          (gives running) (gives baseline) (Some ignore) with
  | Returned tool => tool
  | Raised _ =>
      @Build_ConfigDriftDetectionTool MiniRe.engine
        (gives running) (gives baseline) []
  end.

Definition rule_http : ComplianceRule :=
  {| rule_id := "R1"; description := "HTTP server off";
     pattern := "^no ip http server$"; mode := "required" |}.

Definition rule_telnet : ComplianceRule :=
  {| rule_id := "R2"; description := "no telnet";
     pattern := "telnet"; mode := "forbidden" |}.

Definition rule_advice : ComplianceRule :=
  {| rule_id := "R3"; description := "banner advised";
     pattern := "^banner"; mode := "recommended" |}.

(** [ComplianceAuditTool(policy_rules={"base": ..., "advice": ...})] *)
Definition auditor : ComplianceAuditTool :=
  ComplianceAuditTool_init
    (Some {[ "base" := [rule_http; rule_telnet];
             "advice" := [rule_advice] ]})
    None.

Definition telnet_config : string :=
  join nl ["hostname R1"; "line vty 0 4"; " transport input telnet";
           "telnet enable"].

(** A repository at [/repo] with no commit yet and the given files;
    [/repo] is the only directory. *)
Definition world_with (fs : gmap string string) (broken : bool)
    : GitModel.world :=
  {| GitModel.files := fs;
     GitModel.dirs := {[ "/repo" ]};
     GitModel.repo_root := Some "/repo";
     GitModel.ignored := ∅;
     GitModel.git_index := ∅;
     GitModel.history := [];
     GitModel.active_branch := "main";
     GitModel.branches := ["main"];
     GitModel.clock := "2024-05-01T12:00:00";
     GitModel.disk_full := false;
     GitModel.git_broken := broken;
     GitModel.index_locked := false |}.

Definition empty_repo : GitModel.world := world_with ∅ false.

Definition broken_repo : GitModel.world := world_with ∅ true.

(** The same repository with a file nobody added. *)
Definition repo_with_readme : GitModel.world :=
  world_with {[ "/repo/README" := "lab configs" ]} false.

(** The same repository when an ignore rule excludes the file. *)
Definition repo_with_ignored_readme : GitModel.world :=
  {| GitModel.files := {[ "/repo/README" := "lab configs" ]};
     GitModel.dirs := {[ "/repo" ]};
     GitModel.repo_root := Some "/repo";
     GitModel.ignored := {[ "README" ]};
     GitModel.git_index := ∅;
     GitModel.history := [];
     GitModel.active_branch := "main";
     GitModel.branches := ["main"];
     GitModel.clock := "2024-05-01T12:00:00";
     GitModel.disk_full := false;
     GitModel.git_broken := false;
     GitModel.index_locked := false |}.

(** The report of [auditor] on [telnet_config] under policy [base]. *)
Definition telnet_report : ComplianceReport :=
  {| policy_name := "base";
     is_compliant := false;
     violations :=
       [ {| v_rule_id := "R1"; rule_description := "HTTP server off";
            violating_line := None; violation_type := "missing_required" |};
         {| v_rule_id := "R2"; rule_description := "no telnet";
            violating_line := Some "telnet";
            violation_type := "found_forbidden" |};
         {| v_rule_id := "R2"; rule_description := "no telnet";
            violating_line := Some "telnet";
            violation_type := "found_forbidden" |} ] |}.

(** [ConfigBackupTool(fetcher, VersionControlTool("/repo"))] *)
Definition backup_tool (fetcher : string → outcome Fetched)
    : @ConfigBackupTool (GitModel.backend true) :=
  @Build_ConfigBackupTool (GitModel.backend true) fetcher
    (tool_at true "/repo") None.


(** [ComplianceAuditTool(rule_loader=...)] with a loader that cannot
    read its source. *)
Definition auditor_without_source : ComplianceAuditTool :=
  ComplianceAuditTool_init None
    (Some (λ _, Raised (OSError "rules.yaml"))).

(** The reports over [rule_http] alone and over [rule_telnet] alone
    on [telnet_config]. *)
Definition http_report : ComplianceReport :=
  {| policy_name := "base";
     is_compliant := false;
     violations :=
       [ {| v_rule_id := "R1"; rule_description := "HTTP server off";
            violating_line := None; violation_type := "missing_required" |} ] |}.

Definition telnet_only_report : ComplianceReport :=
  {| policy_name := "base";
     is_compliant := false;
     violations :=
       [ {| v_rule_id := "R2"; rule_description := "no telnet";
            violating_line := Some "telnet";
            violation_type := "found_forbidden" |};
         {| v_rule_id := "R2"; rule_description := "no telnet";
            violating_line := Some "telnet";
            violation_type := "found_forbidden" |} ] |}.

(** A rule whose pattern is not a regular expression. *)
Definition rule_typo : ComplianceRule :=
  {| rule_id := "R9"; description := "typo"; pattern := "tel(net";
     mode := "forbidden" |}.

(** The empty repository on a disk with no space left. *)
Definition full_disk : GitModel.world :=
  {| GitModel.files := ∅;
     GitModel.dirs := {[ "/repo" ]};
     GitModel.repo_root := Some "/repo";
     GitModel.ignored := ∅;
     GitModel.git_index := ∅;
     GitModel.history := [];
     GitModel.active_branch := "main";
     GitModel.branches := ["main"];
     GitModel.clock := "2024-05-01T12:00:00";
     GitModel.disk_full := true;
     GitModel.git_broken := false;
     GitModel.index_locked := false |}.

(** The empty repository while another process holds the index
    lock. *)
Definition locked_repo : GitModel.world :=
  {| GitModel.files := ∅;
     GitModel.dirs := {[ "/repo" ]};
     GitModel.repo_root := Some "/repo";
     GitModel.ignored := ∅;
     GitModel.git_index := ∅;
     GitModel.history := [];
     GitModel.active_branch := "main";
     GitModel.branches := ["main"];
     GitModel.clock := "2024-05-01T12:00:00";
     GitModel.disk_full := false;
     GitModel.git_broken := false;
     GitModel.index_locked := true |}.

Definition crlf : string :=
  String (ascii_of_nat 13) (String (ascii_of_nat 10) "").

(** A drift tool whose sources hand over the given texts. *)
Definition text_drift_tool (running baseline : string)
    : @ConfigDriftDetectionTool MiniRe.engine :=
  @Build_ConfigDriftDetectionTool MiniRe.engine
    (λ _, Returned (FetchedValue (PyStr running)))
    (λ _, Returned (FetchedValue (PyStr baseline))) [].

(** Two lines as a DOS text, and as a UNIX text whose last line is not
    terminated. *)
Definition dos_text : string :=
  "hostname R1" +:+ crlf +:+ "ntp server 10.0.0.1" +:+ crlf.

Definition unix_text : string :=
  "hostname R1" +:+ nl +:+ "ntp server 10.0.0.1".


(** The worlds in which the snapshot of [r1] under [/repo] can be
    written and versioned: disk, [git] and index lock are in order,
    [/repo] is a directory, [/repo/configs] is not a file and
    [/repo/configs/r1.cfg] is not a directory. *)
Definition healthy (w : GitModel.world) : Prop :=
  GitModel.disk_full w = false ∧ GitModel.git_broken w = false ∧
  GitModel.index_locked w = false ∧
  GitModel.is_dir w ["repo"] = true ∧
  GitModel.is_file w ["configs"; "repo"] = false ∧
  GitModel.is_dir w ["r1.cfg"; "configs"; "repo"] = false.

(** A healthy world in which [/repo/configs] is a directory. *)
Definition laid_out (w : GitModel.world) : Prop :=
  healthy w ∧ GitModel.is_dir w ["configs"; "repo"] = true.

(** [w] once [/repo/configs] is made and the snapshot of [r1] holds
    [content]. *)
Definition written (content : string) (w : GitModel.world) : GitModel.world :=
  GitModel.set_files (insert "/repo/configs/r1.cfg" content)
    (GitModel.set_dirs (union {[ "/repo/configs" ]}) w).

End Demo.

(* ================================================================= *)
(** * Properties *)

(* ================================================================= *)
(** ** Compliance audits *)

Section AuditFacts.
Context `{ReEngine}.

Lemma audit_loop_segments text rules acc vs :
  audit_loop text rules acc = Returned vs →
  ∃ per_rule, vs = acc ++ concat per_rule ∧
              Forall2 (appended_for text) rules per_rule.
Proof.
  revert acc. induction rules as [|rule rules IH]; intros acc Hrun; simpl in Hrun.
  - exists []. simplify_eq. by rewrite app_nil_r.
  - destruct (re_compile (pattern rule) [MULTILINE]) as [pat|e] eqn:Hc; [|done].
    apply IH in Hrun as (segs & -> & Hsegs).
    exists (rule_violations rule (re_finditer pat text) :: segs). split.
    + by rewrite <- app_assoc.
    + constructor; [by exists pat | done].
Qed.

Lemma audit_loop_returns text rules acc :
  Forall compiles rules → ∃ vs, audit_loop text rules acc = Returned vs.
Proof.
  intros Hall. revert acc.
  induction Hall as [|rule rules [pat Hc] _ IH]; intros acc; simpl.
  - by eexists.
  - rewrite Hc. apply IH.
Qed.

Lemma audit_loop_unknown_modes text rules acc :
  Forall (λ rule, mode rule ≠ "required" ∧ mode rule ≠ "forbidden") rules →
  Forall compiles rules →
  audit_loop text rules acc = Returned acc.
Proof.
  intros Hmodes Hall. revert acc.
  induction rules as [|rule rules IH]; intros acc; [done|].
  apply Forall_cons in Hmodes as [[Hr Hf] Hmodes].
  apply Forall_cons in Hall as [[pat Hc] Hall]. simpl. rewrite Hc.
  unfold rule_violations.
  rewrite (bool_decide_eq_false_2 _ Hr), (bool_decide_eq_false_2 _ Hf).
  simpl. rewrite app_nil_r. by apply IH.
Qed.

Lemma audit_loop_raises text rules acc e :
  audit_loop text rules acc = Raised e → ¬ Forall compiles rules.
Proof.
  intros Hrun Hall.
  destruct (audit_loop_returns text rules acc Hall) as [vs Hvs]. congruence.
Qed.

(** An audit that hands back a report ran the loop over a non-empty
    resolved rule set and derived the flag from the violations. *)
Lemma audit_config_report self text name extra report :
  audit_config self text name extra
    = Returned (ToolOutput_.ok (PyReport report)) →
  ∃ rules, resolve_rules self name extra = inr rules ∧ rules ≠ [] ∧
           audit_loop text rules [] = Returned (violations report) ∧
           is_compliant report = bool_decide (violations report = []) ∧
           policy_name report = name.
Proof.
  unfold audit_config. intros Hrun.
  destruct (resolve_rules self name extra) as [t|[|rule rules]] eqn:Hres.
  - unfold resolve_rules in Hres.
    repeat (case_match; simplify_eq); done.
  - done.
  - destruct (audit_loop text (rule :: rules) []) as [vs|e] eqn:Hloop; [|done].
    simplify_eq. exists (rule :: rules). by repeat split.
Qed.

Lemma resolve_rules_failure self name extra t :
  resolve_rules self name extra = inl t → success t = false.
Proof.
  unfold resolve_rules. intros Hres.
  repeat (case_match; simplify_eq); done.
Qed.

Lemma rule_violations_required rule matches :
  mode rule = "required" →
  rule_violations rule matches
    = if bool_decide (matches = []) then [missing_required rule] else [].
Proof.
  intros Hm. unfold rule_violations. rewrite Hm.
  rewrite (bool_decide_eq_true_2 _ eq_refl).
  rewrite (bool_decide_eq_false_2 ("required" = "forbidden")) by done.
  simpl. by case_bool_decide.
Qed.

Lemma rule_violations_forbidden rule matches :
  mode rule = "forbidden" →
  rule_violations rule matches = found_forbidden rule <$> matches.
Proof.
  intros Hm. unfold rule_violations. rewrite Hm.
  rewrite (bool_decide_eq_false_2 ("forbidden" = "required")) by done.
  rewrite (bool_decide_eq_true_2 _ eq_refl). simpl.
  case_bool_decide as Hne; [done|].
  by subst.
Qed.

Lemma rule_violations_other rule matches :
  mode rule ≠ "required" → mode rule ≠ "forbidden" →
  rule_violations rule matches = [].
Proof.
  intros Hr Hf. unfold rule_violations.
  by rewrite (bool_decide_eq_false_2 _ Hr), (bool_decide_eq_false_2 _ Hf).
Qed.

End AuditFacts.

Section AuditClaims.
Context `{ReEngine}.

(** C2. For an audit over a resolved, non-empty rule set: when every
    pattern compiles the audit returns a report, and whatever the
    audit returns is a report whose [is_compliant] flag is true
    exactly when its list of violations is empty. *)
Theorem compliant_iff_no_violations self text name extra rules :
  resolve_rules self name extra = inr rules → rules ≠ [] →
  (Forall compiles rules →
   ∃ report, audit_config self text name extra
               = Returned (ToolOutput_.ok (PyReport report))) ∧
  (∀ t, audit_config self text name extra = Returned t →
        ∃ report, t = ToolOutput_.ok (PyReport report) ∧
                  (is_compliant report = true ↔ violations report = [])).
Proof.
  intros Hres Hne. unfold audit_config. rewrite Hres.
  destruct rules as [|rule rules]; [done|]. split.
  - intros Hall.
    destruct (audit_loop_returns text (rule :: rules) [] Hall) as [vs Hvs].
    rewrite Hvs. by eexists.
  - intros t Hrun.
    destruct (audit_loop text (rule :: rules) []) as [vs|e]; [|done].
    simplify_eq. eexists. split; [done|]. simpl.
    apply bool_decide_eq_true.
Qed.

(** C3. In a report, the violations split into one segment per
    resolved rule, in rule order, and the segment of a rule of mode
    [forbidden] holds one violation per match that [finditer] yields
    for the rule's pattern compiled in multi-line mode: same order,
    kind [found_forbidden], the matched text as violating line; so
    the segment is as long as the list of matches. *)
Theorem forbidden_one_violation_per_match self text name extra report :
  audit_config self text name extra
    = Returned (ToolOutput_.ok (PyReport report)) →
  ∃ rules per_rule,
    resolve_rules self name extra = inr rules ∧
    violations report = concat per_rule ∧
    Forall2
      (λ rule seg,
         ∃ pat, re_compile (pattern rule) [MULTILINE] = Returned pat ∧
           (mode rule = "forbidden" →
            seg = (λ m, {| v_rule_id := rule_id rule;
                           rule_description := description rule;
                           violating_line := Some (group0 m);
                           violation_type := "found_forbidden" |})
                    <$> re_finditer pat text ∧
            length seg = length (re_finditer pat text)))
      rules per_rule.
Proof.
  intros Hrun.
  apply audit_config_report in Hrun as (rules & Hres & _ & Hloop & _).
  apply audit_loop_segments in Hloop as (per_rule & Hvs & Hsegs).
  exists rules, per_rule. split; [done|]. split; [done|].
  eapply Forall2_impl; [exact Hsegs|].
  intros rule seg (pat & Hc & ->). exists pat. split; [done|].
  intros Hm. rewrite (rule_violations_forbidden _ _ Hm).
  split; [done|]. by rewrite length_fmap.
Qed.

(** C4. In a report, the segment of a rule of mode [required] is one
    violation of kind [missing_required] without a violating line
    when the rule's pattern, compiled in multi-line mode, has no
    match in the text, and is empty when it has a match; either way
    it holds at most one violation. *)
Theorem required_zero_or_one_violation self text name extra report :
  audit_config self text name extra
    = Returned (ToolOutput_.ok (PyReport report)) →
  ∃ rules per_rule,
    resolve_rules self name extra = inr rules ∧
    violations report = concat per_rule ∧
    Forall2
      (λ rule seg,
         ∃ pat, re_compile (pattern rule) [MULTILINE] = Returned pat ∧
           (mode rule = "required" →
            (re_finditer pat text = [] →
             seg = [{| v_rule_id := rule_id rule;
                       rule_description := description rule;
                       violating_line := None;
                       violation_type := "missing_required" |}]) ∧
            (re_finditer pat text ≠ [] → seg = []) ∧
            length seg ≤ 1))
      rules per_rule.
Proof.
  intros Hrun.
  apply audit_config_report in Hrun as (rules & Hres & _ & Hloop & _).
  apply audit_loop_segments in Hloop as (per_rule & Hvs & Hsegs).
  exists rules, per_rule. split; [done|]. split; [done|].
  eapply Forall2_impl; [exact Hsegs|].
  intros rule seg (pat & Hc & ->). exists pat. split; [done|].
  intros Hm. rewrite (rule_violations_required _ _ Hm).
  case_bool_decide as Hnil; repeat split; simpl; try done; lia.
Qed.

(** C5. When the policy has no registered rules, no rule loader is
    configured and no extra rules are given, the audit fails with
    the message [No compliance rules defined] and the policy name as
    detail; it returns no report. *)
Theorem no_rules_is_an_error self text name extra :
  default [] (_policy_rules self !! name) = [] →
  _rule_loader self = None →
  extra = None ∨ extra = Some [] →
  audit_config self text name extra
    = Returned (ToolOutput_.fail "No compliance rules defined" None
                  (Some {[ "policy" := PyStr name ]})).
Proof.
  intros Hreg Hload Hextra. unfold audit_config, resolve_rules.
  rewrite Hreg, Hload. by destruct Hextra as [-> | ->].
Qed.

(** C10. In a report, the segment of a rule whose mode is neither
    [required] nor [forbidden] is empty whatever its pattern
    matches; and an audit over a resolved, non-empty rule set of
    such rules whose patterns compile returns a report with no
    violation and [is_compliant] set. *)
Theorem unknown_mode_never_violates self text name extra :
  (∀ report,
     audit_config self text name extra
       = Returned (ToolOutput_.ok (PyReport report)) →
     ∃ rules per_rule,
       resolve_rules self name extra = inr rules ∧
       violations report = concat per_rule ∧
       Forall2
         (λ rule seg,
            mode rule ≠ "required" → mode rule ≠ "forbidden" → seg = [])
         rules per_rule) ∧
  (∀ rules,
     resolve_rules self name extra = inr rules → rules ≠ [] →
     Forall (λ rule, mode rule ≠ "required" ∧ mode rule ≠ "forbidden")
       rules →
     Forall compiles rules →
     audit_config self text name extra
       = Returned (ToolOutput_.ok
                     (PyReport {| policy_name := name;
                                  is_compliant := true;
                                  violations := [] |}))).
Proof.
  split.
  - intros report Hrun.
    apply audit_config_report in Hrun as (rules & Hres & _ & Hloop & _).
    apply audit_loop_segments in Hloop as (per_rule & Hvs & Hsegs).
    exists rules, per_rule. split; [done|]. split; [done|].
    eapply Forall2_impl; [exact Hsegs|].
    intros rule seg (pat & Hc & ->) Hr Hf. by apply rule_violations_other.
  - intros rules Hres Hne Hmodes Hall. unfold audit_config. rewrite Hres.
    destruct rules as [|rule rules]; [done|].
    by rewrite (audit_loop_unknown_modes _ _ [] Hmodes Hall).
Qed.

End AuditClaims.

(* ================================================================= *)
(** ** Snapshots: [commit_config] and [backup_config] *)

Ltac run_m :=
  unfold bind, ret, raise, lift, try_except in *; simpl in *.

Section SnapshotClaims.
Context `{Backend} `{Builtins}.

(** The steps of [commit_config] once the file is written. *)
Lemma commit_config_written self device content msg w w1 w2 :
  mkdir (path_join (_repo_path self) "configs") w = (Returned (), w1) →
  write_text (snapshot_path (_repo_path self) device) content w1
    = (Returned (), w2) →
  commit_config self device content msg w
  = (commit_hash <-
       match _repo self with
       | None => ret None
       | Some repo =>
           rel_path <- lift (rel_path_of repo
                               (snapshot_path (_repo_path self) device)) ;;
           try_except (stage_and_commit repo rel_path msg)
             is_GitCommandError (λ _, ret None)
       end ;;
     ret (ToolOutput_.ok
            (PyBackupResult
               {| cbr_device := device;
                  cbr_path := snapshot_path (_repo_path self) device;
                  cbr_commit_hash := commit_hash |}))) w2.
Proof.
  intros Hmk Hwr. unfold commit_config, snapshot_path in *.
  unfold bind at 1. rewrite Hmk. unfold bind at 1. by rewrite Hwr.
Qed.

(** X18. Without GitPython, or without a repository at [repo_path],
    the tool is built without a repository. *)
Lemma try_load_repo_unavailable repo_path branch w :
  (gitpython_installed = false →
   _try_load_repo repo_path branch w = (Returned None, w)) ∧
  (∀ e w', gitpython_installed = true →
           Repo_open repo_path w = (Raised e, w') →
           is_repo_missing e = true →
           _try_load_repo repo_path branch w = (Returned None, w')).
Proof.
  unfold _try_load_repo. split.
  - by intros ->.
  - intros e w' -> Hopen Hmiss. run_m. by rewrite Hopen, Hmiss.
Qed.

(** C8, as the code has it.  Once [mkdir] and [write_text] have
    succeeded, [commit_config] returns success for the written
    snapshot with a null commit hash (a) when the tool holds no
    repository, and when a repository is present, the path of the
    snapshot below its working tree is computed, and
    [GitCommandError] is raised (b) by [index.add], (c) by [is_dirty]
    or (d) by [index.commit]; the world is the one the last git call
    left.  [GitCommandError] is the one class the [except] clause
    names. *)
Theorem commit_degrades_to_unversioned self device content msg w w1 w2 :
  mkdir (path_join (_repo_path self) "configs") w = (Returned (), w1) →
  write_text (snapshot_path (_repo_path self) device) content w1
    = (Returned (), w2) →
  (_repo self = None →
   commit_config self device content msg w
     = (Returned (unversioned (snapshot_path (_repo_path self) device) device),
        w2)) ∧
  (∀ repo rel err w3,
     _repo self = Some repo →
     rel_path_of repo (snapshot_path (_repo_path self) device)
       = Returned rel →
     index_add repo [rel] w2 = (Raised (GitCommandError err), w3) →
     commit_config self device content msg w
       = (Returned (unversioned (snapshot_path (_repo_path self) device) device),
          w3)) ∧
  (∀ repo rel err w3 w4,
     _repo self = Some repo →
     rel_path_of repo (snapshot_path (_repo_path self) device)
       = Returned rel →
     index_add repo [rel] w2 = (Returned (), w3) →
     is_dirty repo true false true w3 = (Raised (GitCommandError err), w4) →
     commit_config self device content msg w
       = (Returned (unversioned (snapshot_path (_repo_path self) device) device),
          w4)) ∧
  (∀ repo rel err w3 w4 w5,
     _repo self = Some repo →
     rel_path_of repo (snapshot_path (_repo_path self) device)
       = Returned rel →
     index_add repo [rel] w2 = (Returned (), w3) →
     is_dirty repo true false true w3 = (Returned true, w4) →
     index_commit repo msg w4 = (Raised (GitCommandError err), w5) →
     commit_config self device content msg w
       = (Returned (unversioned (snapshot_path (_repo_path self) device) device),
          w5)).
Proof.
  intros Hmk Hwr.
  rewrite (commit_config_written _ _ _ _ _ _ _ Hmk Hwr).
  repeat split.
  - intros ->. done.
  - intros repo rel err w3 -> Hrel Hadd. unfold stage_and_commit.
    run_m. rewrite Hrel. simpl. by rewrite Hadd.
  - intros repo rel err w3 w4 -> Hrel Hadd Hdirty. unfold stage_and_commit.
    run_m. rewrite Hrel. simpl. rewrite Hadd. by rewrite Hdirty.
  - intros repo rel err w3 w4 w5 -> Hrel Hadd Hdirty Hcommit.
    unfold stage_and_commit.
    run_m. rewrite Hrel. simpl. rewrite Hadd, Hdirty. by rewrite Hcommit.
Qed.

(** C1, as the code has it. When the fetcher delivers [None],
    [backup_config] fails with [No configuration content returned]
    and leaves the world as it was.  When it delivers the empty
    string, [backup_config] is the call of [commit_config] on the
    empty text with the generated message: the empty snapshot is
    committed like any other. *)
Theorem backup_rejects_none_only self device fetched w :
  _config_fetcher self device = Returned fetched →
  (delivers fetched PyNone →
   backup_config self device w
     = (Returned (ToolOutput_.fail "No configuration content returned" None
                    (Some {[ "device" := PyStr device ]})), w)) ∧
  (delivers fetched (PyStr "") →
   backup_config self device w
     = commit_config (_version_control self) device ""
         ("AUTOBACKUP: Configuration backup for " +:+ device +:+ " @ " +:+
          utcnow_isoformat w +:+ "Z") w).
Proof.
  intros Hfetch. unfold backup_config. rewrite Hfetch. split.
  - intros [-> | (t & -> & Hs & Hd)]; run_m; [done|].
    by rewrite Hs, Hd.
  - intros [-> | (t & -> & Hs & Hd)]; run_m; [done|].
    by rewrite Hs, Hd.
Qed.

End SnapshotClaims.

(* ================================================================= *)
(** ** Strings *)

Lemma string_app_cons (c : ascii) (s1 s2 : string) :
  String c s1 +:+ s2 = String c (s1 +:+ s2).
Proof. reflexivity. Qed.

Lemma string_app_assoc (s1 s2 s3 : string) :
  (s1 +:+ s2) +:+ s3 = s1 +:+ (s2 +:+ s3).
Proof.
  induction s1 as [|c s1 IH]; [done|]. rewrite !string_app_cons. by f_equal.
Qed.

Lemma string_app_nil_r (s : string) : s +:+ "" = s.
Proof. induction s as [|c s IH]; [done|]. by rewrite string_app_cons, IH. Qed.

(* ================================================================= *)
(** ** Paths *)

Section PathFacts.















End PathFacts.

Section SnapshotPath.





End SnapshotPath.

(* ================================================================= *)
(** ** Committing the same content twice, on a working repository *)

Module GitFacts.

Section TwoCommits.
Context `{Backend}.
Variables (self : VersionControlTool) (repo : Repo) (device rel : string).
Context (repository : WorkingRepository repo
                        (path_join (_repo_path self) "configs")
                        (snapshot_path (_repo_path self) device) rel).
Hypothesis Hrepo : _repo self = Some repo.
Hypothesis Hrel :
  rel_path_of repo (snapshot_path (_repo_path self) device) = Returned rel.

(** One call of [commit_config] in a working world: it returns a
    backup result, the snapshot file holds the content, the content
    is staged and the index is the tree of [HEAD]; the hash is null
    exactly when staging left the index at the tree of [HEAD] and no
    untracked file. *)
Lemma commit_config_works content msg w :
  working w →
  ∃ commit_hash w1,
    commit_config self device content msg w
    = (Returned
         (ToolOutput_.ok
            (PyBackupResult
               {| cbr_device := device;
                  cbr_path := snapshot_path (_repo_path self) device;
                  cbr_commit_hash := commit_hash |})), w1) ∧
    working w1 ∧
    snapshot w1 = Some content ∧
    staged w1 = <[rel := content]> (staged w) ∧
    committed w1 = staged w1 ∧
    (is_Some (staged w !! rel) → untracked_files w1 = untracked_files w) ∧
    (commit_hash = None ↔
     <[rel := content]> (staged w) = committed w ∧ untracked_files w1 = ∅) ∧
    (commit_hash = None → committed w1 = committed w).
Proof.
  intros Hw.
  destruct (mkdir_works w Hw) as (wa & Hmk & Hpa & Hsa & Hca & Hua).
  destruct (write_works wa content Hpa) as (wb & Hwr & Hwb & Hfb & Hsb & Hcb & Hub).
  destruct (add_works wb content Hwb Hfb) as (wc & Hadd & Hwc & Hfc & Hsc & Hcc & Huc).
  pose proof (is_dirty_works wc Hwc) as Hdirty.
  rewrite (commit_config_written _ _ _ _ _ _ _ Hmk Hwr), Hrepo.
  unfold stage_and_commit. run_m. rewrite Hrel. simpl.
  rewrite Hadd, Hdirty.
  assert (staged wc = <[rel := content]> (staged w)) as Hstaged
    by (by rewrite Hsc, Hsb, Hsa).
  assert (committed wc = committed w) as Hhead
    by (by rewrite Hcc, Hcb, Hca).
  assert (is_Some (staged w !! rel) → untracked_files wc = untracked_files w)
    as Hsame.
  { intros Hin. rewrite Huc, Hub, Hua by (by rewrite Hsa).
    apply set_eq. intros r. rewrite elem_of_difference, elem_of_singleton.
    split; [by intros [? _]|]. intros Hr. split; [done|]. intros ->.
    apply (untracked_not_staged w _ Hw) in Hr.
    rewrite Hr in Hin. by destruct Hin. }
  destruct (bool_decide (staged wc ≠ committed wc)) eqn:Hdiff; simpl.
  - destruct (commit_works wc msg Hwc)
      as (c & we & Hcommit & Hwe & Hfe & Hse & Hce & Hue).
    rewrite Hcommit. eexists _, we. split; [done|].
    apply bool_decide_eq_true in Hdiff.
    repeat split; try done.
    + congruence.
    + congruence.
    + congruence.
    + intros Hin. rewrite Hue. by apply Hsame.
    + intros [Heq _]. destruct Hdiff. congruence.
  - apply bool_decide_eq_false in Hdiff.
    assert (staged wc = committed wc) as Heq
      by (by destruct (decide (staged wc = committed wc))).
    destruct (bool_decide (untracked_files wc ≠ ∅)) eqn:Hunt; simpl.
    + destruct (commit_works wc msg Hwc)
        as (c & we & Hcommit & Hwe & Hfe & Hse & Hce & Hue).
      rewrite Hcommit. eexists _, we. split; [done|].
      apply bool_decide_eq_true in Hunt.
      repeat split; try done.
      * congruence.
      * congruence.
      * congruence.
      * intros Hin. rewrite Hue. by apply Hsame.
      * intros [_ Hnone]. destruct Hunt. congruence.
    + apply bool_decide_eq_false in Hunt.
      assert (untracked_files wc = ∅) as Hnone
        by (by destruct (decide (untracked_files wc = ∅))).
      eexists _, wc. split; [done|].
      repeat split; try done; congruence.
Qed.

(** C9, as the code has it.  On a working repository, committing the
    same content for the same device twice in a row succeeds both
    times, and the second call returns a null commit hash exactly
    when the first call left no untracked file in the working tree:
    [is_dirty] is asked with [untracked_files=True], so any file that
    is untracked and not ignored makes the second call commit
    again. *)
Theorem second_commit_null_iff_no_untracked content msg1 msg2 w :
  working w →
  ∃ r1 w1 r2 w2 h1 h2,
    commit_config self device content msg1 w = (r1, w1) ∧
    commit_config self device content msg2 w1 = (r2, w2) ∧
    returned_hash r1 = Some h1 ∧
    returned_hash r2 = Some h2 ∧
    (h2 = None ↔ untracked_files w1 = ∅).
Proof.
  intros Hw.
  destruct (commit_config_works content msg1 w Hw)
    as (h1 & w1 & Hrun1 & Hw1 & _ & Hs1 & Hc1 & _).
  destruct (commit_config_works content msg2 w1 Hw1)
    as (h2 & w2 & Hrun2 & _ & _ & _ & _ & Hu2 & Hh2 & _).
  assert (staged w1 !! rel = Some content) as Hin
    by (rewrite Hs1; apply lookup_insert_eq).
  exists (Returned
            (ToolOutput_.ok
               (PyBackupResult
                  {| cbr_device := device;
                     cbr_path := snapshot_path (_repo_path self) device;
                     cbr_commit_hash := h1 |}))), w1.
  eexists _, w2, h1, h2.
  split; [done|]. split; [done|]. split; [done|]. split; [done|].
  rewrite Hh2, (insert_id _ _ _ Hin), Hu2 by done.
  split; [by intros [_ ?] | by split].
Qed.

End TwoCommits.

End GitFacts.

(* ================================================================= *)
(** ** The repository model is a working repository *)

Module ModelFacts.
Import GitModel.

Lemma elem_of_untracked root w r :
  (r ∈ untracked root w) ↔
  (∃ k c, files w !! k = Some c ∧ below root k = Some r ∧
          git_index w !! r = None ∧ (r ∉ ignored w) ∧
          startswith r ".git/" = false).
Proof.
  unfold untracked. rewrite list_elem_of_omap. split.
  - intros ([k c] & Hin & Hr). apply elem_of_map_to_list in Hin.
    simpl in Hr. destruct (below root k) as [r'|] eqn:Hbelow; [|done].
    destruct (bool_decide (git_index w !! r' = None)) eqn:Hidx; [|done].
    destruct (bool_decide (r' ∈ ignored w)) eqn:Hign; [done|].
    destruct (startswith r' ".git/") eqn:Hgit; [done|].
    simpl in Hr. injection Hr as ->.
    apply bool_decide_eq_true in Hidx. apply bool_decide_eq_false in Hign.
    by exists k, c.
  - intros (k & c & Hin & Hbelow & Hidx & Hign & Hgit).
    exists (k, c). split; [by apply elem_of_map_to_list|].
    simpl. rewrite Hbelow.
    rewrite (bool_decide_eq_true_2 _ Hidx), (bool_decide_eq_false_2 _ Hign).
    by rewrite Hgit.
Qed.

Lemma untracked_nil root w :
  untracked root w ≠ [] ↔ (list_to_set (untracked root w) : gset string) ≠ ∅.
Proof.
  destruct (untracked root w) as [|r rs]; [done|].
  split; [|done]. intros _ Hempty.
  assert (r ∈ (list_to_set (r :: rs) : gset string)) as Hin
    by (apply elem_of_list_to_set; by left).
  rewrite Hempty in Hin. by apply elem_of_empty in Hin.
Qed.

Lemma walk_into w cur name rest :
  name ≠ ".." → is_dir w (name :: cur) = true →
  walk w cur (name :: rest) = walk w (name :: cur) rest.
Proof.
  intros Hname Hdir. simpl.
  rewrite (bool_decide_eq_false_2 _ Hname). by rewrite Hdir.
Qed.

(** The way to [/repo/configs] and to the snapshot of [r1]. *)
Lemma walk_repo w : is_dir w ["repo"] = true → walk w [] ["repo"] = inr ["repo"].
Proof. intros Hrepo. by rewrite walk_into. Qed.

Lemma walk_configs w :
  is_dir w ["repo"] = true → is_dir w ["configs"; "repo"] = true →
  walk w [] ["repo"; "configs"] = inr ["configs"; "repo"].
Proof. intros Hrepo Hconfigs. by rewrite !walk_into. Qed.

Lemma place_of_snapshot w :
  Demo.laid_out w →
  place_of w "/repo/configs/r1.cfg" = inr ["r1.cfg"; "configs"; "repo"].
Proof.
  intros [(_ & _ & _ & Hrepo & _) Hconfigs]. unfold place_of.
  change (reverse (path_parts "/repo/configs/r1.cfg"))
    with ["r1.cfg"; "configs"; "repo"].
  cbv beta iota.
  change (reverse ["configs"; "repo"]) with ["repo"; "configs"].
  rewrite walk_configs by done.
  by rewrite bool_decide_eq_false_2.
Qed.

Lemma make_dirs_configs w :
  Demo.healthy w →
  ∃ w', make_dirs "/repo/configs" w = (Returned (), w') ∧ Demo.laid_out w' ∧
        files w' = files w ∧ git_index w' = git_index w ∧
        history w' = history w ∧ ignored w' = ignored w.
Proof.
  intros (Hdisk & Hgit & Hlock & Hrepo & Hnofile & Hnodir).
  unfold make_dirs.
  change (has_nul "/repo/configs") with false. cbv iota.
  change (reverse (path_parts "/repo/configs")) with ["configs"; "repo"].
  assert (os_mkdir ["repo"; "configs"] w
          = if is_dir w ["configs"; "repo"] then (Some EEXIST, w)
            else (None, set_dirs (union {[ "/repo/configs" ]}) w)) as Hmk.
  { unfold os_mkdir.
    change (reverse ["repo"; "configs"]) with ["configs"; "repo"].
    cbv beta iota.
    change (reverse ["repo"]) with ["repo"].
    rewrite walk_repo by done.
    rewrite bool_decide_eq_false_2 by done.
    rewrite Hnofile, orb_false_r, Hdisk.
    by destruct (is_dir w ["configs"; "repo"]). }
  unfold mkdir_p.
  change (reverse ["configs"; "repo"]) with ["repo"; "configs"].
  rewrite Hmk.
  destruct (is_dir w ["configs"; "repo"]) eqn:Hconfigs.
  - unfold path_is_dir. rewrite walk_configs by done.
    exists w. by repeat split.
  - eexists. split; [done|].
    unfold Demo.laid_out, Demo.healthy, is_dir, is_file in *. simpl in *.
    change (key ["r1.cfg"; "configs"; "repo"]) with "/repo/configs/r1.cfg" in *.
    change (key ["configs"; "repo"]) with "/repo/configs" in *.
    change (key ["repo"]) with "/repo" in *.
    apply bool_decide_eq_true in Hrepo.
    apply bool_decide_eq_false in Hnodir.
    repeat split; try done.
    + apply bool_decide_eq_true, elem_of_union. by right.
    + apply bool_decide_eq_false. rewrite elem_of_union, elem_of_singleton.
      by intros [? | ?].
    + apply bool_decide_eq_true, elem_of_union. left.
      by apply elem_of_singleton.
Qed.

Lemma write_snapshot w content :
  Demo.laid_out w →
  ∃ w', write "/repo/configs/r1.cfg" content w = (Returned (), w') ∧
        Demo.laid_out w' ∧
        read w' "/repo/configs/r1.cfg" = Some content ∧
        files w' = <["/repo/configs/r1.cfg" := content]> (files w) ∧
        git_index w' = git_index w ∧ history w' = history w ∧
        ignored w' = ignored w.
Proof.
  intros Hw. pose proof (place_of_snapshot w Hw) as Hplace.
  destruct Hw as [(Hdisk & Hgit & Hlock & Hrepo & Hnofile & Hnodir) Hconfigs].
  unfold write.
  change (has_nul "/repo/configs/r1.cfg") with false. cbv iota.
  rewrite Hplace, Hnodir, Hdisk.
  change (key ["r1.cfg"; "configs"; "repo"]) with "/repo/configs/r1.cfg".
  eexists. split; [done|].
  assert (Demo.laid_out (set_files (insert "/repo/configs/r1.cfg" content) w))
    as Hw'.
  { unfold Demo.laid_out, Demo.healthy, is_dir, is_file in *. simpl in *.
    change (key ["configs"; "repo"]) with "/repo/configs" in *.
    repeat split; try done.
    apply bool_decide_eq_false. apply bool_decide_eq_false in Hnofile.
    by rewrite lookup_insert_ne. }
  split; [done|]. split; [|done].
  unfold read. rewrite (place_of_snapshot _ Hw').
  change (key ["r1.cfg"; "configs"; "repo"]) with "/repo/configs/r1.cfg".
  simpl. apply lookup_insert_eq.
Qed.

Lemma untracked_ext root w w' :
  files w' = files w → git_index w' = git_index w → ignored w' = ignored w →
  untracked root w' = untracked root w.
Proof. intros Hf Hi Hg. unfold untracked. by rewrite Hf, Hi, Hg. Qed.

(** Writing a file the index holds leaves the untracked files as they
    were. *)
Lemma untracked_write w content :
  is_Some (git_index w !! "configs/r1.cfg") →
  (list_to_set
     (untracked "/repo"
        (set_files (insert "/repo/configs/r1.cfg" content) w)) : gset string)
  = list_to_set (untracked "/repo" w).
Proof.
  intros [staged_content Hstaged]. apply set_eq. intros r.
  rewrite !elem_of_list_to_set, !elem_of_untracked. simpl. split.
  - intros (k & c & Hk & Hbelow & Hidx & Hign & Hgit).
    destruct (decide (k = "/repo/configs/r1.cfg")) as [-> | Hne].
    + change (below "/repo" "/repo/configs/r1.cfg")
        with (Some "configs/r1.cfg") in Hbelow.
      injection Hbelow as <-. congruence.
    + rewrite lookup_insert_ne in Hk by done. by exists k, c.
  - intros (k & c & Hk & Hbelow & Hidx & Hign & Hgit).
    destruct (decide (k = "/repo/configs/r1.cfg")) as [-> | Hne].
    + change (below "/repo" "/repo/configs/r1.cfg")
        with (Some "configs/r1.cfg") in Hbelow.
      injection Hbelow as <-. congruence.
    + exists k, c. by rewrite lookup_insert_ne.
Qed.

(** Staging a file takes it out of the untracked files. *)
Lemma untracked_add w rel content :
  (list_to_set (untracked "/repo" (set_index (insert rel content) w))
     : gset string)
  = list_to_set (untracked "/repo" w) ∖ {[ rel ]}.
Proof.
  apply set_eq. intros r.
  rewrite elem_of_difference, elem_of_singleton.
  rewrite !elem_of_list_to_set, !elem_of_untracked. simpl. split.
  - intros (k & c & Hk & Hbelow & Hidx & Hign & Hgit).
    destruct (decide (r = rel)) as [-> | Hne].
    + by rewrite lookup_insert_eq in Hidx.
    + rewrite lookup_insert_ne in Hidx by done. split; [|done].
      by exists k, c.
  - intros [(k & c & Hk & Hbelow & Hidx & Hign & Hgit) Hne].
    exists k, c. by rewrite lookup_insert_ne.
Qed.

Lemma add_snapshot w content :
  Demo.healthy w → read w "/repo/configs/r1.cfg" = Some content →
  add "/repo" ["configs/r1.cfg"] w
  = (Returned (), set_index (insert "configs/r1.cfg" content) w).
Proof.
  intros (Hdisk & Hgit & Hlock & _) Hread. unfold add. rewrite Hgit.
  change ("/repo" +:+ "/" +:+ "configs/r1.cfg") with "/repo/configs/r1.cfg".
  by rewrite Hread, Hlock.
Qed.

Lemma dirty_model w :
  git_broken w = false →
  dirty "/repo" true false true w
  = (Returned
       (bool_decide (git_index w ≠ head_tree w) ||
        bool_decide ((list_to_set (untracked "/repo" w) : gset string) ≠ ∅)),
     w).
Proof.
  intros Hgit. unfold dirty. rewrite Hgit. simpl. rewrite orb_false_r.
  by rewrite (bool_decide_ext _ _ (untracked_nil "/repo" w)).
Qed.

(** The laws of a working repository, for the repository at [/repo]
    and the snapshot of [r1]. *)
Lemma mkdir_law w :
  Demo.healthy w →
  ∃ w', make_dirs "/repo/configs" w = (Returned (), w') ∧ Demo.laid_out w' ∧
        git_index w' = git_index w ∧ head_tree w' = head_tree w ∧
        (list_to_set (untracked "/repo" w') : gset string)
        = list_to_set (untracked "/repo" w).
Proof.
  intros Hw.
  destruct (make_dirs_configs w Hw) as (w' & Hrun & Hw' & Hf & Hi & Hh & Hg).
  exists w'. split; [done|]. split; [done|]. split; [done|].
  split; [unfold head_tree; by rewrite Hh|].
  by rewrite (untracked_ext _ _ _ Hf Hi Hg).
Qed.

Lemma write_law w content :
  Demo.laid_out w →
  ∃ w', write "/repo/configs/r1.cfg" content w = (Returned (), w') ∧
        Demo.healthy w' ∧
        read w' "/repo/configs/r1.cfg" = Some content ∧
        git_index w' = git_index w ∧ head_tree w' = head_tree w ∧
        (is_Some (git_index w !! "configs/r1.cfg") →
         (list_to_set (untracked "/repo" w') : gset string)
         = list_to_set (untracked "/repo" w)).
Proof.
  intros Hw.
  destruct (write_snapshot w content Hw)
    as (w' & Hrun & [Hw' _] & Hread & Hf & Hi & Hh & Hg).
  exists w'. split; [done|]. split; [done|]. split; [done|].
  split; [done|]. split; [unfold head_tree; by rewrite Hh|].
  intros Hin. rewrite <- (untracked_write w content Hin).
  f_equal. apply untracked_ext; [by rewrite Hf | done | done].
Qed.

Lemma add_law w content :
  Demo.healthy w → read w "/repo/configs/r1.cfg" = Some content →
  ∃ w', add "/repo" ["configs/r1.cfg"] w = (Returned (), w') ∧ Demo.healthy w' ∧
        read w' "/repo/configs/r1.cfg" = Some content ∧
        git_index w' = <["configs/r1.cfg" := content]> (git_index w) ∧
        head_tree w' = head_tree w ∧
        (list_to_set (untracked "/repo" w') : gset string)
        = list_to_set (untracked "/repo" w) ∖ {[ "configs/r1.cfg" ]}.
Proof.
  intros Hw Hread.
  eexists. split; [by apply add_snapshot|].
  split; [exact Hw|]. split; [exact Hread|]. split; [done|].
  split; [done|]. apply untracked_add.
Qed.

Lemma dirty_law w :
  Demo.healthy w →
  dirty "/repo" true false true w
  = (Returned
       (bool_decide (git_index w ≠ head_tree w) ||
        bool_decide ((list_to_set (untracked "/repo" w) : gset string) ≠ ∅)),
     w).
Proof. intros (_ & Hgit & _). by apply dirty_model. Qed.

Lemma commit_law w message :
  Demo.healthy w →
  ∃ c w', commit "/repo" message w = (Returned c, w') ∧ Demo.healthy w' ∧
          read w' "/repo/configs/r1.cfg" = read w "/repo/configs/r1.cfg" ∧
          git_index w' = git_index w ∧ head_tree w' = git_index w ∧
          (list_to_set (untracked "/repo" w') : gset string)
          = list_to_set (untracked "/repo" w).
Proof.
  intros Hw. pose proof Hw as (_ & Hgit & _).
  unfold commit. rewrite Hgit.
  eexists _, _. split; [done|]. split; [exact Hw|]. by repeat split.
Qed.

Lemma untracked_law w r :
  Demo.healthy w →
  r ∈ (list_to_set (untracked "/repo" w) : gset string) →
  git_index w !! r = None.
Proof.
  intros _ Hr. apply elem_of_list_to_set in Hr.
  by apply elem_of_untracked in Hr as (_ & _ & _ & _ & Hidx & _).
Qed.

End ModelFacts.

(** The repository at [/repo] with the snapshot of [r1] is a working
    repository in every healthy world. *)
Definition model_repository
  : @WorkingRepository (GitModel.backend true) "/repo"
      "/repo/configs" "/repo/configs/r1.cfg" "configs/r1.cfg" :=
  @Build_WorkingRepository (GitModel.backend true) "/repo"
    "/repo/configs" "/repo/configs/r1.cfg" "configs/r1.cfg"
    Demo.healthy Demo.laid_out GitModel.git_index GitModel.head_tree
    (λ w, list_to_set (GitModel.untracked "/repo" w))
    (λ w, GitModel.read w "/repo/configs/r1.cfg")
    ModelFacts.mkdir_law ModelFacts.write_law ModelFacts.add_law
    ModelFacts.dirty_law ModelFacts.commit_law ModelFacts.untracked_law.

(* ================================================================= *)
(** ** [SequenceMatcher]: termination, and two copies of one sequence

    For any two sequences, the block [find_longest_match] returns lies
    in the range it was asked about, so each round of the queue loop
    of [get_matching_blocks] uses up some of [queue_weight] and the
    rounds the loop is given suffice.

    [find_longest_match] keeps the first longest run it meets, rows in
    order and, within a row, indices in increasing order.  On two
    copies of a sequence the runs are symmetric and none beats the
    one on the diagonal of its row, so the match kept lies on the
    diagonal; extending it to both sides covers the whole sequence,
    popular elements included.  One block covering everything gives
    one [equal] opcode, no group, and an empty diff. *)

Module DifflibFacts.
Import Difflib.

Lemma elem_of_indices_from i0 x rest j :
  j ∈ indices_from i0 x rest ↔ i0 ≤ j ∧ rest !! (j - i0) = Some x.
Proof.
  revert i0. induction rest as [|e rest IH]; intros i0; simpl.
  - rewrite elem_of_nil, lookup_nil. split; [done | by intros [_ ?]].
  - destruct (decide (e = x)) as [->|Hne].
    + rewrite elem_of_cons, IH. split.
      * intros [-> | [Hle Hin]].
        { split; [lia|]. by rewrite Nat.sub_diag. }
        split; [lia|]. replace (j - i0) with (S (j - S i0)) by lia. done.
      * intros [Hle Hin]. destruct (decide (j = i0)) as [->|Hj]; [by left|].
        right. split; [lia|].
        replace (j - i0) with (S (j - S i0)) in Hin by lia. done.
    + rewrite IH. split.
      * intros [Hle Hin]. split; [lia|].
        replace (j - i0) with (S (j - S i0)) by lia. done.
      * intros [Hle Hin]. destruct (decide (j = i0)) as [->|Hj].
        { rewrite Nat.sub_diag in Hin. simpl in Hin. congruence. }
        split; [lia|].
        replace (j - i0) with (S (j - S i0)) in Hin by lia. done.
Qed.

Lemma indices_from_sorted i0 x rest :
  StronglySorted lt (indices_from i0 x rest).
Proof.
  revert i0. induction rest as [|e rest IH]; intros i0; simpl.
  - constructor.
  - destruct (decide (e = x)); [|apply IH].
    constructor; [apply IH|].
    apply Forall_forall. intros j Hj.
    apply elem_of_indices_from in Hj. lia.
Qed.

Lemma chain_from_lookup i0 rest (m : gmap string (list nat)) x :
  default [] (chain_from i0 rest m !! x)
  = default [] (m !! x) ++ indices_from i0 x rest.
Proof.
  revert i0 m. induction rest as [|e rest IH]; intros i0 m; simpl.
  - by rewrite app_nil_r.
  - rewrite IH. destruct (decide (e = x)) as [->|Hne].
    + rewrite lookup_insert_eq. simpl. by rewrite <- app_assoc.
    + by rewrite lookup_insert_ne.
Qed.

(** The row of [b2j] for an element is empty (the element is popular)
    or lists its positions. *)
Lemma chain_b_lookup (l : list string) x :
  default [] (chain_b l !! x) = [] ∨
  default [] (chain_b l !! x) = indices_from 0 x l.
Proof.
  unfold chain_b. pose proof (chain_from_lookup 0 l ∅ x) as Hall.
  rewrite lookup_empty in Hall. simpl in Hall.
  destruct (200 <=? length l); [|by right].
  rewrite map_lookup_filter.
  destruct (chain_from 0 l ∅ !! x) as [idxs|] eqn:Hx; simpl; [|by left].
  simpl in Hall. subst idxs.
  case_guard; simpl; [by right | by left].
Qed.

Section AnySequences.
Variables a b : list string.

Lemma j2lenget_short alo i j2len j :
  short_runs alo i j2len → alo ≤ i → j2lenget j2len j + alo ≤ i.
Proof.
  intros Hshort Hi. destruct j as [|j]; simpl; [lia|].
  destruct (j2len !! j) as [v|] eqn:Hj; simpl; [by eapply Hshort | lia].
Qed.

Lemma scan_row_inside js alo i blo bhi j2len newj2len best :
  alo ≤ i → short_runs alo i j2len →
  short_runs alo (S i) newj2len → inside alo (S i) best →
  short_runs alo (S i) (scan_row js i blo bhi j2len newj2len best).1 ∧
  inside alo (S i) (scan_row js i blo bhi j2len newj2len best).2.
Proof.
  intros Hi Hold. revert newj2len best.
  induction js as [|j js IH]; intros newj2len best Hnew Hbest; [done|].
  simpl. destruct (j <? blo); [by apply IH|].
  destruct (bhi <=? j); [done|].
  destruct best as [[bi bj] bs].
  pose proof (j2lenget_short alo i j2len j Hold Hi) as Hk.
  apply IH.
  - intros j' v. rewrite lookup_insert. case_decide; [|by apply Hnew].
    intros [= <-]. lia.
  - destruct (bs <? j2lenget j2len j + 1); [|done].
    unfold inside, m_i, m_size. simpl. lia.
Qed.

Lemma scan_rows_inside b2j count alo i blo bhi j2len best :
  alo ≤ i → short_runs alo i j2len → inside alo i best →
  inside alo (i + count) (scan_rows a b2j count i blo bhi j2len best).
Proof.
  revert i j2len best. induction count as [|count IH];
    intros i j2len best Hi Hshort Hbest.
  - by rewrite Nat.add_0_r.
  - simpl.
    set (js := match a !! i with Some elt => default [] (b2j !! elt) | None => [] end).
    pose proof (scan_row_inside js alo i blo bhi j2len ∅ best Hi Hshort) as Hrow.
    destruct (scan_row js i blo bhi j2len ∅ best) as [newj2len best'].
    destruct Hrow as [Hs Hb].
    { intros j v. by rewrite lookup_empty. }
    { destruct Hbest. split; lia. }
    replace (i + S count) with (S i + count) by lia.
    apply IH; [lia | done | done].
Qed.

Lemma extend_left_inside junk rounds alo blo hi m :
  inside alo hi m → inside alo hi (extend_left a b junk rounds alo blo m).
Proof.
  revert m. induction rounds as [|rounds IH]; intros [[bi bj] bs] Hm; [done|].
  simpl. destruct (alo <? bi) eqn:Hlt; simpl; [|done].
  destruct (_ && _ && _); [|done].
  apply Nat.ltb_lt in Hlt. apply IH.
  unfold inside, m_i, m_size in *. simpl in *. lia.
Qed.

Lemma extend_right_inside junk rounds alo ahi bhi m :
  inside alo ahi m → inside alo ahi (extend_right a b junk rounds ahi bhi m).
Proof.
  revert m. induction rounds as [|rounds IH]; intros [[bi bj] bs] Hm; [done|].
  simpl. destruct (bi + bs <? ahi) eqn:Hlt; simpl; [|done].
  destruct (_ && _ && _); [|done].
  apply Nat.ltb_lt in Hlt. apply IH.
  unfold inside, m_i, m_size in *. simpl in *. lia.
Qed.

(** The block [find_longest_match] returns lies in the range of [a]
    it was asked about. *)
Lemma find_longest_match_inside b2j alo ahi blo bhi :
  alo ≤ ahi → inside alo ahi (find_longest_match a b b2j alo ahi blo bhi).
Proof.
  intros Hle. unfold find_longest_match.
  apply extend_right_inside, extend_left_inside, extend_right_inside,
    extend_left_inside.
  replace ahi with (alo + (ahi - alo)) at 1 by lia.
  apply scan_rows_inside; [lia | | ].
  - intros j v. by rewrite lookup_empty.
  - unfold inside, m_i, m_size. simpl. lia.
Qed.

Lemma queue_weight_cons alo ahi blo bhi queue :
  queue_weight ((alo, ahi, blo, bhi) :: queue)
  = 2 * (ahi - alo) + 1 + queue_weight queue.
Proof. reflexivity. Qed.

(** With at least [queue_weight queue] rounds the loop ends because
    the queue is empty: more rounds change nothing. *)
Lemma match_queue_rounds_suffice b2j rounds more queue blocks :
  Forall (λ e : nat * nat * nat * nat, e.1.1.1 ≤ e.1.1.2) queue →
  queue_weight queue ≤ rounds →
  match_queue a b b2j (rounds + more) queue blocks
  = match_queue a b b2j rounds queue blocks.
Proof.
  revert queue blocks. induction rounds as [|rounds IH];
    intros queue blocks Hwf Hw.
  - destruct queue as [|[[[alo ahi] blo] bhi] queue].
    + by destruct more.
    + rewrite queue_weight_cons in Hw. lia.
  - destruct queue as [|[[[alo ahi] blo] bhi] queue]; [done|].
    apply Forall_cons in Hwf as [Hle Hwf]. simpl in Hle.
    rewrite queue_weight_cons in Hw.
    simpl.
    pose proof (find_longest_match_inside b2j alo ahi blo bhi Hle) as Hin.
    destruct (find_longest_match a b b2j alo ahi blo bhi) as [[i j] k].
    unfold inside, m_i, m_size in Hin. simpl in Hin.
    destruct (k =? 0) eqn:Hk; [apply IH; [done | lia]|].
    apply Nat.eqb_neq in Hk.
    apply IH.
    + destruct (i + k <? ahi) eqn:H2; destruct (alo <? i) eqn:H1; simpl;
        destruct (blo <? j); destruct (j + k <? bhi); simpl;
        repeat (apply Forall_cons; split); simpl; try done; lia.
    + destruct (i + k <? ahi) eqn:H2; destruct (alo <? i) eqn:H1; simpl;
        destruct (blo <? j); destruct (j + k <? bhi); simpl;
        rewrite ?queue_weight_cons; lia.
Qed.

(** [get_matching_blocks] gives its loop enough rounds. *)
Lemma get_matching_blocks_rounds more :
  match_queue a b (chain_b b) (2 * (length a + length b) + 1 + more)
    [(0, length a, 0, length b)] []
  = match_queue a b (chain_b b) (2 * (length a + length b) + 1)
      [(0, length a, 0, length b)] [].
Proof.
  apply match_queue_rounds_suffice.
  - repeat constructor. simpl. lia.
  - rewrite queue_weight_cons. unfold queue_weight. simpl. lia.
Qed.

End AnySequences.

Section SameSequence.
Variable l : list string.

Lemma row_cases i :
  row l i = [] ∨ ∃ x, l !! i = Some x ∧ row l i = indices_from 0 x l.
Proof.
  unfold row. destruct (l !! i) as [x|] eqn:Hi; [|by left].
  destruct (chain_b_lookup l x) as [-> | ->]; [by left|].
  right. by exists x.
Qed.

Lemma row_elem i j :
  j ∈ row l i → ∃ x, l !! i = Some x ∧ l !! j = Some x ∧
                   row l i = indices_from 0 x l.
Proof.
  intros Hj. destruct (row_cases i) as [Hnil | (x & Hi & Hrow)].
  - rewrite Hnil in Hj. by apply elem_of_nil in Hj.
  - exists x. rewrite Hrow in Hj.
    apply elem_of_indices_from in Hj as [_ Hj].
    rewrite Nat.sub_0_r in Hj. done.
Qed.

Lemma row_same i j : l !! i = l !! j → row l i = row l j.
Proof. unfold row. by intros ->. Qed.

Lemma row_sym i j : j ∈ row l i → i ∈ row l j.
Proof.
  intros Hj. destruct (row_elem i j Hj) as (x & Hi & Hjx & Hrow).
  rewrite <- (row_same i j) by congruence. rewrite Hrow.
  apply elem_of_indices_from. rewrite Nat.sub_0_r. split; [lia | done].
Qed.

Lemma row_diag i j : j ∈ row l i → i ∈ row l i.
Proof.
  intros Hj. destruct (row_elem i j Hj) as (x & Hi & Hjx & Hrow).
  rewrite Hrow. apply elem_of_indices_from. rewrite Nat.sub_0_r.
  split; [lia | done].
Qed.

Lemma row_lt i j : j ∈ row l i → j < length l.
Proof.
  intros Hj. destruct (row_elem i j Hj) as (x & _ & Hjx & _).
  by apply lookup_lt_Some in Hjx.
Qed.

Lemma row_sorted i : StronglySorted lt (row l i).
Proof.
  destruct (row_cases i) as [-> | (x & _ & ->)];
    [constructor | apply indices_from_sorted].
Qed.

Lemma run_sym i j : run l i j = run l j i.
Proof.
  revert j. induction i as [|i IH]; intros [|j]; simpl; try done.
  rewrite IH.
  destruct (decide (j ∈ row l i)) as [Hin | Hout].
  - rewrite !bool_decide_eq_true_2; [done | by apply row_sym | done].
  - rewrite !bool_decide_eq_false_2; [done | | done].
    intros Hin. by apply Hout, row_sym.
Qed.

Lemma run_diag i j : run l i j ≤ run l i i.
Proof.
  revert j. induction i as [|i IH]; intros [|j]; simpl; try lia.
  case_bool_decide as Hin; [|lia].
  rewrite bool_decide_eq_true_2 by (by eapply row_diag).
  specialize (IH j). lia.
Qed.

Lemma run_le i j : run l i j ≤ i.
Proof.
  revert j. induction i as [|i IH]; intros [|j]; simpl; try lia.
  case_bool_decide; [|lia]. specialize (IH j). lia.
Qed.


Lemma row_result_lookup j2len js newj2len j :
  row_result j2len js newj2len !! j
  = if bool_decide (j ∈ js) then Some (j2lenget j2len j + 1)
    else newj2len !! j.
Proof.
  revert newj2len. unfold row_result.
  induction js as [|j0 js IH] using rev_ind; intros newj2len.
  - done.
  - rewrite foldl_app. simpl. destruct (decide (j0 = j)) as [->|Hne].
    + rewrite lookup_insert_eq, bool_decide_eq_true_2; [done|].
      apply elem_of_app. right. by apply list_elem_of_singleton.
    + rewrite lookup_insert_ne by done. rewrite IH.
      destruct (decide (j ∈ js)) as [Hin|Hout].
      * rewrite !bool_decide_eq_true_2; [done | | done].
        apply elem_of_app. by left.
      * rewrite !bool_decide_eq_false_2; [done | | done].
        rewrite elem_of_app, list_elem_of_singleton. by intros [? | ?].
Qed.

(** Indices whose [k] does not beat the best so far leave it as it is. *)
Lemma scan_row_quiet js i bhi j2len newj2len bi bj bs :
  Forall (λ j, j < bhi ∧ j2lenget j2len j + 1 ≤ bs) js →
  scan_row js i 0 bhi j2len newj2len (bi, bj, bs)
  = (row_result j2len js newj2len, (bi, bj, bs)).
Proof.
  intros Hall. revert newj2len.
  induction Hall as [|j js [Hlt Hk] _ IH]; intros newj2len; [done|].
  simpl.
  destruct (bhi <=? j) eqn:Hb; [apply Nat.leb_le in Hb; lia|].
  destruct (bs <? j2lenget j2len j + 1) eqn:Hs;
    [apply Nat.ltb_lt in Hs; lia|].
  apply IH.
Qed.

Lemma run_step i j :
  run l (S i) (S j) = if bool_decide (j ∈ row l i) then run l i j + 1 else 0.
Proof. simpl. case_bool_decide; lia. Qed.

Lemma scan_row_step i j2len best :
  i < length l → rows_done l i j2len best →
  ∃ newj2len best',
    scan_row (row l i) i 0 (length l) j2len ∅ best = (newj2len, best') ∧
    rows_done l (S i) newj2len best'.
Proof.
  intros Hi (Hj2len & d & bs & -> & Hend & Hmax).
  assert (∀ j, j2lenget (row_result j2len (row l i) ∅) j = run l (S i) j)
    as Hnew.
  { intros [|j]; [done|]. unfold j2lenget at 1.
    rewrite row_result_lookup, run_step, lookup_empty, Hj2len.
    by case_bool_decide. }
  destruct (decide (i ∈ row l i)) as [Hin | Hout].
  - apply list_elem_of_split in Hin as (js1 & js2 & Hrow).
    pose proof (row_sorted i) as Hsorted. rewrite Hrow in Hsorted.
    assert (∀ j, j ∈ js1 → j ∈ row l i) as Hin1.
    { intros j Hj. rewrite Hrow. apply elem_of_app. by left. }
    assert (∀ j, j ∈ js2 → j ∈ row l i) as Hin2.
    { intros j Hj. rewrite Hrow. apply elem_of_app. right.
      apply elem_of_cons. by right. }
    assert (i ∈ row l i) as Hii.
    { rewrite Hrow. apply elem_of_app. right. apply elem_of_cons. by left. }
    assert (Forall (λ j, j < length l ∧ j2lenget j2len j + 1 ≤ bs) js1)
      as Hquiet1.
    { apply Forall_forall. intros j Hj. split; [by eapply row_lt, Hin1|].
      assert (j < i) as Hlt.
      { eapply (StronglySorted_app_1_elem_of lt js1 (i :: js2)); [done..|].
        apply elem_of_cons. by left. }
      rewrite Hj2len.
      pose proof (Hmax j i Hlt) as Hle.
      rewrite run_sym, run_step in Hle.
      rewrite bool_decide_eq_true_2 in Hle by (by apply Hin1). done. }
    set (k := j2lenget j2len i + 1).
    assert (k = run l i i + 1) as Hk by (unfold k; by rewrite Hj2len).
    assert (k ≤ i + 1) as Hki by (pose proof (run_le i i); lia).
    assert (Forall (λ j, j < length l ∧ j2lenget j2len j + 1 ≤ bs `max` k)
              js2) as Hquiet2.
    { apply Forall_forall. intros j Hj. split; [by eapply row_lt, Hin2|].
      rewrite Hj2len. pose proof (run_diag i j) as Hd. lia. }
    assert (∀ m, scan_row (js1 ++ i :: js2) i 0 (length l) j2len m (d, d, bs)
                 = scan_row (i :: js2) i 0 (length l) j2len
                     (row_result j2len js1 m) (d, d, bs)) as Happ.
    { clear -Hquiet1. induction Hquiet1 as [|j js [Hlt Hle] _ IH];
        intros m; [done|].
      simpl.
      destruct (length l <=? j) eqn:Hb; [apply Nat.leb_le in Hb; lia|].
      destruct (bs <? j2lenget j2len j + 1) eqn:Hs;
        [apply Nat.ltb_lt in Hs; lia|].
      apply IH. }
    exists (row_result j2len (row l i) ∅),
           (if bs <? k then (i + 1 - k, i + 1 - k, k) else (d, d, bs)).
    split.
    + rewrite Hrow, Happ. simpl.
      destruct (length l <=? i) eqn:Hb; [apply Nat.leb_le in Hb; lia|].
      fold k. unfold row_result at 2. rewrite foldl_app. simpl.
      fold (row_result j2len js1 ∅). fold k.
      destruct (bs <? k) eqn:Hs.
      * apply Nat.ltb_lt in Hs. apply scan_row_quiet.
        eapply Forall_impl; [exact Hquiet2|]. simpl. intros j [? ?]. lia.
      * apply Nat.ltb_ge in Hs. apply scan_row_quiet.
        eapply Forall_impl; [exact Hquiet2|]. simpl. intros j [? ?]. lia.
    + split; [done|].
      exists (if bs <? k then i + 1 - k else d), (bs `max` k).
      split; [|split].
      * destruct (bs <? k) eqn:Hs.
        -- apply Nat.ltb_lt in Hs. by rewrite Nat.max_r by lia.
        -- apply Nat.ltb_ge in Hs. by rewrite Nat.max_l by lia.
      * destruct (bs <? k) eqn:Hs.
        -- apply Nat.ltb_lt in Hs. lia.
        -- apply Nat.ltb_ge in Hs. lia.
      * intros i' j Hi'. destruct (decide (i' = i)) as [->|Hne].
        -- pose proof (run_diag (S i) (S j)) as Hd.
           rewrite (run_step i i) in Hd.
           rewrite bool_decide_eq_true_2 in Hd by done. lia.
        -- assert (i' < i) as Hlt by lia. specialize (Hmax i' j Hlt). lia.
  - assert (row l i = []) as Hnil.
    { destruct (decide (row l i = [])) as [|Hne]; [done|]. exfalso. apply Hout.
      destruct (row l i) as [|j js] eqn:Hrow; [done|]. rewrite <- Hrow.
      apply (row_diag i j). rewrite Hrow. apply elem_of_cons. by left. }
    exists ∅, (d, d, bs). split; [by rewrite Hnil|].
    split.
    { intros j. specialize (Hnew j). by rewrite Hnil in Hnew. }
    exists d, bs. split; [done|]. split; [lia|].
    intros i' j Hi'. destruct (decide (i' = i)) as [->|Hne].
    + rewrite run_step, Hnil.
      rewrite bool_decide_eq_false_2 by apply not_elem_of_nil. lia.
    + apply Hmax. lia.
Qed.

Lemma scan_rows_diag count i j2len best :
  i + count = length l → rows_done l i j2len best →
  ∃ d bs, scan_rows l (chain_b l) count i 0 (length l) j2len best
          = (d, d, bs) ∧ d + bs ≤ length l.
Proof.
  revert i j2len best. induction count as [|count IH];
    intros i j2len best Hlen Hdone.
  - destruct Hdone as (_ & d & bs & -> & Hend & _).
    exists d, bs. split; [done | lia].
  - simpl. fold (row l i).
    destruct (scan_row_step i j2len best) as (newj2len & best' & -> & Hdone');
      [lia | done |].
    apply IH; [lia | done].
Qed.


Lemma same_at_diag i : i < length l → same_at l l i i = true.
Proof.
  intros Hi. unfold same_at.
  destruct (lookup_lt_is_Some_2 l i Hi) as [x ->].
  by apply bool_decide_eq_true_2.
Qed.

Lemma junk_at_all junk i :
  (∀ x, junk x = true) → i < length l → junk_at l junk i = true.
Proof.
  intros Hjunk Hi. unfold junk_at.
  by destruct (lookup_lt_is_Some_2 l i Hi) as [x ->].
Qed.

Lemma extend_left_diag junk rounds d bs :
  (∀ x, junk x = true) → d ≤ rounds → d ≤ length l →
  extend_left l l junk rounds 0 0 (d, d, bs) = (0, 0, bs + d).
Proof.
  intros Hjunk. revert d bs.
  induction rounds as [|rounds IH]; intros d bs Hr Hd.
  - assert (d = 0) as -> by lia. simpl. by rewrite Nat.add_0_r.
  - simpl. destruct d as [|d]; simpl; [by rewrite Nat.add_0_r|].
    rewrite Nat.sub_0_r, junk_at_all, same_at_diag by (done || lia). simpl.
    rewrite IH by lia. f_equal. lia.
Qed.

Lemma extend_right_diag junk rounds bs :
  (∀ x, junk x = true) → bs + rounds = length l →
  extend_right l l junk rounds (length l) (length l) (0, 0, bs)
  = (0, 0, length l).
Proof.
  intros Hjunk. revert bs.
  induction rounds as [|rounds IH]; intros bs Hlen.
  - simpl. f_equal. lia.
  - simpl.
    destruct (bs <? length l) eqn:Hlt; [|apply Nat.ltb_ge in Hlt; lia].
    apply Nat.ltb_lt in Hlt.
    rewrite junk_at_all, same_at_diag by (done || lia). simpl.
    apply IH. lia.
Qed.

(** On two copies of one sequence the longest match is all of it. *)
Lemma find_longest_match_same :
  find_longest_match l l (chain_b l) 0 (length l) 0 (length l)
  = (0, 0, length l).
Proof.
  unfold find_longest_match. rewrite !Nat.sub_0_r.
  destruct (scan_rows_diag (length l) 0 ∅ (0, 0, 0)) as (d & bs & -> & Hend).
  { lia. }
  { split; [by intros [|j]|]. exists 0, 0. split; [done|]. split; [lia|].
    intros i' j Hi'. lia. }
  change (m_i (d, d, bs)) with d.
  rewrite (extend_left_diag _ d d bs) by (done || lia).
  change (m_i (0, 0, bs + d)) with 0.
  change (m_size (0, 0, bs + d)) with (bs + d).
  rewrite extend_right_diag by (done || lia).
  change (m_i (0, 0, length l)) with 0. simpl extend_left.
  change (m_i (0, 0, length l)) with 0.
  change (m_size (0, 0, length l)) with (length l).
  by replace (length l - (0 + length l)) with 0 by lia.
Qed.

Lemma match_queue_done b2j rounds blocks :
  match_queue l l b2j rounds [] blocks = blocks.
Proof. by destruct rounds. Qed.

Lemma get_matching_blocks_same :
  get_matching_blocks l l
  = if length l =? 0 then [(0, 0, 0)]
    else [(0, 0, length l); (length l, length l, 0)].
Proof.
  unfold get_matching_blocks.
  replace (2 * (length l + length l) + 1)
    with (S (2 * (length l + length l))) by lia.
  simpl match_queue. rewrite find_longest_match_same.
  destruct (length l =? 0) eqn:Hn.
  - apply Nat.eqb_eq in Hn. rewrite match_queue_done. simpl. by rewrite Hn.
  - change (0 + length l) with (length l).
    rewrite Nat.ltb_irrefl. simpl.
    rewrite match_queue_done. simpl.
    rewrite Hn. done.
Qed.

Lemma get_opcodes_same :
  get_opcodes l l
  = if length l =? 0 then [] else [(equal, 0, length l, 0, length l)].
Proof.
  unfold get_opcodes. rewrite get_matching_blocks_same.
  destruct (length l =? 0) eqn:Hn; [done|].
  simpl. rewrite Hn, Nat.ltb_irrefl. done.
Qed.

(** One trimmed [equal] opcode makes no group. *)
Lemma get_grouped_opcodes_same : get_grouped_opcodes l l 3 = [].
Proof.
  unfold get_grouped_opcodes. rewrite get_opcodes_same.
  destruct (length l =? 0) eqn:Hn; [done|].
  simpl.
  destruct (6 <? _) eqn:Hlong; [|done].
  apply Nat.ltb_lt in Hlong. lia.
Qed.

Lemma unified_diff_same fromfile tofile lineterm :
  unified_diff l l fromfile tofile 3 lineterm = [].
Proof. unfold unified_diff. by rewrite get_grouped_opcodes_same. Qed.

End SameSequence.

End DifflibFacts.

(* ================================================================= *)
(** ** Drift detection *)

Section DriftClaims.
Context `{ReEngine} `{Builtins}.

Lemma filter_loop_filter self lines filtered :
  filter_loop self lines filtered
  = filtered ++ filter (λ line, ignored self line = false) lines.
Proof.
  revert filtered. induction lines as [|line lines IH]; intros filtered.
  - by rewrite app_nil_r.
  - simpl. destruct (ignored self line) eqn:Hline.
    + rewrite IH. by rewrite filter_cons_False by (by rewrite Hline).
    + rewrite IH, filter_cons_True by done. by rewrite <- app_assoc.
Qed.

(** [_filter_lines] keeps, in order, the lines no pattern matches. *)
Lemma filter_lines_filter self lines :
  _filter_lines self lines = filter (λ line, ignored self line = false) lines.
Proof.
  unfold _filter_lines.
  destruct (_ignore_patterns self) as [|p ps] eqn:Hpats.
  - assert (∀ line, ignored self line = false) as Hnone
      by (intros line; unfold ignored; by rewrite Hpats).
    induction lines as [|line lines IH]; [done|].
    rewrite filter_cons_True by apply Hnone. by f_equal.
  - apply filter_loop_filter.
Qed.

Lemma filter_lines_ignored self before line after :
  ignored self line = true →
  _filter_lines self (before ++ line :: after)
  = _filter_lines self (before ++ after).
Proof.
  intros Hline. rewrite !filter_lines_filter, !filter_app.
  by rewrite filter_cons_False by (by rewrite Hline).
Qed.

(** [detect_drift] once both sources have delivered. *)
Lemma detect_drift_resolved self dev fr fb :
  _running_fetcher self dev = Returned fr →
  _baseline_loader self dev = Returned fb →
  success (_resolve fr "running_config") = true →
  success (_resolve fb "baseline_config") = true →
  detect_drift self dev
  = let diff_lines :=
      Difflib.unified_diff
        (_filter_lines self
           (splitlines (str (data (_resolve fb "baseline_config")))))
        (_filter_lines self
           (splitlines (str (data (_resolve fr "running_config")))))
        "baseline" "running" 3 "" in
    Returned
      (ToolOutput_.ok
         (PyDriftOutput
            {| device := dev;
               is_drifted := existsb counts_as_change diff_lines;
               diff := if existsb counts_as_change diff_lines
                       then Some (join (String (ascii_of_nat 10) "") diff_lines)
                       else None |})).
Proof.
  intros Hr Hb Hsr Hsb. unfold detect_drift.
  by rewrite Hr, Hsr, Hb, Hsb.
Qed.

(** X10. A successful result of [detect_drift] is a drift report for
    the device, and the report carries a diff exactly when it flags
    drift. *)
Lemma drift_report_diff_iff_flag self dev t :
  detect_drift self dev = Returned t → success t = true →
  ∃ d, data t = PyDriftOutput d ∧ device d = dev ∧
       (is_Some (diff d) ↔ is_drifted d = true).
Proof.
  unfold detect_drift. intros Hrun Hok.
  destruct (_running_fetcher self dev) as [fr|e]; [|done].
  destruct (success (_resolve fr "running_config")) eqn:Hsr; simpl in Hrun;
    [|simplify_eq; congruence].
  destruct (_baseline_loader self dev) as [fb|e]; [|done].
  destruct (success (_resolve fb "baseline_config")) eqn:Hsb; simpl in Hrun;
    [|simplify_eq; congruence].
  simplify_eq. eexists. split; [done|]. split; [done|]. simpl.
  destruct (existsb counts_as_change _); split; done.
Qed.

(** C6. Once both sources have delivered, [detect_drift] compares
    the filtered running lines with the filtered baseline lines:
    when the two filtered lists are equal it reports no drift and no
    diff.  A line an ignore pattern matches is dropped by the filter
    wherever it stands, so such a line on the running side only, or
    on the baseline side only, leaves the report at no drift. *)
Theorem drift_symmetry self dev fr fb :
  _running_fetcher self dev = Returned fr →
  _baseline_loader self dev = Returned fb →
  success (_resolve fr "running_config") = true →
  success (_resolve fb "baseline_config") = true →
  let running_lines :=
    splitlines (str (data (_resolve fr "running_config"))) in
  let baseline_lines :=
    splitlines (str (data (_resolve fb "baseline_config"))) in
  let no_drift :=
    Returned (ToolOutput_.ok
                (PyDriftOutput {| device := dev; is_drifted := false;
                                  diff := None |})) in
  (_filter_lines self running_lines = _filter_lines self baseline_lines →
   detect_drift self dev = no_drift) ∧
  (∀ before line after,
     ignored self line = true →
     running_lines = before ++ line :: after →
     baseline_lines = before ++ after →
     detect_drift self dev = no_drift) ∧
  (∀ before line after,
     ignored self line = true →
     running_lines = before ++ after →
     baseline_lines = before ++ line :: after →
     detect_drift self dev = no_drift).
Proof.
  intros Hr Hb Hsr Hsb running_lines baseline_lines no_drift.
  assert (_filter_lines self running_lines = _filter_lines self baseline_lines →
          detect_drift self dev = no_drift) as Hsame.
  { intros Heq. rewrite (detect_drift_resolved _ _ _ _ Hr Hb Hsr Hsb).
    fold running_lines baseline_lines. rewrite Heq.
    by rewrite DifflibFacts.unified_diff_same. }
  split; [done|]. split.
  - intros before line after Hline -> ->. apply Hsame.
    by apply filter_lines_ignored.
  - intros before line after Hline -> ->. apply Hsame.
    symmetry. by apply filter_lines_ignored.
Qed.

End DriftClaims.

(* ================================================================= *)
(** ** Compliance audits: rule resolution, composition and failure *)

Section AuditExtras.
Context `{ReEngine}.

Lemma audit_loop_app text rules1 rules2 acc :
  audit_loop text (rules1 ++ rules2) acc
  = match audit_loop text rules1 acc with
    | Returned vs => audit_loop text rules2 vs
    | Raised e => Raised e
    end.
Proof.
  revert acc. induction rules1 as [|rule rules1 IH]; intros acc; [done|].
  simpl. destruct (re_compile (pattern rule) [MULTILINE]); [apply IH | done].
Qed.

Lemma audit_loop_acc text rules acc vs :
  audit_loop text rules [] = Returned vs →
  audit_loop text rules acc = Returned (acc ++ vs).
Proof.
  intros Hrun.
  destruct (audit_loop_segments _ _ _ _ Hrun) as (segs & -> & Hsegs).
  clear Hrun. revert acc.
  induction Hsegs as [|rule seg rules segs (pat & Hc & ->) _ IH]; intros acc.
  - simpl. by rewrite app_nil_r.
  - simpl. rewrite Hc, IH. simpl. by rewrite app_assoc.
Qed.

Lemma audit_over_rules rules (name : string) :
  resolve_rules (ComplianceAuditTool_init (Some {[ name := rules ]}) None)
    name None = inr rules.
Proof.
  unfold resolve_rules, ComplianceAuditTool_init. simpl.
  rewrite lookup_singleton_eq. simpl. by destruct rules.
Qed.



(** X2. When the policy has no registered rules and the loader raises,
    the audit fails with [Failed to load compliance rules], whatever
    extra rules were passed. *)
Theorem loader_failure_fails_audit self text name extra loader e :
  default [] (_policy_rules self !! name) = [] →
  _rule_loader self = Some loader →
  loader name = Raised e →
  audit_config self text name extra
  = Returned (audit_failure "Failed to load compliance rules" name).
Proof.
  intros Hreg Hload Hrun. unfold audit_config, resolve_rules.
  by rewrite Hreg, Hload, Hrun.
Qed.

(** X3. Audits compose: when the audits over [rules1] and over
    [rules2] each return a report, the audit over [rules1 ++ rules2]
    returns the report whose violations are those of the first
    followed by those of the second, compliant exactly when both
    are. *)
Theorem audit_of_appended_rules rules1 rules2 text name report1 report2 :
  audit_over rules1 text name = Returned (ToolOutput_.ok (PyReport report1)) →
  audit_over rules2 text name = Returned (ToolOutput_.ok (PyReport report2)) →
  audit_over (rules1 ++ rules2) text name
  = Returned
      (ToolOutput_.ok
         (PyReport
            {| policy_name := name;
               is_compliant := is_compliant report1 && is_compliant report2;
               violations := violations report1 ++ violations report2 |})).
Proof.
  intros Hrun1 Hrun2.
  apply audit_config_report in Hrun1
    as (rs1 & Hres1 & Hne1 & Hloop1 & Hflag1 & _).
  apply audit_config_report in Hrun2
    as (rs2 & Hres2 & Hne2 & Hloop2 & Hflag2 & _).
  rewrite audit_over_rules in Hres1, Hres2. simplify_eq.
  unfold audit_over, audit_config. rewrite audit_over_rules.
  destruct (rs1 ++ rs2) as [|r rs] eqn:Happ.
  { by destruct rs1. }
  rewrite <- Happ, audit_loop_app, Hloop1.
  rewrite (audit_loop_acc _ _ _ _ Hloop2).
  repeat f_equal. rewrite Hflag1, Hflag2.
  destruct (violations report1), (violations report2); done.
Qed.

Lemma rule_violations_nil_iff text rule pat :
  re_compile (pattern rule) [MULTILINE] = Returned pat →
  rule_violations rule (re_finditer pat text) = [] ↔
  (mode rule = "required" → re_finditer pat text ≠ []) ∧
  (mode rule = "forbidden" → re_finditer pat text = []).
Proof.
  intros Hc. unfold rule_violations.
  destruct (decide (mode rule = "required")) as [Hr|Hr].
  - rewrite (bool_decide_eq_true_2 _ Hr). simpl.
    rewrite (bool_decide_eq_false_2 (mode rule = "forbidden")) by congruence.
    simpl. case_bool_decide as Hm.
    + split; [done|]. intros [Hreq _]. by destruct (Hreq Hr).
    + split; [|done]. intros _. split; [done | congruence].
  - rewrite (bool_decide_eq_false_2 _ Hr). simpl.
    destruct (decide (mode rule = "forbidden")) as [Hf|Hf].
    + rewrite (bool_decide_eq_true_2 _ Hf). simpl. case_bool_decide as Hm.
      * split.
        -- intros Hnil. apply fmap_nil_inv in Hnil. done.
        -- intros [_ Hforb]. by destruct Hm; apply Hforb.
      * split; [|done]. intros _. split; [done|]. intros _.
        by destruct (re_finditer pat text); [|destruct Hm].
    + rewrite (bool_decide_eq_false_2 _ Hf). simpl. done.
Qed.

(** X4. A report is compliant exactly when every resolved rule is
    satisfied by the text: each required pattern has a match and no
    forbidden pattern has one (a rule of another mode is satisfied by
    any text). *)
Theorem compliant_iff_rules_satisfied self text name extra report :
  audit_config self text name extra
    = Returned (ToolOutput_.ok (PyReport report)) →
  ∃ rules, resolve_rules self name extra = inr rules ∧
           (is_compliant report = true ↔ Forall (satisfied text) rules).
Proof.
  intros Hrun.
  apply audit_config_report in Hrun as (rules & Hres & _ & Hloop & Hflag & _).
  exists rules. split; [done|]. rewrite Hflag, bool_decide_eq_true.
  apply audit_loop_segments in Hloop as (segs & -> & Hsegs). simpl.
  clear Hres Hflag. induction Hsegs as [|rule seg rules segs (pat & Hc & ->) _ IH].
  - split; [by constructor | done].
  - simpl. rewrite Forall_cons. split.
    + intros Hnil. apply app_eq_nil in Hnil as [Hseg Hrest]. split.
      * exists pat. split; [done|]. by apply rule_violations_nil_iff.
      * by apply IH.
    + intros [(pat' & Hc' & Hsat) Hrest].
      assert (pat' = pat) as -> by congruence.
      apply IH in Hrest. rewrite Hrest, app_nil_r.
      by apply rule_violations_nil_iff.
Qed.

(** X5. The audit raises exactly when a resolved rule has a pattern
    that does not compile; the exception is that of the first such
    rule, and no report is returned whatever the rules before it
    found. *)
Theorem audit_raises_iff_pattern_rejected self text name extra e :
  audit_config self text name extra = Raised e ↔
  ∃ before rule after,
    resolve_rules self name extra = inr (before ++ rule :: after) ∧
    Forall compiles before ∧
    re_compile (pattern rule) [MULTILINE] = Raised e.
Proof.
  assert (∀ rules acc, audit_loop text rules acc = Raised e ↔
            ∃ before rule after, rules = before ++ rule :: after ∧
              Forall compiles before ∧
              re_compile (pattern rule) [MULTILINE] = Raised e) as Hloop.
  { induction rules as [|rule rules IH]; intros acc; simpl.
    - split; [done|]. intros (before & r & after & Heq & _).
      by destruct before.
    - destruct (re_compile (pattern rule) [MULTILINE]) as [pat|e'] eqn:Hc.
      + rewrite IH. split.
        * intros (before & r & after & -> & Hall & Hr).
          exists (rule :: before), r, after. split; [done|]. split; [|done].
          constructor; [by exists pat | done].
        * intros (before & r & after & Heq & Hall & Hr).
          destruct before as [|b before]; simpl in Heq;
            injection Heq as <- ->; [congruence|].
          apply Forall_cons in Hall as [_ Hall]. by exists before, r, after.
      + split.
        * intros [= ->]. by exists [], rule, rules.
        * intros (before & r & after & Heq & Hall & Hr).
          destruct before as [|b before]; simpl in Heq;
            injection Heq as <- ->; [congruence|].
          apply Forall_cons in Hall as [[pat Hpat] _]. congruence. }
  unfold audit_config.
  destruct (resolve_rules self name extra) as [t|[|rule rules]] eqn:Hres.
  - split; [done|]. by intros (? & ? & ? & ? & _).
  - split; [done|]. intros (before & ? & ? & Heq & _). by destruct before.
  - destruct (audit_loop text (rule :: rules) []) as [vs|e'] eqn:Hrun.
    + split; [done|]. intros (before & r & after & Heq & Hall & Hr).
      assert (audit_loop text (rule :: rules) [] = Raised e) as Hbad.
      { apply Hloop. exists before, r, after. by simplify_eq. }
      congruence.
    + split.
      * intros [= ->]. apply Hloop in Hrun as (before & r & after & -> & ? & ?).
        by exists before, r, after.
      * intros (before & r & after & Heq & Hall & Hr).
        assert (audit_loop text (rule :: rules) [] = Raised e) as Hbad.
        { apply Hloop. exists before, r, after. by simplify_eq. }
        congruence.
Qed.

(** X6. What [audit_config] returns is one of three things: a
    successful output carrying a report for the requested policy, or
    one of its two failures, each carrying no data and the policy
    name as detail. *)
Theorem audit_output_shape self text name extra t :
  audit_config self text name extra = Returned t →
  (∃ report, t = ToolOutput_.ok (PyReport report) ∧
             policy_name report = name) ∨
  t = audit_failure "Failed to load compliance rules" name ∨
  t = audit_failure "No compliance rules defined" name.
Proof.
  unfold audit_config. intros Hrun.
  destruct (resolve_rules self name extra) as [t'|[|rule rules]] eqn:Hres.
  - right. left. simplify_eq. unfold resolve_rules in Hres.
    repeat (case_match; simplify_eq); done.
  - right. right. by simplify_eq.
  - left. destruct (audit_loop text (rule :: rules) []); [|done].
    simplify_eq. by eexists.
Qed.

End AuditExtras.

(* ================================================================= *)
(** ** Drift detection: failing sources, the line filter and the constructor *)

Section DriftExtras.
Context `{ReEngine} `{Builtins}.

(** X7. A source that fails ends the drift check with its own
    failure: a failed output of the running fetcher is returned as it
    is and the baseline loader's answer plays no part; a source that
    returns [None] gives [<label> not available]; an exception of a
    source propagates. *)
Theorem drift_source_failures self dev :
  (∀ t, _running_fetcher self dev = Returned (FetchedOutput t) →
        success t = false → detect_drift self dev = Returned t) ∧
  (_running_fetcher self dev = Returned (FetchedValue PyNone) →
   detect_drift self dev
   = Returned (ToolOutput_.fail "running_config not available" None None)) ∧
  (∀ e, _running_fetcher self dev = Raised e →
        detect_drift self dev = Raised e) ∧
  (∀ fr, _running_fetcher self dev = Returned fr →
         success (_resolve fr "running_config") = true →
         (∀ t, _baseline_loader self dev = Returned (FetchedOutput t) →
               success t = false → detect_drift self dev = Returned t) ∧
         (_baseline_loader self dev = Returned (FetchedValue PyNone) →
          detect_drift self dev
          = Returned (ToolOutput_.fail "baseline_config not available"
                        None None)) ∧
         (∀ e, _baseline_loader self dev = Raised e →
               detect_drift self dev = Raised e)).
Proof.
  unfold detect_drift. split; [|split; [|split]].
  - intros t -> Ht. simpl. by rewrite Ht.
  - by intros ->.
  - by intros e ->.
  - intros fr -> Hok. rewrite Hok. simpl. split; [|split].
    + intros t -> Ht. simpl. by rewrite Ht.
    + by intros ->.
    + by intros e ->.
Qed.

(** X8. [_filter_lines] keeps the lines no ignore pattern matches, in
    their order: its result is a sublist of the input holding exactly
    the lines that are not ignored; filtering twice is filtering once;
    and filtering a concatenation is concatenating the filtered
    parts. *)
Theorem filter_lines_keeps_unignored self lines :
  sublist (_filter_lines self lines) lines ∧
  (∀ line, line ∈ _filter_lines self lines ↔
           line ∈ lines ∧ ignored self line = false) ∧
  _filter_lines self (_filter_lines self lines) = _filter_lines self lines ∧
  (∀ more, _filter_lines self (lines ++ more)
           = _filter_lines self lines ++ _filter_lines self more).
Proof.
  rewrite !filter_lines_filter. split; [|split; [|split]].
  - apply sublist_filter.
  - intros line. rewrite list_elem_of_filter. tauto.
  - by apply list_filter_filter_l.
  - intros more. by rewrite !filter_lines_filter, filter_app.
Qed.

Lemma compile_all_spec pats ps :
  compile_all pats = Returned ps →
  Forall2 (λ pat p, re_compile pat [] = Returned p) pats ps.
Proof.
  revert ps. induction pats as [|pat pats IH]; intros ps Hrun; simpl in Hrun.
  - simplify_eq. constructor.
  - destruct (re_compile pat []) as [p|e] eqn:Hc; [|done].
    destruct (compile_all pats) as [ps'|e]; [|done].
    simplify_eq. constructor; [done | by apply IH].
Qed.

Lemma compile_all_raises pats e :
  compile_all pats = Raised e ↔
  ∃ before pat after, pats = before ++ pat :: after ∧
    Forall (λ p, ∃ c, re_compile p [] = Returned c) before ∧
    re_compile pat [] = Raised e.
Proof.
  induction pats as [|pat pats IH]; simpl.
  - split; [done|]. intros (before & ? & ? & Heq & _). by destruct before.
  - destruct (re_compile pat []) as [p|e'] eqn:Hc.
    + destruct (compile_all pats) as [ps|e'] eqn:Hrest.
      * split; [done|]. intros (before & r & after & Heq & Hall & Hr).
        destruct before as [|b before]; simpl in Heq;
          injection Heq as <- ->; [congruence|].
        apply Forall_cons in Hall as [_ Hall].
        assert (@Returned (list Pattern) ps = Raised e) as Hbad; [|done].
        apply IH. by exists before, r, after.
      * split.
        -- intros [= ->]. destruct (proj1 IH eq_refl)
             as (before & r & after & -> & Hall & Hr).
           exists (pat :: before), r, after. split; [done|]. split; [|done].
           constructor; [by exists p | done].
        -- intros (before & r & after & Heq & Hall & Hr).
           destruct before as [|b before]; simpl in Heq;
             injection Heq as <- ->; [congruence|].
           apply Forall_cons in Hall as [_ Hall].
           rewrite (proj2 IH); [done|]. by exists before, r, after.
    + split.
      * intros [= ->]. by exists [], pat, pats.
      * intros (before & r & after & Heq & Hall & Hr).
        destruct before as [|b before]; simpl in Heq;
          injection Heq as <- ->; [congruence|].
        apply Forall_cons in Hall as [[c Hcc] _]. congruence.
Qed.

(** X9. The constructor compiles every ignore pattern without flags
    and in order.  It raises exactly when a pattern is rejected, with
    the exception of the first such pattern; a tool built without
    patterns filters nothing. *)
Theorem drift_tool_construction running baseline ignore :
  (∀ tool,
     ConfigDriftDetectionTool_init running baseline ignore = Returned tool →
     _running_fetcher tool = running ∧ _baseline_loader tool = baseline ∧
     Forall2 (λ pat p, re_compile pat [] = Returned p)
       (default [] ignore) (_ignore_patterns tool) ∧
     (default [] ignore = [] → ∀ lines, _filter_lines tool lines = lines)) ∧
  (∀ e,
     ConfigDriftDetectionTool_init running baseline ignore = Raised e ↔
     ∃ before pat after,
       default [] ignore = before ++ pat :: after ∧
       Forall (λ p, ∃ c, re_compile p [] = Returned c) before ∧
       re_compile pat [] = Raised e).
Proof.
  unfold ConfigDriftDetectionTool_init. split.
  - intros tool Hinit.
    destruct (compile_all (default [] ignore)) as [ps|e] eqn:Hc; [|done].
    simplify_eq. simpl. repeat split; [by apply compile_all_spec|].
    intros Hnil lines. rewrite Hnil in Hc. simpl in Hc. simplify_eq.
    done.
  - intros e. rewrite <- compile_all_raises.
    destruct (compile_all (default [] ignore)); split; congruence.
Qed.

End DriftExtras.

(* ================================================================= *)
(** ** Snapshots: what is committed, and which failures are fatal *)

Section SnapshotExtras.
Context `{Backend} `{Builtins}.

(** X13. A failure of the fetcher ends the backup before anything is
    written: a failed output is returned as it is, an exception
    propagates, and the world is left untouched. *)
Theorem backup_fetch_failure_passthrough self device w :
  (∀ t, _config_fetcher self device = Returned (FetchedOutput t) →
        success t = false →
        backup_config self device w = (Returned t, w)) ∧
  (∀ e, _config_fetcher self device = Raised e →
        backup_config self device w = (Raised e, w)).
Proof.
  unfold backup_config. split.
  - intros t -> Ht. run_m. by rewrite Ht.
  - by intros e ->.
Qed.

(** X14. What [backup_config] commits: a text is committed as it is
    and the serializer is not called; any other value is committed as
    the serializer's output, or as [json.dumps]' output when no
    serializer is configured; when serializing raises, the exception
    propagates and nothing is written. *)
Theorem backup_commits_serialized self device fetched v w :
  _config_fetcher self device = Returned fetched →
  delivers fetched v →
  (∀ s, v = PyStr s →
        backup_config self device w
        = commit_config (_version_control self) device s
            (backup_message device (utcnow_isoformat w)) w) ∧
  (structured v →
   ∀ to_text, to_text = default json_dumps (_serializer self) →
     (∀ text, to_text v = Returned text →
              backup_config self device w
              = commit_config (_version_control self) device text
                  (backup_message device (utcnow_isoformat w)) w) ∧
     (∀ e, to_text v = Raised e →
           backup_config self device w = (Raised e, w))).
Proof.
  intros Hfetch Hv. unfold backup_config. rewrite Hfetch.
  assert (match fetched with
          | FetchedOutput t => if negb (success t) then inl t else inr (data t)
          | FetchedValue v0 => inr v0
          end = (inr v : ToolOutput + Any)) as Hcontent.
  { destruct Hv as [-> | (t & -> & Hs & <-)]; [done|]. by rewrite Hs. }
  run_m. rewrite Hcontent. split.
  - by intros s ->.
  - intros [Hnone Hstr] to_text ->. split.
    + intros text Htext.
      destruct v; try done; [by destruct (Hstr s)|..];
        destruct (_serializer self); simpl in *; by rewrite Htext.
    + intros e Htext.
      destruct v; try done; [by destruct (Hstr s)|..];
        destruct (_serializer self); simpl in *; by rewrite Htext.
Qed.

(** X15. A failure of [mkdir] or of [write_text] is fatal:
    [commit_config] raises the exception, in the world the failing
    call left, and no repository operation follows. *)
Theorem write_failure_is_fatal self device content msg w :
  (∀ e w1,
     mkdir (path_join (_repo_path self) "configs") w = (Raised e, w1) →
     commit_config self device content msg w = (Raised e, w1)) ∧
  (∀ e w1 w2,
     mkdir (path_join (_repo_path self) "configs") w = (Returned (), w1) →
     write_text (snapshot_path (_repo_path self) device) content w1
       = (Raised e, w2) →
     commit_config self device content msg w = (Raised e, w2)).
Proof.
  unfold commit_config, snapshot_path. split.
  - intros e w1 Hmk. unfold bind at 1. by rewrite Hmk.
  - intros e w1 w2 Hmk Hwr. unfold bind at 1. rewrite Hmk.
    unfold bind at 1. by rewrite Hwr.
Qed.

(** X16. Only [GitCommandError] is swallowed.  With the snapshot
    written and a repository present, a [ValueError] of [relative_to]
    and any other exception of [index.add], [is_dirty] or
    [index.commit] make [commit_config] raise it. *)
Theorem other_errors_propagate self device content msg w w1 w2 repo :
  mkdir (path_join (_repo_path self) "configs") w = (Returned (), w1) →
  write_text (snapshot_path (_repo_path self) device) content w1
    = (Returned (), w2) →
  _repo self = Some repo →
  (∀ e, rel_path_of repo (snapshot_path (_repo_path self) device) = Raised e →
        commit_config self device content msg w = (Raised e, w2)) ∧
  (∀ rel, rel_path_of repo (snapshot_path (_repo_path self) device)
            = Returned rel →
     (∀ e w3, is_GitCommandError e = false →
        index_add repo [rel] w2 = (Raised e, w3) →
        commit_config self device content msg w = (Raised e, w3)) ∧
     (∀ e w3 w4, is_GitCommandError e = false →
        index_add repo [rel] w2 = (Returned (), w3) →
        is_dirty repo true false true w3 = (Raised e, w4) →
        commit_config self device content msg w = (Raised e, w4)) ∧
     (∀ e w3 w4 w5, is_GitCommandError e = false →
        index_add repo [rel] w2 = (Returned (), w3) →
        is_dirty repo true false true w3 = (Returned true, w4) →
        index_commit repo msg w4 = (Raised e, w5) →
        commit_config self device content msg w = (Raised e, w5))).
Proof.
  intros Hmk Hwr Hrepo.
  rewrite (commit_config_written _ _ _ _ _ _ _ Hmk Hwr), Hrepo.
  split.
  - intros e Hrel. run_m. by rewrite Hrel.
  - intros rel Hrel. unfold stage_and_commit. repeat split.
    + intros e w3 He Hadd. run_m. rewrite Hrel. simpl.
      by rewrite Hadd, He.
    + intros e w3 w4 He Hadd Hdirty. run_m. rewrite Hrel. simpl.
      by rewrite Hadd, Hdirty, He.
    + intros e w3 w4 w5 He Hadd Hdirty Hcommit. run_m. rewrite Hrel. simpl.
      by rewrite Hadd, Hdirty, Hcommit, He.
Qed.

(** X17. With the snapshot written and staged, [is_dirty] decides:
    when it answers no, [commit_config] returns a null commit hash
    and [index.commit] is not called (the world is the one [is_dirty]
    left); when it answers yes, the result carries the [hexsha] of the
    commit [index.commit] made with the given message. *)
Theorem commit_follows_is_dirty self device content msg w w1 w2 repo rel w3 :
  mkdir (path_join (_repo_path self) "configs") w = (Returned (), w1) →
  write_text (snapshot_path (_repo_path self) device) content w1
    = (Returned (), w2) →
  _repo self = Some repo →
  rel_path_of repo (snapshot_path (_repo_path self) device) = Returned rel →
  index_add repo [rel] w2 = (Returned (), w3) →
  (∀ w4, is_dirty repo true false true w3 = (Returned false, w4) →
         commit_config self device content msg w
         = (Returned (unversioned (snapshot_path (_repo_path self) device)
                        device), w4)) ∧
  (∀ w4 w5 commit,
     is_dirty repo true false true w3 = (Returned true, w4) →
     index_commit repo msg w4 = (Returned commit, w5) →
     commit_config self device content msg w
     = (Returned (versioned (snapshot_path (_repo_path self) device)
                    device (hexsha commit)), w5)).
Proof.
  intros Hmk Hwr Hrepo Hrel Hadd.
  rewrite (commit_config_written _ _ _ _ _ _ _ Hmk Hwr), Hrepo.
  unfold stage_and_commit. split.
  - intros w4 Hdirty. run_m. rewrite Hrel. simpl. by rewrite Hadd, Hdirty.
  - intros w4 w5 commit Hdirty Hcommit. run_m. rewrite Hrel. simpl.
    by rewrite Hadd, Hdirty, Hcommit.
Qed.

(** X19. Branch pinning in [_try_load_repo], once the repository is
    open: without a branch, or on the branch asked for, nothing is
    checked out; otherwise the branch is checked out, and a
    [GitCommandError] of the checkout still yields the repository. *)
Theorem branch_pinning repo_path branch w repo w1 :
  gitpython_installed = true →
  Repo_open repo_path w = (Returned repo, w1) →
  (branch_set branch = None →
   _try_load_repo repo_path branch w = (Returned (Some repo), w1)) ∧
  (∀ br name w2,
     branch_set branch = Some br →
     active_branch_name repo w1 = (Returned name, w2) →
     (name = br →
      _try_load_repo repo_path branch w = (Returned (Some repo), w2)) ∧
     (name ≠ br →
      (∀ w3, git_checkout repo br w2 = (Returned (), w3) →
             _try_load_repo repo_path branch w = (Returned (Some repo), w3)) ∧
      (∀ err w3, git_checkout repo br w2 = (Raised (GitCommandError err), w3) →
             _try_load_repo repo_path branch w
             = (Returned (Some repo), w3)))).
Proof.
  intros Hinst Hopen. unfold _try_load_repo. rewrite Hinst. simpl.
  split.
  - intros Hb. run_m. by rewrite Hopen, Hb.
  - intros br name w2 Hb Hname. split.
    + intros ->. run_m. rewrite Hopen, Hb. simpl. rewrite Hname.
      by rewrite bool_decide_eq_false_2 by (intros Hne; by apply Hne).
    + intros Hne. split.
      * intros w3 Hco. run_m. rewrite Hopen, Hb. simpl. rewrite Hname.
        rewrite bool_decide_eq_true_2 by done. by rewrite Hco.
      * intros err w3 Hco. run_m. rewrite Hopen, Hb. simpl. rewrite Hname.
        rewrite bool_decide_eq_true_2 by done. by rewrite Hco.
Qed.

End SnapshotExtras.

(* ================================================================= *)
(** ** [SequenceMatcher] on any two sequences: true blocks, in order *)

Module DifflibBlocks.
Import Difflib.

Lemma apart_sym x y : apart x y → apart y x.
Proof.
  destruct x as [[[??]?]?], y as [[[??]?]?]. simpl. tauto.
Qed.

Lemma all_apart_perm l1 l2 : l1 ≡ₚ l2 → all_apart l1 → all_apart l2.
Proof.
  induction 1 as [|x l1 l2 Hp IH|x y l|l1 l2 l3 _ IH1 _ IH2]; simpl.
  - done.
  - intros [Hx Hl]. split; [by rewrite <- Hp | by apply IH].
  - intros [Hy [Hx Hl]]. apply Forall_cons in Hy as [Hyx Hy].
    repeat split; try done. constructor; [by apply apart_sym | done].
  - auto.
Qed.

Lemma apart_inside alo ahi blo bhi alo' ahi' blo' bhi' y :
  alo ≤ alo' → ahi' ≤ ahi → blo ≤ blo' → bhi' ≤ bhi →
  apart (alo, ahi, blo, bhi) y → apart (alo', ahi', blo', bhi') y.
Proof. destruct y as [[[??]?]?]. simpl. lia. Qed.

#[local] Instance match_le_trans : Transitive match_le.
Proof.
  intros [[??]?] [[??]?] [[??]?]. simpl. lia.
Qed.

#[local] Instance match_le_total : Total match_le.
Proof.
  intros [[??]?] [[??]?]. simpl. lia.
Qed.

Section Blocks.
Variables a b : list string.

Lemma rows_of_chain_b : rows_of_b b (chain_b b).
Proof.
  intros elt j Hj.
  destruct (DifflibFacts.chain_b_lookup b elt) as [Hrow | Hrow];
    rewrite Hrow in Hj.
  - by apply elem_of_nil in Hj.
  - apply DifflibFacts.elem_of_indices_from in Hj as [_ Hj].
    by rewrite Nat.sub_0_r in Hj.
Qed.

Lemma j2lenget_true alo blo i j2len j :
  true_runs a b alo blo i j2len → alo ≤ i → blo ≤ j →
  j2lenget j2len j + alo ≤ i ∧ j2lenget j2len j + blo ≤ j ∧
  ∀ t, t < j2lenget j2len j → a !! (i - 1 - t) = b !! (j - 1 - t).
Proof.
  intros Hruns Hi Hj. destruct j as [|j]; simpl.
  - repeat split; [lia | lia | intros t Ht; lia].
  - destruct (j2len !! j) as [v|] eqn:Hv; simpl.
    + destruct (Hruns _ _ Hv) as (? & ? & Hsame).
      repeat split; [lia | lia |]. intros t Ht.
      rewrite Nat.sub_0_r. by apply Hsame.
    + repeat split; [lia | lia | intros t Ht; lia].
Qed.

Lemma scan_row_true js elt alo ahi i blo bhi j2len newj2len best :
  a !! i = Some elt → (∀ j, j ∈ js → b !! j = Some elt) →
  alo ≤ i → i < ahi →
  true_runs a b alo blo i j2len →
  true_runs a b alo blo (S i) newj2len →
  true_match a b best → within alo ahi blo bhi best →
  true_runs a b alo blo (S i) (scan_row js i blo bhi j2len newj2len best).1 ∧
  true_match a b (scan_row js i blo bhi j2len newj2len best).2 ∧
  within alo ahi blo bhi (scan_row js i blo bhi j2len newj2len best).2.
Proof.
  intros Hai Hjs Hlo Hhi Hold. revert newj2len best.
  induction js as [|j js IH]; intros newj2len best Hnew Htrue Hin; [done|].
  simpl. destruct (j <? blo) eqn:Hjlo.
  { apply IH; [|done..]. intros j' Hj'. apply Hjs. by right. }
  destruct (bhi <=? j) eqn:Hjhi; [done|].
  apply Nat.ltb_ge in Hjlo. apply Nat.leb_gt in Hjhi.
  destruct best as [[bi bj] bs].
  destruct (j2lenget_true alo blo i j2len j Hold Hlo Hjlo) as (Hka & Hkb & Hsame).
  assert (b !! j = Some elt) as Hbj by (apply Hjs; by left).
  assert (i < length a) as Hia by (by eapply lookup_lt_Some).
  assert (j < length b) as Hjb by (by eapply lookup_lt_Some).
  assert (∀ t, t < j2lenget j2len j + 1 → a !! (i - t) = b !! (j - t))
    as Hrun.
  { intros [|t] Ht.
    - rewrite !Nat.sub_0_r. congruence.
    - replace (i - S t) with (i - 1 - t) by lia.
      replace (j - S t) with (j - 1 - t) by lia. apply Hsame. lia. }
  apply IH.
  - intros j' Hj'. apply Hjs. by right.
  - intros j' v. rewrite lookup_insert. case_decide as Hjj; [|by apply Hnew].
    intros [= <-]. subst j'. repeat split; [lia | lia |].
    intros t Ht. replace (S i - 1 - t) with (i - t) by lia. by apply Hrun.
  - destruct (bs <? j2lenget j2len j + 1); [|done].
    simpl. repeat split; [lia | lia |]. intros t Ht.
    replace (i + 1 - (j2lenget j2len j + 1) + t)
      with (i - (j2lenget j2len j - t)) by lia.
    replace (j + 1 - (j2lenget j2len j + 1) + t)
      with (j - (j2lenget j2len j - t)) by lia.
    apply Hrun. lia.
  - destruct (bs <? j2lenget j2len j + 1); [|done].
    simpl. lia.
Qed.

Lemma scan_rows_true b2j count alo ahi i blo bhi j2len best :
  rows_of_b b b2j → alo ≤ i → i + count ≤ ahi →
  true_runs a b alo blo i j2len →
  true_match a b best → within alo ahi blo bhi best →
  true_match a b (scan_rows a b2j count i blo bhi j2len best) ∧
  within alo ahi blo bhi (scan_rows a b2j count i blo bhi j2len best).
Proof.
  intros Hb2j. revert i j2len best. induction count as [|count IH];
    intros i j2len best Hlo Hhi Hruns Htrue Hin; [done|].
  simpl. destruct (a !! i) as [elt|] eqn:Hai.
  - pose proof (scan_row_true (default [] (b2j !! elt)) elt alo ahi i blo bhi
                  j2len ∅ best Hai (Hb2j elt) Hlo) as Hrow.
    destruct (scan_row (default [] (b2j !! elt)) i blo bhi j2len ∅ best)
      as [newj2len best'].
    destruct Hrow as (Hr & Ht & Hw); [lia | done | | done | done |].
    { intros j v. by rewrite lookup_empty. }
    apply IH; [lia | lia | done..].
  - simpl. apply IH; [lia | lia | | done | done].
    intros j v. by rewrite lookup_empty.
Qed.

Lemma same_at_lookup i j :
  same_at a b i j = true → a !! i = b !! j ∧ i < length a ∧ j < length b.
Proof.
  unfold same_at. destruct (a !! i) as [x|] eqn:Hx; [|done].
  destruct (b !! j) as [y|] eqn:Hy; [|done].
  intros Heq. apply bool_decide_eq_true in Heq as ->.
  repeat split; by eapply lookup_lt_Some.
Qed.

Lemma extend_left_true junk rounds alo ahi blo bhi m :
  true_match a b m → within alo ahi blo bhi m →
  true_match a b (extend_left a b junk rounds alo blo m) ∧
  within alo ahi blo bhi (extend_left a b junk rounds alo blo m).
Proof.
  revert m. induction rounds as [|rounds IH]; intros [[bi bj] bs] Ht Hw;
    [done|].
  simpl. destruct (alo <? bi) eqn:Hi; simpl; [|done].
  destruct (blo <? bj) eqn:Hj; simpl; [|done].
  destruct (junk_at b junk (bj - 1)); simpl; [|done].
  destruct (same_at a b (bi - 1) (bj - 1)) eqn:Hsame; [|done].
  apply Nat.ltb_lt in Hi, Hj. apply same_at_lookup in Hsame as (Hs & _ & _).
  simpl in Ht, Hw. destruct Ht as (? & ? & Ht).
  apply IH; simpl; [|lia]. repeat split; [lia | lia |].
  intros [|t] Hlt.
  - by rewrite !Nat.add_0_r.
  - replace (bi - 1 + S t) with (bi + t) by lia.
    replace (bj - 1 + S t) with (bj + t) by lia. apply Ht. lia.
Qed.

Lemma extend_right_true junk rounds alo ahi blo bhi m :
  ahi ≤ length a → bhi ≤ length b →
  true_match a b m → within alo ahi blo bhi m →
  true_match a b (extend_right a b junk rounds ahi bhi m) ∧
  within alo ahi blo bhi (extend_right a b junk rounds ahi bhi m).
Proof.
  intros Ha Hb. revert m.
  induction rounds as [|rounds IH]; intros [[bi bj] bs] Ht Hw; [done|].
  simpl. destruct (bi + bs <? ahi) eqn:Hi; simpl; [|done].
  destruct (bj + bs <? bhi) eqn:Hj; simpl; [|done].
  destruct (junk_at b junk (bj + bs)); simpl; [|done].
  destruct (same_at a b (bi + bs) (bj + bs)) eqn:Hsame; [|done].
  apply Nat.ltb_lt in Hi, Hj. apply same_at_lookup in Hsame as (Hs & _ & _).
  simpl in Ht, Hw. destruct Ht as (? & ? & Ht).
  apply IH; simpl; [|lia]. repeat split; [lia | lia |].
  intros t Hlt. destruct (decide (t = bs)) as [->|Hne]; [done|].
  apply Ht. lia.
Qed.

(** The block [find_longest_match] returns for a window is a true
    match inside the window. *)
Lemma find_longest_match_true b2j alo ahi blo bhi :
  rows_of_b b b2j → window_ok a b (alo, ahi, blo, bhi) →
  true_match a b (find_longest_match a b b2j alo ahi blo bhi) ∧
  within alo ahi blo bhi (find_longest_match a b b2j alo ahi blo bhi).
Proof.
  intros Hb2j (Ha1 & Ha2 & Hb1 & Hb2). unfold find_longest_match.
  destruct (scan_rows_true b2j (ahi - alo) alo ahi alo blo bhi ∅ (alo, blo, 0)
              Hb2j) as [Ht0 Hw0].
  { lia. } { lia. } { intros j v. by rewrite lookup_empty. }
  { simpl. repeat split; [lia | lia | intros t Ht; lia]. }
  { simpl. lia. }
  set (m0 := scan_rows _ _ _ _ _ _ _ _) in *.
  destruct (extend_left_true (λ x, negb (isbjunk x)) (m_i m0 - alo)
              alo ahi blo bhi m0 Ht0 Hw0) as [Ht1 Hw1].
  set (m1 := extend_left _ _ _ _ _ _ m0) in *.
  destruct (extend_right_true (λ x, negb (isbjunk x))
              (ahi - (m_i m1 + m_size m1)) alo ahi blo bhi m1 Ha2 Hb2 Ht1 Hw1)
    as [Ht2 Hw2].
  set (m2 := extend_right _ _ _ _ _ _ m1) in *.
  destruct (extend_left_true isbjunk (m_i m2 - alo)
              alo ahi blo bhi m2 Ht2 Hw2) as [Ht3 Hw3].
  set (m3 := extend_left _ _ _ _ _ _ m2) in *.
  by apply extend_right_true.
Qed.

(** The queue loop keeps its blocks true, non-empty, and apart from
    each other and from the windows still to be searched. *)
Lemma match_queue_apart b2j rounds queue blocks :
  rows_of_b b b2j →
  Forall (window_ok a b) queue →
  Forall (λ m, true_match a b m ∧ 0 < m_size m) blocks →
  all_apart (queue ++ (window_of <$> blocks)) →
  Forall (λ m, true_match a b m ∧ 0 < m_size m)
    (match_queue a b b2j rounds queue blocks) ∧
  all_apart (window_of <$> match_queue a b b2j rounds queue blocks).
Proof.
  intros Hb2j. revert queue blocks.
  induction rounds as [|rounds IH]; intros queue blocks Hq Hb Hap.
  { simpl. split; [done|].
    induction queue as [|e queue IHq]; [done|].
    apply IHq; [by apply Forall_cons in Hq as [_ ?] | by destruct Hap]. }
  destruct queue as [|[[[alo ahi] blo] bhi] queue]; [done|].
  apply Forall_cons in Hq as [Hwin Hq]. simpl in Hap. destruct Hap as [HR Hap].
  simpl.
  destruct (find_longest_match_true b2j alo ahi blo bhi Hb2j Hwin)
    as [Ht Hw].
  destruct (find_longest_match a b b2j alo ahi blo bhi) as [[i j] k].
  destruct (k =? 0) eqn:Hk; [by apply IH|].
  apply Nat.eqb_neq in Hk. simpl in Hw. destruct Hwin as (?&?&?&?).
  assert (Forall (apart (i, i + k, j, j + k)) (queue ++ (window_of <$> blocks)))
    as HX.
  { eapply Forall_impl; [exact HR|]. intros y.
    apply apart_inside; lia. }
  assert (Forall (apart (alo, i, blo, j)) (queue ++ (window_of <$> blocks)))
    as HL.
  { eapply Forall_impl; [exact HR|]. intros y.
    apply apart_inside; lia. }
  assert (Forall (apart (i + k, ahi, j + k, bhi))
            (queue ++ (window_of <$> blocks))) as HRr.
  { eapply Forall_impl; [exact HR|]. intros y.
    apply apart_inside; lia. }
  apply IH.
  - destruct (alo <? i) eqn:Hc1; destruct (blo <? j) eqn:Hc2;
      destruct (i + k <? ahi) eqn:Hc3; destruct (j + k <? bhi) eqn:Hc4; simpl;
      repeat (apply Forall_cons; split); try done; simpl;
      rewrite ?Nat.ltb_lt in *; lia.
  - apply Forall_app. split; [done|]. apply Forall_singleton.
    split; [done|]. unfold m_size. simpl. lia.
  - rewrite fmap_app. simpl.
    eapply all_apart_perm.
    { rewrite app_assoc. apply Permutation_cons_append. }
    set (queue1 := if (alo <? i) && (blo <? j)
                   then (alo, i, blo, j) :: queue else queue).
    assert (all_apart (queue1 ++ (window_of <$> blocks)) ∧
            Forall (apart (i, i + k, j, j + k))
              (queue1 ++ (window_of <$> blocks)) ∧
            Forall (apart (i + k, ahi, j + k, bhi))
              (queue1 ++ (window_of <$> blocks))) as (Hap1 & HX1 & HRr1).
    { unfold queue1. destruct ((alo <? i) && (blo <? j)); simpl;
        repeat split; try done; constructor; try done; simpl; lia. }
    simpl. destruct ((i + k <? ahi) && (j + k <? bhi)); simpl;
      repeat split; try done.
    constructor; [simpl; lia | done].
Qed.

Lemma advance_weaken i j i' j' blocks :
  i' ≤ i → j' ≤ j → advance a b i j blocks → advance a b i' j' blocks.
Proof.
  destruct blocks as [|[[ai bj] size] rest]; [done|]. simpl.
  intros ?? (?&?&?&?). split; [lia|]. split; [lia|]. done.
Qed.

Lemma advance_drop_last i j blocks x :
  advance a b i j (blocks ++ [x]) → advance a b i j blocks.
Proof.
  revert i j. induction blocks as [|[[ai bj] size] rest IH]; intros i j;
    [done|].
  simpl. intros (?&?&?&?). split; [lia|]. split; [lia|]. split; [done|].
  by apply IH.
Qed.

Lemma advance_skip i j blocks x rest :
  advance a b i j (blocks ++ x :: rest) → advance a b i j (blocks ++ rest).
Proof.
  revert i j. induction blocks as [|[[ai bj] size] blocks IH]; intros i j.
  - simpl. destruct x as [[xi xj] xk]. intros (?&?&(?&?&?)&Hrest).
    eapply advance_weaken; [| |exact Hrest]; lia.
  - simpl. intros (?&?&?&?). split; [lia|]. split; [lia|]. split; [done|].
    by apply IH.
Qed.

Lemma advance_merge i j blocks i1 j1 k1 k2 rest :
  advance a b i j (blocks ++ (i1, j1, k1) :: (i1 + k1, j1 + k1, k2) :: rest) →
  advance a b i j (blocks ++ (i1, j1, k1 + k2) :: rest).
Proof.
  revert i j. induction blocks as [|[[ai bj] size] blocks IH]; intros i j.
  - simpl. intros (?&?&(?&?&Hfst)&_&_&(?&?&Hsnd)&Hrest).
    split; [lia|]. split; [lia|]. split; [split; [lia|]; split; [lia|]|].
    + intros t Ht. destruct (decide (t < k1)) as [Hlt|Hge]; [by apply Hfst|].
      replace (i1 + t) with (i1 + k1 + (t - k1)) by lia.
      replace (j1 + t) with (j1 + k1 + (t - k1)) by lia.
      apply Hsnd. lia.
    + by rewrite !Nat.add_assoc.
  - simpl. intros (?&?&?&?). split; [lia|]. split; [lia|]. split; [done|].
    by apply IH.
Qed.

Lemma collapse_advance i j blocks cur non_adjacent :
  advance a b i j (non_adjacent ++ cur :: blocks) →
  advance a b i j (collapse blocks cur non_adjacent).
Proof.
  revert cur non_adjacent.
  induction blocks as [|[[i2 j2] k2] blocks IH];
    intros [[i1 j1] k1] non_adjacent Hadv; simpl.
  - destruct (k1 =? 0); [by eapply advance_drop_last | done].
  - destruct (i1 + k1 =? i2) eqn:Hi; simpl.
    + destruct (j1 + k1 =? j2) eqn:Hj; simpl.
      * apply Nat.eqb_eq in Hi, Hj. subst i2 j2.
        apply IH. by apply advance_merge.
      * apply IH. destruct (k1 =? 0).
        -- by eapply advance_skip.
        -- by rewrite <- app_assoc.
    + apply IH. destruct (k1 =? 0).
      * by eapply advance_skip.
      * by rewrite <- app_assoc.
Qed.

Lemma sorted_advance blocks i j :
  StronglySorted match_le blocks →
  all_apart (window_of <$> blocks) →
  Forall (λ m, true_match a b m ∧ 0 < m_size m) blocks →
  Forall (λ m : Match, i ≤ m.1.1 ∧ j ≤ m.1.2) blocks →
  advance a b i j blocks.
Proof.
  intros Hsorted. revert i j.
  induction Hsorted as [|[[ai bj] size] rest Hs IH Hle]; intros i j Hap Ht Hij;
    [done|].
  simpl in Hap. destruct Hap as [Hx Hap].
  apply Forall_cons in Ht as [[Htx Hkx] Ht].
  apply Forall_cons in Hij as [[? ?] _]. simpl in *.
  split; [done|]. split; [done|]. split; [done|].
  apply IH; [done | done |].
  apply Forall_forall. intros [[mi mj] mk] Hm.
  pose proof (proj1 (Forall_forall _ _) Hle _ Hm) as Hord.
  pose proof (proj1 (Forall_forall _ _) Ht _ Hm) as [_ Hmk].
  assert (apart (ai, ai + size, bj, bj + size) (mi, mi + mk, mj, mj + mk))
    as Hsep.
  { apply (proj1 (Forall_forall _ _) Hx).
    apply (list_elem_of_fmap_2 window_of _ _ Hm). }
  unfold m_size in *. simpl in *. lia.
Qed.

Lemma advance_sentinel i j blocks :
  i ≤ length a → j ≤ length b →
  advance a b i j blocks →
  advance a b i j (blocks ++ [(length a, length b, 0)]).
Proof.
  revert i j. induction blocks as [|[[ai bj] size] blocks IH]; intros i j.
  - simpl. intros ?? _. split; [done|]. split; [done|]. split; [|done].
    split; [lia|]. split; [lia|]. intros t Ht. lia.
  - simpl. intros ?? (?&?&(?&?&?)&?).
    split; [done|]. split; [done|]. split; [done|].
    apply IH; [lia | lia | done].
Qed.

(** The blocks of [get_matching_blocks] are true matches, in
    increasing order in both sequences, and end with the sentinel. *)
Lemma get_matching_blocks_advance :
  advance a b 0 0 (get_matching_blocks a b).
Proof.
  unfold get_matching_blocks.
  set (blocks := match_queue _ _ _ _ _ _).
  destruct (match_queue_apart (chain_b b) (2 * (length a + length b) + 1)
              [(0, length a, 0, length b)] [] (rows_of_chain_b))
    as [Htrue Hap].
  { repeat constructor; simpl; lia. }
  { constructor. }
  { simpl. split; constructor. }
  fold blocks in Htrue, Hap.
  apply advance_sentinel; [lia | lia |].
  apply (collapse_advance 0 0 _ (0, 0, 0) []). simpl.
  split; [done|]. split; [done|].
  split; [split; [lia|]; split; [lia|]; intros t Ht; lia|].
  apply sorted_advance.
  - apply (StronglySorted_merge_sort _).
  - eapply all_apart_perm; [|exact Hap].
    by rewrite merge_sort_Permutation.
  - by rewrite merge_sort_Permutation.
  - apply Forall_forall. intros m _. simpl. lia.
Qed.

Lemma opcodes_from_answer blocks i j answer :
  opcodes_from blocks i j answer = answer ++ opcodes_from blocks i j [].
Proof.
  revert i j answer. induction blocks as [|[[ai bj] size] blocks IH];
    intros i j answer; simpl.
  - by rewrite app_nil_r.
  - rewrite IH. rewrite (IH _ _ (if size =? 0 then _ else _)).
    rewrite app_assoc. f_equal.
    destruct (i <? ai); destruct (j <? bj); destruct (size =? 0); simpl;
      by rewrite ?app_nil_r, <- ?app_assoc.
Qed.

(** Opcodes that are all ['equal'] leave no room for a difference. *)
Lemma opcodes_all_equal blocks i j :
  advance a b i j blocks →
  last blocks = Some (length a, length b, 0) →
  Forall (λ c, op_tag c = equal) (opcodes_from blocks i j []) →
  drop i a = drop j b.
Proof.
  revert i j. induction blocks as [|[[ai bj] size] blocks IH]; intros i j;
    [done|].
  simpl. intros (Hi & Hj & (Ha & Hb & Hsame) & Hadv) Hlast.
  rewrite opcodes_from_answer, Forall_app. intros [Hhead Hrest].
  assert (ai = i ∧ bj = j) as [-> ->].
  { destruct (i <? ai) eqn:H1; destruct (j <? bj) eqn:H2; simpl in Hhead;
      apply Nat.ltb_ge in H1 || apply Nat.ltb_lt in H1;
      apply Nat.ltb_ge in H2 || apply Nat.ltb_lt in H2;
      try lia;
      destruct (size =? 0); simpl in Hhead;
      apply Forall_cons in Hhead as [Hbad _]; done. }
  destruct blocks as [|next blocks].
  - simpl in Hlast. injection Hlast as -> -> ->.
    by rewrite !drop_all.
  - assert (drop (i + size) a = drop (j + size) b) as Hdrop.
    { apply IH; [done | done | done]. }
    apply list_eq. intros n. rewrite !lookup_drop.
    destruct (decide (n < size)) as [Hlt|Hge]; [by apply Hsame|].
    replace (i + n) with (i + size + (n - size)) by lia.
    replace (j + n) with (j + size + (n - size)) by lia.
    by rewrite <- !lookup_drop, Hdrop.
Qed.

Lemma opcodes_equal_or_change blocks i j :
  advance a b i j blocks →
  Forall (λ c, op_tag c = equal ∨ changes a b c) (opcodes_from blocks i j []).
Proof.
  revert i j. induction blocks as [|[[ai bj] size] blocks IH]; intros i j;
    [constructor|].
  simpl. intros (Hi & Hj & (Ha & Hb & Hsame) & Hadv).
  rewrite opcodes_from_answer, Forall_app. split; [|by apply IH].
  destruct (i <? ai) eqn:H1; destruct (j <? bj) eqn:H2; simpl;
    apply Nat.ltb_ge in H1 || apply Nat.ltb_lt in H1;
    apply Nat.ltb_ge in H2 || apply Nat.ltb_lt in H2;
    destruct (size =? 0); simpl;
    repeat (apply Forall_cons; split); try done;
    try (by left); right; simpl; lia.
Qed.

(** Two sequences that differ get an opcode that reports a change. *)
Lemma get_opcodes_change :
  a ≠ b → Exists (changes a b) (get_opcodes a b).
Proof.
  intros Hne. unfold get_opcodes.
  pose proof get_matching_blocks_advance as Hadv.
  destruct (decide (Exists (changes a b)
                      (opcodes_from (get_matching_blocks a b) 0 0 [])))
    as [Hex | Hnone]; [done|].
  destruct Hne.
  apply (opcodes_all_equal _ 0 0 Hadv).
  - unfold get_matching_blocks. by rewrite last_snoc.
  - pose proof (opcodes_equal_or_change _ 0 0 Hadv) as Hall.
    apply Forall_forall. intros c Hc.
    destruct (proj1 (Forall_forall _ _) Hall c Hc) as [Heq | Hch]; [done|].
    destruct Hnone. apply Exists_exists. by exists c.
Qed.

End Blocks.
End DifflibBlocks.

Module DifflibReports.
Import Difflib.

Lemma trim_first_keeps n codes c :
  op_tag c ≠ equal → c ∈ codes → c ∈ trim_first n codes.
Proof.
  intros Hne Hin. destruct codes as [|[[[[t i1] i2] j1] j2] rest]; [done|].
  destruct t; try done. simpl.
  apply elem_of_cons in Hin as [-> | Hin]; [done | by right].
Qed.

Lemma trim_last_keeps n codes c :
  op_tag c ≠ equal → c ∈ codes → c ∈ trim_last n codes.
Proof.
  intros Hne. induction codes as [|[[[[t i1] i2] j1] j2] rest IH]; [done|].
  intros Hin. apply elem_of_cons in Hin as [-> | Hin].
  - destruct t; try done; simpl; by left.
  - assert (c ∈ (t, i1, i2, j1, j2) :: trim_last n rest) as Hgoal
      by (right; by apply IH).
    destruct rest; [by apply elem_of_nil in Hin|].
    by destruct t.
Qed.

(** A group that holds a change is yielded. *)
Lemma group_loop_keeps n codes group c :
  op_tag c ≠ equal → c ∈ group ∨ c ∈ codes →
  ∃ g, g ∈ group_loop n codes group ∧ c ∈ g.
Proof.
  intros Hne. revert group.
  induction codes as [|[[[[t i1] i2] j1] j2] rest IH]; intros group Hin.
  - destruct Hin as [Hin | Hin]; [|by apply elem_of_nil in Hin].
    exists group. split; [|done]. simpl.
    destruct group as [|[[[[t i1] i2] j1] j2] [|c2 group]];
      [by apply elem_of_nil in Hin | | destruct t; by left].
    apply list_elem_of_singleton in Hin as ->.
    destruct t; try done; by left.
  - simpl. destruct (bool_decide (t = equal) && (n + n <? i2 - i1)) eqn:Hbig.
    + apply andb_true_iff in Hbig as [Ht _].
      apply bool_decide_eq_true in Ht as ->.
      destruct Hin as [Hin | Hin].
      * eexists. split; [by left|]. apply elem_of_app. by left.
      * apply elem_of_cons in Hin as [-> | Hin]; [done|].
        destruct (IH [(equal, i1 `max` (i2 - n), i2, j1 `max` (j2 - n), j2)])
          as (g & Hg & Hc); [by right|].
        exists g. split; [by right | done].
    + apply IH. destruct Hin as [Hin | Hin].
      * left. apply elem_of_app. by left.
      * apply elem_of_cons in Hin as [-> | Hin]; [|by right].
        left. apply elem_of_app. right. by left.
Qed.

Lemma slice_first (seq : list string) i1 i2 :
  i1 < i2 → i2 ≤ length seq → ∃ x, x ∈ seq ∧ x ∈ slice seq i1 i2.
Proof.
  intros Hlt Hle. destruct (lookup_lt_is_Some_2 seq i1) as [x Hx]; [lia|].
  exists x. split; [by eapply list_elem_of_lookup_2|].
  unfold slice. apply (list_elem_of_lookup_2 _ 0).
  rewrite lookup_take_lt by lia. rewrite lookup_drop.
  by rewrite Nat.add_0_r.
Qed.

(** The lines of an opcode that reports a change hold a removed line
    of [a] or an added line of [b]. *)
Lemma opcode_lines_change a b c :
  changes a b c →
  (∃ x, x ∈ a ∧ "-" +:+ x ∈ opcode_lines a b c) ∨
  (∃ y, y ∈ b ∧ "+" +:+ y ∈ opcode_lines a b c).
Proof.
  destruct c as [[[[t i1] i2] j1] j2]. simpl. destruct t; try done.
  - intros [Hlt Hle]. left.
    destruct (slice_first a i1 i2 Hlt Hle) as (x & Hx & Hin).
    exists x. split; [done|]. apply elem_of_app. left.
    by apply (list_elem_of_fmap_2 (λ line, "-" +:+ line)).
  - intros [Hlt Hle]. left.
    destruct (slice_first a i1 i2 Hlt Hle) as (x & Hx & Hin).
    exists x. split; [done|].
    by apply (list_elem_of_fmap_2 (λ line, "-" +:+ line)).
  - intros [Hlt Hle]. right.
    destruct (slice_first b j1 j2 Hlt Hle) as (y & Hy & Hin).
    exists y. split; [done|].
    by apply (list_elem_of_fmap_2 (λ line, "+" +:+ line)).
Qed.

Lemma group_lines_opcode a b lineterm group c line :
  c ∈ group → line ∈ opcode_lines a b c →
  line ∈ group_lines a b lineterm group.
Proof.
  intros Hc Hline. unfold group_lines.
  destruct group as [|[[[[t f1] f2] f3] f4] rest] eqn:Hg;
    [by apply elem_of_nil in Hc|].
  rewrite <- Hg in *.
  destruct (last group) as [[[[[lt l1] l2] l3] l4]|] eqn:Hlast.
  - right. apply list_elem_of_In, in_concat. exists (opcode_lines a b c).
    split; [|by apply list_elem_of_In].
    apply list_elem_of_In. by apply list_elem_of_fmap_2.
  - apply last_None in Hlast. congruence.
Qed.

(** The unified diff of two sequences that differ is the two header
    lines followed by lines of which one is a removed line of [a] or
    an added line of [b]. *)
Lemma unified_diff_change a b fromfile tofile n lineterm :
  a ≠ b →
  ∃ rest,
    unified_diff a b fromfile tofile n lineterm
    = ("--- " +:+ fromfile +:+ lineterm) ::
      ("+++ " +:+ tofile +:+ lineterm) :: rest ∧
    ((∃ x, x ∈ a ∧ "-" +:+ x ∈ rest) ∨ (∃ y, y ∈ b ∧ "+" +:+ y ∈ rest)).
Proof.
  intros Hne.
  apply DifflibBlocks.get_opcodes_change, Exists_exists in Hne
    as (c & Hc & Hch).
  assert (op_tag c ≠ equal) as Htag.
  { destruct c as [[[[t ?] ?] ?] ?]. by destruct t. }
  unfold unified_diff, get_grouped_opcodes.
  destruct (group_loop_keeps n
              (trim_last n (trim_first n
                 match get_opcodes a b with
                 | [] => [(equal, 0, 1, 0, 1)]
                 | _ => get_opcodes a b
                 end)) [] c Htag) as (g & Hg & Hcg).
  { right. apply trim_last_keeps, trim_first_keeps; try done.
    destruct (get_opcodes a b); [by apply elem_of_nil in Hc | done]. }
  set (groups := group_loop _ _ _) in *.
  destruct groups as [|g0 more] eqn:Hgroups; [by apply elem_of_nil in Hg|].
  rewrite <- Hgroups in *. eexists. split; [done|].
  assert (∀ line, line ∈ opcode_lines a b c →
                  line ∈ concat (group_lines a b lineterm <$> groups))
    as Hlines.
  { intros line Hline. apply list_elem_of_In, in_concat.
    exists (group_lines a b lineterm g).
    split; apply list_elem_of_In;
      [by apply list_elem_of_fmap_2 | by eapply group_lines_opcode]. }
  destruct (opcode_lines_change a b c Hch) as [(x & Hx & Hin) | (y & Hy & Hin)].
  - left. exists x. split; [done | by apply Hlines].
  - right. exists y. split; [done | by apply Hlines].
Qed.

End DifflibReports.

(* ================================================================= *)
(** ** Drift detection: differing lines are flagged, line terminators are not *)

Section DriftReported.
Context `{ReEngine} `{Builtins}.

Lemma counts_as_change_removed x :
  counts_as_change ("-" +:+ x) = negb (startswith x "--").
Proof.
  change ("-" +:+ x) with (String "-" x).
  unfold counts_as_change, startswith_any, startswith. simpl.
  rewrite !orb_false_r. by destruct x.
Qed.

Lemma counts_as_change_added y :
  counts_as_change ("+" +:+ y) = negb (startswith y "++").
Proof.
  change ("+" +:+ y) with (String "+" y).
  unfold counts_as_change, startswith_any, startswith. simpl.
  rewrite !orb_false_r. by destruct y.
Qed.

(** X11. Drift is not missed.  Once both sources have delivered, if
    the filtered running lines differ from the filtered baseline
    lines, no baseline line starts with [--] and no running line
    starts with [++], then [detect_drift] flags drift, and the diff it
    returns begins with the two header lines [--- baseline] and
    [+++ running]. *)
Theorem differing_lines_are_flagged self dev fr fb :
  _running_fetcher self dev = Returned fr →
  _baseline_loader self dev = Returned fb →
  success (_resolve fr "running_config") = true →
  success (_resolve fb "baseline_config") = true →
  let running_lines :=
    _filter_lines self
      (splitlines (str (data (_resolve fr "running_config")))) in
  let baseline_lines :=
    _filter_lines self
      (splitlines (str (data (_resolve fb "baseline_config")))) in
  running_lines ≠ baseline_lines →
  Forall (λ line, startswith line "--" = false) baseline_lines →
  Forall (λ line, startswith line "++" = false) running_lines →
  ∃ rest,
    detect_drift self dev
    = Returned
        (ToolOutput_.ok
           (PyDriftOutput
              {| device := dev; is_drifted := true;
                 diff := Some (join (String (ascii_of_nat 10) "")
                                 ("--- baseline" :: "+++ running" :: rest))
              |})).
Proof.
  intros Hr Hb Hsr Hsb running_lines baseline_lines Hne Hdash Hplus.
  rewrite (detect_drift_resolved _ _ _ _ Hr Hb Hsr Hsb).
  fold running_lines baseline_lines. cbv zeta.
  destruct (DifflibReports.unified_diff_change baseline_lines running_lines
              "baseline" "running" 3 "") as (rest & Hdiff & Hline);
    [congruence|].
  change ("--- " +:+ "baseline" +:+ "") with "--- baseline" in Hdiff.
  change ("+++ " +:+ "running" +:+ "") with "+++ running" in Hdiff.
  rewrite Hdiff. exists rest.
  assert (existsb counts_as_change
            ("--- baseline" :: "+++ running" :: rest) = true) as ->; [|done].
  apply existsb_exists.
  destruct Hline as [(x & Hx & Hin) | (y & Hy & Hin)].
  - exists ("-" +:+ x). split.
    + apply list_elem_of_In. right. by right.
    + rewrite counts_as_change_removed.
      by rewrite (proj1 (Forall_forall _ _) Hdash x Hx).
  - exists ("+" +:+ y). split.
    + apply list_elem_of_In. right. by right.
    + rewrite counts_as_change_added.
      by rewrite (proj1 (Forall_forall _ _) Hplus y Hy).
Qed.

End DriftReported.

Section Splitlines.

Lemma splitlines_from_plain acc line rest :
  plain_line line = true →
  splitlines_from acc (line +:+ rest) = splitlines_from (acc +:+ line) rest.
Proof.
  revert acc. induction line as [|c line IH]; intros acc Hplain.
  - by rewrite string_app_nil_r.
  - simpl in Hplain. apply andb_true_iff in Hplain as [Hc Hplain].
    rewrite string_app_cons. simpl.
    apply negb_true_iff in Hc. rewrite Hc, IH by done.
    f_equal. by rewrite string_app_assoc, string_app_cons.
Qed.

Lemma head_not_newline sep lines tail :
  line_terminator sep → Forall (λ l, plain_line l = true) lines →
  plain_line tail = true →
  match terminated sep lines +:+ tail with
  | String c _ => (nat_of_ascii c =? 10) = false ∨
                  sep = String (ascii_of_nat 10) ""
  | EmptyString => True
  end.
Proof.
  intros Hsep Hlines Htail.
  assert (∀ line rest, plain_line line = true → line ≠ "" →
            match line +:+ rest with
            | String c _ => (nat_of_ascii c =? 10) = false ∨
                            sep = String (ascii_of_nat 10) ""
            | EmptyString => True
            end) as Hplain.
  { intros [|c line] rest Hline Hne; [done|]. rewrite string_app_cons.
    left. simpl in Hline. apply andb_true_iff in Hline as [Hc _].
    apply negb_true_iff in Hc. unfold is_line_boundary in Hc. cbv zeta in Hc.
    by destruct (nat_of_ascii c =? 10). }
  destruct lines as [|line lines].
  - simpl. change ("" +:+ tail) with tail.
    destruct (decide (tail = "")) as [-> | Hne]; [done|].
    rewrite <- (string_app_nil_r tail). by apply Hplain.
  - apply Forall_cons in Hlines as [Hline _]. simpl.
    rewrite !string_app_assoc.
    destruct (decide (line = "")) as [-> | Hne]; [|by apply Hplain].
    change ("" +:+ ?s) with s.
    destruct Hsep as [-> | (c & Hc & ->)].
    + rewrite string_app_cons. by left.
    + rewrite string_app_cons.
      destruct (nat_of_ascii c =? 10) eqn:Hnl; [|by left].
      right. apply Nat.eqb_eq in Hnl.
      by rewrite <- (ascii_nat_embedding c), Hnl.
Qed.

(** [splitlines] gives back the lines of a text in which every line
    but a last, unfinished one is followed by a terminator. *)
Lemma splitlines_terminated_tail sep lines tail :
  line_terminator sep → Forall (λ l, plain_line l = true) lines →
  plain_line tail = true →
  splitlines (terminated sep lines +:+ tail)
  = lines ++ (if bool_decide (tail = "") then [] else [tail]).
Proof.
  intros Hsep Hlines Htail. unfold splitlines.
  induction lines as [|line lines IH].
  - simpl. change ("" +:+ tail) with tail.
    rewrite <- (string_app_nil_r tail) at 1.
    by rewrite splitlines_from_plain.
  - pose proof (head_not_newline sep lines tail Hsep) as Hhead.
    apply Forall_cons in Hlines as [Hline Hlines].
    specialize (IH Hlines). specialize (Hhead Hlines Htail).
    simpl. rewrite !string_app_assoc, splitlines_from_plain by done.
    change ("" +:+ line) with line.
    destruct Hsep as [-> | (c & Hc & ->)].
    + rewrite !string_app_cons. change ("" +:+ ?s) with s.
      simpl. by rewrite <- IH.
    + rewrite string_app_cons. change ("" +:+ ?s) with s.
      simpl. rewrite Hc.
      destruct (terminated (String c "") lines +:+ tail) as [|c2 rest]
        eqn:Hrest.
      * rewrite <- IH. done.
      * rewrite <- IH.
        destruct Hhead as [Hnl | Hsep].
        -- by rewrite Hnl, andb_false_r.
        -- injection Hsep as ->. done.
Qed.

Lemma join_terminated sep init line :
  join sep (init ++ [line]) = terminated sep init +:+ line.
Proof.
  induction init as [|l init IH]; [done|].
  change (terminated sep (l :: init) +:+ line)
    with ((l +:+ sep +:+ terminated sep init) +:+ line).
  rewrite !string_app_assoc, <- IH.
  change ((l :: init) ++ [line]) with (l :: (init ++ [line])).
  by destruct (init ++ [line]) eqn:Hnil; [destruct init|].
Qed.

(** [splitlines] undoes every way of writing lines down. *)
Lemma splitlines_writes text lines :
  Forall (λ l, plain_line l = true) lines → writes text lines →
  splitlines text = lines.
Proof.
  intros Hlines (sep & Hsep & [-> | [-> Hlast]]).
  - rewrite <- (string_app_nil_r (terminated sep lines)).
    rewrite splitlines_terminated_tail by done. simpl.
    by rewrite app_nil_r.
  - destruct lines as [|l lines _] using rev_ind; [done|].
    rewrite last_snoc in Hlast.
    apply Forall_app in Hlines as [Hinit Hl].
    apply Forall_cons in Hl as [Hl _].
    rewrite join_terminated, splitlines_terminated_tail by done.
    rewrite bool_decide_eq_false_2; [done | congruence].
Qed.

End Splitlines.

Section TerminatorsAndDrift.
Context `{ReEngine} `{Builtins}.

(** X12. Line terminators are not drift.  When the running and the
    baseline text write the same lines, each with a line terminator of
    its own choice ([\n], [\r\n], [\r], ...) and with or without one
    after the last line, [detect_drift] reports no drift. *)
Theorem line_terminators_are_not_drift
    self dev lines running_text baseline_text :
  Forall (λ l, plain_line l = true) lines →
  writes running_text lines → writes baseline_text lines →
  _running_fetcher self dev = Returned (FetchedValue (PyStr running_text)) →
  _baseline_loader self dev = Returned (FetchedValue (PyStr baseline_text)) →
  detect_drift self dev
  = Returned (ToolOutput_.ok
                (PyDriftOutput {| device := dev; is_drifted := false;
                                  diff := None |})).
Proof.
  intros Hlines Hrun Hbase Hr Hb.
  rewrite (detect_drift_resolved _ _ _ _ Hr Hb eq_refl eq_refl). simpl.
  rewrite (splitlines_writes _ _ Hlines Hrun).
  rewrite (splitlines_writes _ _ Hlines Hbase).
  by rewrite DifflibFacts.unified_diff_same.
Qed.

End TerminatorsAndDrift.

(* ================================================================= *)
(** ** Snapshots on a working repository *)

Module SnapshotFacts.

Section Snapshot.
Context `{Backend}.
Variables (self : VersionControlTool) (repo : Repo) (device rel : string).
Context (repository : WorkingRepository repo
                        (path_join (_repo_path self) "configs")
                        (snapshot_path (_repo_path self) device) rel).
Hypothesis Hrepo : _repo self = Some repo.
Hypothesis Hrel :
  rel_path_of repo (snapshot_path (_repo_path self) device) = Returned rel.

(** X20. On a working repository a call of [commit_config] succeeds
    and leaves the content in the snapshot file and in the tree of
    [HEAD] at the file's path below the working tree.  Content that
    differs from what [HEAD] holds there is always committed; a call
    that returns no hash leaves the tree of [HEAD] as it was. *)
Theorem snapshot_reaches_head content msg w :
  working w →
  ∃ commit_hash w1,
    commit_config self device content msg w
    = (Returned
         (ToolOutput_.ok
            (PyBackupResult
               {| cbr_device := device;
                  cbr_path := snapshot_path (_repo_path self) device;
                  cbr_commit_hash := commit_hash |})), w1) ∧
    snapshot w1 = Some content ∧
    committed w1 !! rel = Some content ∧
    (committed w !! rel ≠ Some content → is_Some commit_hash) ∧
    (commit_hash = None → committed w1 = committed w).
Proof.
  intros Hw.
  destruct (GitFacts.commit_config_works self repo device rel repository
              Hrepo Hrel content msg w Hw)
    as (h & w1 & Hrun & _ & Hfile & Hs & Hc & _ & Hh & Hsame).
  exists h, w1. split; [done|]. split; [done|]. split.
  { rewrite Hc, Hs. apply lookup_insert_eq. }
  split; [|done].
  intros Hne. destruct h as [hash|]; [by eexists|].
  destruct Hne. destruct (proj1 Hh eq_refl) as [<- _].
  apply lookup_insert_eq.
Qed.

End Snapshot.

End SnapshotFacts.

(* ================================================================= *)
(** ** The statements at work on concrete inputs *)

(** *** Audits *)

Lemma compliant_iff_no_violations_witness :
  (Forall compiles [Demo.rule_http; Demo.rule_telnet] →
   ∃ report, audit_config Demo.auditor Demo.telnet_config "base" None
               = Returned (ToolOutput_.ok (PyReport report))) ∧
  (∀ t, audit_config Demo.auditor Demo.telnet_config "base" None = Returned t →
        ∃ report, t = ToolOutput_.ok (PyReport report) ∧
                  (is_compliant report = true ↔ violations report = [])).
Proof.
  apply (compliant_iff_no_violations Demo.auditor Demo.telnet_config "base"
           None [Demo.rule_http; Demo.rule_telnet]).
  - vm_compute. reflexivity.
  - discriminate.
Defined.

Lemma forbidden_one_violation_per_match_witness :
  ∃ rules per_rule,
    resolve_rules Demo.auditor "base" None = inr rules ∧
    violations Demo.telnet_report = concat per_rule ∧
    Forall2
      (λ rule seg,
         ∃ pat, re_compile (pattern rule) [MULTILINE] = Returned pat ∧
           (mode rule = "forbidden" →
            seg = (λ m, {| v_rule_id := rule_id rule;
                           rule_description := description rule;
                           violating_line := Some (group0 m);
                           violation_type := "found_forbidden" |})
                    <$> re_finditer pat Demo.telnet_config ∧
            length seg = length (re_finditer pat Demo.telnet_config)))
      rules per_rule.
Proof.
  apply (forbidden_one_violation_per_match Demo.auditor Demo.telnet_config
           "base" None Demo.telnet_report).
  vm_compute. reflexivity.
Defined.

Lemma required_zero_or_one_violation_witness :
  ∃ rules per_rule,
    resolve_rules Demo.auditor "base" None = inr rules ∧
    violations Demo.telnet_report = concat per_rule ∧
    Forall2
      (λ rule seg,
         ∃ pat, re_compile (pattern rule) [MULTILINE] = Returned pat ∧
           (mode rule = "required" →
            (re_finditer pat Demo.telnet_config = [] →
             seg = [{| v_rule_id := rule_id rule;
                       rule_description := description rule;
                       violating_line := None;
                       violation_type := "missing_required" |}]) ∧
            (re_finditer pat Demo.telnet_config ≠ [] → seg = []) ∧
            length seg ≤ 1))
      rules per_rule.
Proof.
  apply (required_zero_or_one_violation Demo.auditor Demo.telnet_config
           "base" None Demo.telnet_report).
  vm_compute. reflexivity.
Defined.

Lemma no_rules_is_an_error_witness :
  audit_config Demo.auditor Demo.telnet_config "pci-dss" None
  = Returned (ToolOutput_.fail "No compliance rules defined" None
                (Some {[ "policy" := PyStr "pci-dss" ]})).
Proof.
  apply (no_rules_is_an_error Demo.auditor Demo.telnet_config "pci-dss" None).
  - vm_compute. reflexivity.
  - reflexivity.
  - left. reflexivity.
Defined.

Lemma unknown_mode_never_violates_witness :
  audit_config Demo.auditor Demo.telnet_config "advice" None
  = Returned (ToolOutput_.ok
                (PyReport {| policy_name := "advice"; is_compliant := true;
                             violations := [] |})).
Proof.
  apply (proj2 (unknown_mode_never_violates Demo.auditor Demo.telnet_config
                  "advice" None) [Demo.rule_advice]).
  - vm_compute. reflexivity.
  - discriminate.
  - repeat constructor; discriminate.
  - repeat constructor. eexists. vm_compute. reflexivity.
Defined.

(** Scenario C: the required line is missing. *)
Example scenario_required_missing :
  audit_config
    (ComplianceAuditTool_init (Some {[ "p" := [Demo.rule_http] ]}) None)
    (join Demo.nl ["hostname R1"; "ip http server"]) "p" None
  = Returned
      (ToolOutput_.ok
         (PyReport
            {| policy_name := "p"; is_compliant := false;
               violations :=
                 [ {| v_rule_id := "R1";
                      rule_description := "HTTP server off";
                      violating_line := None;
                      violation_type := "missing_required" |} ] |})).
Proof. vm_compute. reflexivity. Qed.

(** Scenario D: a forbidden word on two lines. *)
Example scenario_forbidden_twice :
  audit_config Demo.auditor Demo.telnet_config "base" None
  = Returned (ToolOutput_.ok (PyReport Demo.telnet_report)).
Proof. vm_compute. reflexivity. Qed.

(** *** Snapshots *)

Lemma commit_degrades_to_unversioned_witness :
  commit_config (H := GitModel.backend true) (tool_at true "/repo")
    "r1" "hostname R1" "nightly" Demo.broken_repo
  = (Returned (unversioned "/repo/configs/r1.cfg" "r1"),
     Demo.written "hostname R1" Demo.broken_repo).
Proof.
  apply (proj1 (proj2
           (commit_degrades_to_unversioned (H := GitModel.backend true)
              (tool_at true "/repo") "r1" "hostname R1" "nightly"
              Demo.broken_repo
              (GitModel.set_dirs (union {[ "/repo/configs" ]}) Demo.broken_repo)
              (Demo.written "hostname R1" Demo.broken_repo)
              eq_refl eq_refl))
         "/repo" "configs/r1.cfg" "add").
  - reflexivity.
  - reflexivity.
  - reflexivity.
Defined.

(** C8 as stated fails: an error of the versioning backend that is
    not a [GitCommandError] is not caught.  With the index lock taken
    [index.add] raises [OSError], and with a relative repository path
    [relative_to] raises [ValueError]; either escapes from
    [commit_config] after the snapshot has been written. *)
Lemma index_lock_error_escapes :
  commit_config (H := GitModel.backend true) (tool_at true "/repo")
    "r1" "hostname R1" "nightly" Demo.locked_repo
  = (Raised (OSError "Lock at '/repo/.git/index.lock' could not be obtained"),
     Demo.written "hostname R1" Demo.locked_repo) ∧
  commit_config (H := GitModel.backend true) (tool_at true "repo")
    "r1" "hostname R1" "nightly" Demo.empty_repo
  = (Raised (ValueError "not in the subpath"),
     Demo.written "hostname R1" Demo.empty_repo).
Proof. split; vm_compute; reflexivity. Qed.

(** C1 as stated fails: a fetcher returning the empty string, bare or
    as the data of a successful result, gets a successful backup, and
    the empty snapshot is on disk. *)
Lemma empty_string_is_backed_up :
  (backup_config (H := GitModel.backend true) (H0 := GitModel.builtins)
     (Demo.backup_tool (λ _, Returned (FetchedValue (PyStr ""))))
     "r1" Demo.empty_repo).1
  = Returned
      (ToolOutput_.ok
         (PyBackupResult {| cbr_device := "r1";
                            cbr_path := "/repo/configs/r1.cfg";
                            cbr_commit_hash := Some "c1" |})) ∧
  GitModel.files
    (backup_config (H := GitModel.backend true) (H0 := GitModel.builtins)
       (Demo.backup_tool (λ _, Returned (FetchedValue (PyStr ""))))
       "r1" Demo.empty_repo).2
    !! "/repo/configs/r1.cfg" = Some "" ∧
  backup_config (H := GitModel.backend true) (H0 := GitModel.builtins)
    (Demo.backup_tool
       (λ _, Returned (FetchedOutput (ToolOutput_.ok (PyStr "")))))
    "r1" Demo.empty_repo
  = backup_config (H := GitModel.backend true) (H0 := GitModel.builtins)
      (Demo.backup_tool (λ _, Returned (FetchedValue (PyStr ""))))
      "r1" Demo.empty_repo.
Proof. repeat split; vm_compute; reflexivity. Qed.

Lemma backup_rejects_none_only_witness :
  backup_config (H := GitModel.backend true) (H0 := GitModel.builtins)
    (Demo.backup_tool (λ _, Returned (FetchedOutput (ToolOutput_.ok PyNone))))
    "r1" Demo.empty_repo
  = (Returned (ToolOutput_.fail "No configuration content returned" None
                 (Some {[ "device" := PyStr "r1" ]})), Demo.empty_repo) ∧
  backup_config (H := GitModel.backend true) (H0 := GitModel.builtins)
    (Demo.backup_tool (λ _, Returned (FetchedValue (PyStr ""))))
    "r1" Demo.empty_repo
  = commit_config (H := GitModel.backend true) (tool_at true "/repo") "r1" ""
      "AUTOBACKUP: Configuration backup for r1 @ 2024-05-01T12:00:00Z"
      Demo.empty_repo.
Proof.
  split.
  - apply (proj1 (backup_rejects_none_only (H := GitModel.backend true)
                    (H0 := GitModel.builtins)
                    (Demo.backup_tool
                       (λ _, Returned (FetchedOutput (ToolOutput_.ok PyNone))))
                    "r1" (FetchedOutput (ToolOutput_.ok PyNone))
                    Demo.empty_repo eq_refl)).
    right. eexists. repeat split.
  - apply (proj2 (backup_rejects_none_only (H := GitModel.backend true)
                    (H0 := GitModel.builtins)
                    (Demo.backup_tool
                       (λ _, Returned (FetchedValue (PyStr ""))))
                    "r1" (FetchedValue (PyStr ""))
                    Demo.empty_repo eq_refl)).
    left. reflexivity.
Defined.

(** C9 as stated fails: with an untracked file in the working tree the
    second commit of the same content is versioned again. *)
Lemma second_commit_versioned_again :
  returned_hash
    (commit_config (H := GitModel.backend true) (tool_at true "/repo")
       "r1" "hostname R1" "first" Demo.repo_with_readme).1
  = Some (Some "c1") ∧
  returned_hash
    (commit_config (H := GitModel.backend true) (tool_at true "/repo")
       "r1" "hostname R1" "second"
       (commit_config (H := GitModel.backend true) (tool_at true "/repo")
          "r1" "hostname R1" "first" Demo.repo_with_readme).2).1
  = Some (Some "c2").
Proof. split; vm_compute; reflexivity. Qed.

Lemma second_commit_null_iff_no_untracked_witness :
  ∃ r1 w1 r2 w2 h1 h2,
    commit_config (H := GitModel.backend true) (tool_at true "/repo")
      "r1" "hostname R1" "first" Demo.empty_repo = (r1, w1) ∧
    commit_config (H := GitModel.backend true) (tool_at true "/repo")
      "r1" "hostname R1" "second" w1 = (r2, w2) ∧
    returned_hash r1 = Some h1 ∧
    returned_hash r2 = Some h2 ∧
    (h2 = None ↔
     (list_to_set (GitModel.untracked "/repo" w1) : gset string) = ∅).
Proof.
  apply (GitFacts.second_commit_null_iff_no_untracked
           (H := GitModel.backend true) (tool_at true "/repo") "/repo"
           "r1" "configs/r1.cfg" model_repository eq_refl eq_refl
           "hostname R1" "first" "second" Demo.empty_repo).
  repeat split.
Defined.

(** A file that an ignore rule excludes is not untracked: the second
    commit is a no-op. *)
Example scenario_ignored_file :
  returned_hash
    (commit_config (H := GitModel.backend true) (tool_at true "/repo")
       "r1" "hostname R1" "second"
       (commit_config (H := GitModel.backend true) (tool_at true "/repo")
          "r1" "hostname R1" "first" Demo.repo_with_ignored_readme).2).1
  = Some None.
Proof. vm_compute. reflexivity. Qed.

(** A device name with a directory part needs the directory: the
    write raises and nothing is versioned. *)
Example scenario_device_with_slash :
  (commit_config (H := GitModel.backend true) (tool_at true "/repo")
     "core/r1" "hostname R1" "nightly" Demo.empty_repo).1
  = Raised (OSError "No such file or directory").
Proof. vm_compute. reflexivity. Qed.

(** On a clean repository the second commit is a no-op. *)
Example scenario_second_commit_noop :
  returned_hash
    (commit_config (H := GitModel.backend true) (tool_at true "/repo")
       "r1" "hostname R1" "second"
       (commit_config (H := GitModel.backend true) (tool_at true "/repo")
          "r1" "hostname R1" "first" Demo.empty_repo).2).1
  = Some None.
Proof. vm_compute. reflexivity. Qed.

(** *** Drift *)

Lemma drift_symmetry_witness :
  detect_drift (H0 := GitModel.builtins)
    (Demo.drift_tool ["hostname R1"; "ntp server 10.0.0.2"]
                     ["hostname R1"; "ntp server 10.0.0.1"] ["^ntp server"])
    "r1"
  = Returned (ToolOutput_.ok
                (PyDriftOutput {| device := "r1"; is_drifted := false;
                                  diff := None |})).
Proof.
  apply (proj1 (drift_symmetry (H0 := GitModel.builtins)
                  (Demo.drift_tool ["hostname R1"; "ntp server 10.0.0.2"]
                     ["hostname R1"; "ntp server 10.0.0.1"] ["^ntp server"])
                  "r1" _ _ eq_refl eq_refl eq_refl eq_refl)).
  vm_compute. reflexivity.
Defined.

(** Scenario A: one line changed, no ignore pattern. *)
Example scenario_drift :
  detect_drift (H0 := GitModel.builtins)
    (Demo.drift_tool ["hostname R1"; "ntp server 10.0.0.2"]
                     ["hostname R1"; "ntp server 10.0.0.1"] [])
    "r1"
  = Returned
      (ToolOutput_.ok
         (PyDriftOutput
            {| device := "r1"; is_drifted := true;
               diff := Some (join Demo.nl
                               ["--- baseline"; "+++ running";
                                "@@ -1,2 +1,2 @@"; " hostname R1";
                                "-ntp server 10.0.0.1";
                                "+ntp server 10.0.0.2"]) |})).
Proof. vm_compute. reflexivity. Qed.

(** C7 does not hold of the code: the baseline line [-- uplink --] is
    gone from the running configuration, the diff lists it as removed
    (the last line below, after the two header lines and the hunk
    marker), and [detect_drift] reports no drift and no diff, because
    the removed line is rendered [--- uplink --] and every line that
    starts with [---] is skipped. *)
Theorem removed_dashed_line_not_flagged :
  Difflib.unified_diff ["hostname R1"; "-- uplink --"] ["hostname R1"]
    "baseline" "running" 3 ""
  = ["--- baseline"; "+++ running"; "@@ -1,2 +1 @@"; " hostname R1";
     "-" +:+ "-- uplink --"] ∧
  detect_drift (H0 := GitModel.builtins)
    (Demo.drift_tool ["hostname R1"] ["hostname R1"; "-- uplink --"] [])
    "r1"
  = Returned (ToolOutput_.ok
                (PyDriftOutput {| device := "r1"; is_drifted := false;
                                  diff := None |})).
Proof. split; vm_compute; reflexivity. Qed.

(** *** Further statements on the worked inputs *)


Lemma loader_failure_fails_audit_witness :
  audit_config Demo.auditor_without_source Demo.telnet_config "base"
    (Some [Demo.rule_http])
  = Returned (audit_failure "Failed to load compliance rules" "base").
Proof.
  apply (loader_failure_fails_audit Demo.auditor_without_source
           Demo.telnet_config "base" (Some [Demo.rule_http])
           (λ _, Raised (OSError "rules.yaml")) (OSError "rules.yaml"));
    reflexivity.
Defined.

Lemma audit_of_appended_rules_witness :
  audit_over ([Demo.rule_http] ++ [Demo.rule_telnet]) Demo.telnet_config "base"
  = Returned
      (ToolOutput_.ok
         (PyReport
            {| policy_name := "base";
               is_compliant := is_compliant Demo.http_report &&
                               is_compliant Demo.telnet_only_report;
               violations := violations Demo.http_report ++
                             violations Demo.telnet_only_report |})).
Proof.
  apply (audit_of_appended_rules [Demo.rule_http] [Demo.rule_telnet]
           Demo.telnet_config "base" Demo.http_report
           Demo.telnet_only_report);
    vm_compute; reflexivity.
Defined.

Lemma compliant_iff_rules_satisfied_witness :
  ∃ rules, resolve_rules Demo.auditor "base" None = inr rules ∧
           (is_compliant Demo.telnet_report = true ↔
            Forall (satisfied Demo.telnet_config) rules).
Proof.
  apply (compliant_iff_rules_satisfied Demo.auditor Demo.telnet_config
           "base" None Demo.telnet_report).
  vm_compute. reflexivity.
Defined.

Lemma audit_raises_iff_pattern_rejected_witness :
  audit_config Demo.auditor Demo.telnet_config "base"
    (Some [Demo.rule_typo])
  = Raised (ReError "pattern outside the fragment").
Proof.
  apply (proj2 (audit_raises_iff_pattern_rejected Demo.auditor
                  Demo.telnet_config "base" (Some [Demo.rule_typo])
                  (ReError "pattern outside the fragment"))).
  exists [Demo.rule_http; Demo.rule_telnet], Demo.rule_typo, [].
  split; [reflexivity|]. split; [|reflexivity].
  repeat constructor; eexists; vm_compute; reflexivity.
Defined.

Lemma audit_output_shape_witness :
  (∃ report, ToolOutput_.ok (PyReport Demo.telnet_report)
             = ToolOutput_.ok (PyReport report) ∧
             policy_name report = "base") ∨
  ToolOutput_.ok (PyReport Demo.telnet_report)
  = audit_failure "Failed to load compliance rules" "base" ∨
  ToolOutput_.ok (PyReport Demo.telnet_report)
  = audit_failure "No compliance rules defined" "base".
Proof.
  apply (audit_output_shape Demo.auditor Demo.telnet_config "base" None).
  vm_compute. reflexivity.
Defined.

Lemma drift_source_failures_witness :
  detect_drift (H0 := GitModel.builtins)
    (@Build_ConfigDriftDetectionTool MiniRe.engine
       (λ _, Returned (FetchedValue PyNone)) (Demo.gives ["hostname R1"]) [])
    "r1"
  = Returned (ToolOutput_.fail "running_config not available" None None).
Proof.
  apply (proj1 (proj2 (drift_source_failures (H0 := GitModel.builtins)
                         (@Build_ConfigDriftDetectionTool MiniRe.engine
                            (λ _, Returned (FetchedValue PyNone))
                            (Demo.gives ["hostname R1"]) [])
                         "r1"))).
  reflexivity.
Defined.

Lemma drift_tool_construction_witness :
  ConfigDriftDetectionTool_init (Demo.gives []) (Demo.gives [])
    (Some ["^ntp server"; "uptime (is"])
  = Raised (ReError "pattern outside the fragment").
Proof.
  apply (proj2 (drift_tool_construction (Demo.gives []) (Demo.gives [])
                  (Some ["^ntp server"; "uptime (is"]))).
  exists ["^ntp server"], "uptime (is", [].
  split; [reflexivity|]. split; [|reflexivity].
  repeat constructor. eexists. vm_compute. reflexivity.
Defined.

Lemma drift_report_diff_iff_flag_witness :
  ∃ d,
    PyDriftOutput
      {| device := "r1"; is_drifted := true;
         diff := Some (join Demo.nl
                         ["--- baseline"; "+++ running";
                          "@@ -1,2 +1,2 @@"; " hostname R1";
                          "-ntp server 10.0.0.1";
                          "+ntp server 10.0.0.2"]) |}
    = PyDriftOutput d ∧
    device d = "r1" ∧ (is_Some (diff d) ↔ is_drifted d = true).
Proof.
  apply (drift_report_diff_iff_flag (H0 := GitModel.builtins)
           (Demo.drift_tool ["hostname R1"; "ntp server 10.0.0.2"]
              ["hostname R1"; "ntp server 10.0.0.1"] [])
           "r1"
           (ToolOutput_.ok
              (PyDriftOutput
                 {| device := "r1"; is_drifted := true;
                    diff := Some (join Demo.nl
                                    ["--- baseline"; "+++ running";
                                     "@@ -1,2 +1,2 @@"; " hostname R1";
                                     "-ntp server 10.0.0.1";
                                     "+ntp server 10.0.0.2"]) |}))).
  - vm_compute. reflexivity.
  - reflexivity.
Defined.

Lemma backup_fetch_failure_passthrough_witness :
  backup_config (H := GitModel.backend true) (H0 := GitModel.builtins)
    (Demo.backup_tool
       (λ _, Returned (FetchedOutput
                         (ToolOutput_.fail "device unreachable" None None))))
    "r1" Demo.empty_repo
  = (Returned (ToolOutput_.fail "device unreachable" None None),
     Demo.empty_repo).
Proof.
  apply (proj1 (backup_fetch_failure_passthrough (H := GitModel.backend true)
                  (H0 := GitModel.builtins)
                  (Demo.backup_tool
                     (λ _, Returned
                             (FetchedOutput
                                (ToolOutput_.fail "device unreachable"
                                   None None))))
                  "r1" Demo.empty_repo));
    reflexivity.
Defined.

Lemma backup_commits_serialized_witness :
  backup_config (H := GitModel.backend true) (H0 := GitModel.builtins)
    (Demo.backup_tool (λ _, Returned (FetchedValue (PyObject "{}"))))
    "r1" Demo.empty_repo
  = commit_config (H := GitModel.backend true) (tool_at true "/repo") "r1" "{}"
      (backup_message "r1" "2024-05-01T12:00:00") Demo.empty_repo.
Proof.
  apply (proj1 (proj2 (backup_commits_serialized (H := GitModel.backend true)
                         (H0 := GitModel.builtins)
                         (Demo.backup_tool
                            (λ _, Returned (FetchedValue (PyObject "{}"))))
                         "r1" (FetchedValue (PyObject "{}")) (PyObject "{}")
                         Demo.empty_repo eq_refl (or_introl eq_refl))
                 (conj (λ H, eq_ind (PyObject "{}")
                               (λ v, match v with PyObject _ => True
                                              | _ => False end) I _ H)
                       (λ s H, eq_ind (PyObject "{}")
                                 (λ v, match v with PyObject _ => True
                                                | _ => False end) I _ H))
                 _ eq_refl)).
  reflexivity.
Defined.

Lemma write_failure_is_fatal_witness :
  commit_config (H := GitModel.backend true) (tool_at true "/repo")
    "r1" "hostname R1" "nightly" Demo.full_disk
  = (Raised (OSError "No space left on device"), Demo.full_disk).
Proof.
  apply (proj1 (write_failure_is_fatal (H := GitModel.backend true)
                  (tool_at true "/repo") "r1" "hostname R1" "nightly"
                  Demo.full_disk)).
  reflexivity.
Defined.

Lemma other_errors_propagate_witness :
  commit_config (H := GitModel.backend true) (tool_at true "repo")
    "r2" "hostname R2" "nightly" Demo.empty_repo
  = (Raised (ValueError "not in the subpath"),
     GitModel.set_files (insert "/repo/configs/r2.cfg" "hostname R2")
       (GitModel.set_dirs (union {[ "/repo/configs" ]}) Demo.empty_repo)).
Proof.
  apply (proj1 (other_errors_propagate (H := GitModel.backend true)
                  (tool_at true "repo") "r2" "hostname R2" "nightly"
                  Demo.empty_repo
                  (GitModel.set_dirs (union {[ "/repo/configs" ]})
                     Demo.empty_repo)
                  (GitModel.set_files
                     (insert "/repo/configs/r2.cfg" "hostname R2")
                     (GitModel.set_dirs (union {[ "/repo/configs" ]})
                        Demo.empty_repo))
                  "/repo" eq_refl eq_refl eq_refl)).
  reflexivity.
Defined.

Lemma commit_follows_is_dirty_witness :
  (commit_config (H := GitModel.backend true) (tool_at true "/repo")
     "r1" "hostname R1" "nightly" Demo.empty_repo).1
  = Returned (versioned "/repo/configs/r1.cfg" "r1" "c1").
Proof.
  refine (f_equal fst
            (proj2 (commit_follows_is_dirty (H := GitModel.backend true)
                      (tool_at true "/repo") "r1" "hostname R1" "nightly"
                      Demo.empty_repo
                      (GitModel.set_dirs (union {[ "/repo/configs" ]})
                         Demo.empty_repo)
                      (Demo.written "hostname R1" Demo.empty_repo)
                      "/repo" "configs/r1.cfg"
                      (GitModel.set_index
                         (insert "configs/r1.cfg" "hostname R1")
                         (Demo.written "hostname R1" Demo.empty_repo))
                      eq_refl eq_refl eq_refl eq_refl eq_refl)
               _ _ {| hexsha := "c1" |} eq_refl eq_refl)).
Defined.

Lemma try_load_repo_unavailable_witness :
  _try_load_repo (H := GitModel.backend false) "/repo" None Demo.empty_repo
  = (Returned None, Demo.empty_repo) ∧
  _try_load_repo (H := GitModel.backend true) "/elsewhere" None Demo.empty_repo
  = (Returned None, Demo.empty_repo).
Proof.
  split.
  - apply (proj1 (try_load_repo_unavailable (H := GitModel.backend false)
                    "/repo" None Demo.empty_repo)).
    reflexivity.
  - apply (proj2 (try_load_repo_unavailable (H := GitModel.backend true)
                    "/elsewhere" None Demo.empty_repo)
             (NoSuchPathError "/elsewhere"));
      reflexivity.
Defined.

Lemma branch_pinning_witness :
  _try_load_repo (H := GitModel.backend true) "/repo" (Some "lab")
    Demo.empty_repo
  = (Returned (Some "/repo"), Demo.empty_repo).
Proof.
  apply (proj2 (proj2 (proj2 (branch_pinning (H := GitModel.backend true)
                                "/repo" (Some "lab") Demo.empty_repo "/repo"
                                Demo.empty_repo eq_refl eq_refl)
                        "lab" "main" Demo.empty_repo eq_refl eq_refl)
                  ltac:(discriminate))
           "checkout").
  reflexivity.
Defined.

Lemma differing_lines_are_flagged_witness :
  ∃ rest,
    detect_drift (H0 := GitModel.builtins)
      (Demo.drift_tool ["hostname R1"; "ntp server 10.0.0.2"]
                       ["hostname R1"; "ntp server 10.0.0.1"] [])
      "r1"
    = Returned
        (ToolOutput_.ok
           (PyDriftOutput
              {| device := "r1"; is_drifted := true;
                 diff := Some (join (String (ascii_of_nat 10) "")
                                 ("--- baseline" :: "+++ running" :: rest))
              |})).
Proof.
  apply (differing_lines_are_flagged (H0 := GitModel.builtins)
           (Demo.drift_tool ["hostname R1"; "ntp server 10.0.0.2"]
              ["hostname R1"; "ntp server 10.0.0.1"] [])
           "r1" _ _ eq_refl eq_refl eq_refl eq_refl).
  - vm_compute. discriminate.
  - vm_compute. repeat constructor.
  - vm_compute. repeat constructor.
Defined.

Lemma line_terminators_are_not_drift_witness :
  detect_drift (H0 := GitModel.builtins)
    (Demo.text_drift_tool Demo.dos_text Demo.unix_text) "r1"
  = Returned (ToolOutput_.ok
                (PyDriftOutput {| device := "r1"; is_drifted := false;
                                  diff := None |})).
Proof.
  apply (line_terminators_are_not_drift (H0 := GitModel.builtins)
           (Demo.text_drift_tool Demo.dos_text Demo.unix_text)
           "r1" ["hostname R1"; "ntp server 10.0.0.1"]
           Demo.dos_text Demo.unix_text).
  - repeat constructor.
  - exists Demo.crlf. split; [by left | by left].
  - exists Demo.nl. split.
    + right. by exists (ascii_of_nat 10).
    + right. by split.
  - reflexivity.
  - reflexivity.
Defined.

Lemma snapshot_reaches_head_witness :
  ∃ commit_hash w1,
    commit_config (H := GitModel.backend true) (tool_at true "/repo")
      "r1" "hostname R1" "nightly" Demo.empty_repo
    = (Returned
         (ToolOutput_.ok
            (PyBackupResult {| cbr_device := "r1";
                               cbr_path := "/repo/configs/r1.cfg";
                               cbr_commit_hash := commit_hash |})), w1) ∧
    GitModel.read w1 "/repo/configs/r1.cfg" = Some "hostname R1" ∧
    GitModel.head_tree w1 !! "configs/r1.cfg" = Some "hostname R1" ∧
    (GitModel.head_tree Demo.empty_repo !! "configs/r1.cfg"
       ≠ Some "hostname R1" → is_Some commit_hash) ∧
    (commit_hash = None →
     GitModel.head_tree w1 = GitModel.head_tree Demo.empty_repo).
Proof.
  apply (SnapshotFacts.snapshot_reaches_head
           (H := GitModel.backend true) (tool_at true "/repo") "/repo"
           "r1" "configs/r1.cfg" model_repository
           eq_refl eq_refl "hostname R1" "nightly" Demo.empty_repo).
  repeat split.
Defined.

